(** * my_copy.c: a file copier written against raw system calls

    Shallow embedding of [src/my_copy.c] and the properties of its
    behaviour contract.

    The program talks to the outside world only through [access], [open],
    [read], [write] and [close].  The embedding therefore threads an explicit
    [world] through every call: the file system, the table of open file
    descriptors, the three standard streams, a schedule of I/O faults chosen
    by the environment, and a log of the file-related system calls issued.
    The two [while] loops of [main] are fuel-indexed fixpoints; running out
    of fuel is the result [None].

    What the model takes for granted:
    - a file is its path: two different paths are two different files, and
      nobody else changes the files during the run;
    - descriptors 0, 1 and 2 are the standard streams, files get the lowest
      free descriptor from 3 on;
    - writes to the output and error streams take everything they are given
      (the program ignores their results anyway);
    - [open], and [read], [write], [close] on an open file, can fail or be
      cut short at the environment's will: each such call takes the next
      verdict of the schedule [w_faults]. *)

From Stdlib Require Import ZArith Strings.Byte Ascii String Lia.
From stdpp Require Import gmap strings list fin_maps.

Local Open Scope Z_scope.

(** ** Bytes, C strings and character arrays *)

Abbreviation bytes := (list byte).

Definition LF : byte := x0a.

(** A [char x[] = "..."] array: the text of the literal; the terminating NUL
    is not stored, it is accounted for by [sizeof]. *)
Definition char_array (s : string) : bytes := list_byte_of_string s.

(** A literal whose last character is a line feed. *)
Definition line (s : string) : bytes := char_array s ++ [LF].

Definition sizeof (a : bytes) : nat := S (length a).

(** [string_length], lines 23-29: counts characters up to the terminator.
    A [string] stands for a C string; the end of the [string] is its NUL. *)
Fixpoint string_length (str : string) : nat :=
  match str with
  | EmptyString => 0%nat
  | String c rest =>
      if Ascii.eqb c Ascii.zero then 0%nat else S (string_length rest)
  end.

(** ** The world *)

(** What one [read(STDIN_FILENO, &c, 1)] finds on the input stream. *)
Inductive stdin_event :=
| In_byte (b : byte)   (* one byte is delivered, read returns 1 *)
| In_eof               (* end of input (Ctrl-D), read returns 0 *)
| In_err.              (* the read fails, read returns -1 *)

(** The environment's verdict on one file system call.  [Partial k] cuts a
    read after at most [k + 1] bytes (a read never returns 0 before the end
    of the file) and a write after at most [k] bytes; [open] and [close]
    take it for [NoFault]. *)
Inductive fault :=
| NoFault                (* the call does all that was asked *)
| Partial (k : nat)      (* the transfer is cut short *)
| Fail.                  (* the call fails with -1 *)

(** An open file description: the file it names, the offset, the flags. *)
Record ofd := Ofd { ofd_path : string; ofd_pos : nat; ofd_flags : Z }.

(** The file-related system calls, as logged. *)
Inductive event :=
| EvAccess (path : string) (ret : Z)
| EvOpen (path : string) (flags : Z) (ret : Z)
| EvRead (fd : Z) (count : nat) (ret : Z) (data : bytes)
| EvWrite (fd : Z) (data : bytes) (ret : Z)
| EvClose (fd : Z) (ret : Z).

Record world := World {
  w_fs : gmap string bytes;        (* path -> content of the file *)
  w_fds : list (option ofd);       (* slot i is descriptor 3 + i *)
  w_stdin : list stdin_event;      (* pending input; empty = closed *)
  w_stdout : bytes;                (* everything written to descriptor 1 *)
  w_stderr : bytes;                (* everything written to descriptor 2 *)
  w_faults : list fault;           (* one verdict per file system call *)
  w_trace : list event             (* file system calls, oldest first *)
}.

Definition set_fs (f : gmap string bytes) (w : world) : world :=
  World f (w_fds w) (w_stdin w) (w_stdout w) (w_stderr w) (w_faults w) (w_trace w).
Definition set_fds (d : list (option ofd)) (w : world) : world :=
  World (w_fs w) d (w_stdin w) (w_stdout w) (w_stderr w) (w_faults w) (w_trace w).
Definition set_stdin (i : list stdin_event) (w : world) : world :=
  World (w_fs w) (w_fds w) i (w_stdout w) (w_stderr w) (w_faults w) (w_trace w).
Definition put_stdout (b : bytes) (w : world) : world :=
  World (w_fs w) (w_fds w) (w_stdin w) (w_stdout w ++ b) (w_stderr w) (w_faults w) (w_trace w).
Definition put_stderr (b : bytes) (w : world) : world :=
  World (w_fs w) (w_fds w) (w_stdin w) (w_stdout w) (w_stderr w ++ b) (w_faults w) (w_trace w).
Definition log (e : event) (w : world) : world :=
  World (w_fs w) (w_fds w) (w_stdin w) (w_stdout w) (w_stderr w) (w_faults w) (w_trace w ++ [e]).

(** The verdict on the next file system call; none scheduled means no fault. *)
Definition next_fault (w : world) : fault :=
  match w_faults w with [] => NoFault | f :: _ => f end.
Definition drop_fault (w : world) : world :=
  World (w_fs w) (w_fds w) (w_stdin w) (w_stdout w) (w_stderr w) (tail (w_faults w)) (w_trace w).

(** ** The monad of system-call programs *)

Definition Sys (A : Type) : Type := world -> A * world.

Definition ret {A} (a : A) : Sys A := fun w => (a, w).
Definition bind {A B} (m : Sys A) (k : A -> Sys B) : Sys B :=
  fun w => let (a, w') := m w in k a w'.

Declare Scope sys_scope.
Delimit Scope sys_scope with sys.
Notation "x <- m ;; k" := (bind m (fun x => k))
  (at level 20, m at level 99, k at level 200) : sys_scope.
Notation "' p <- m ;; k" := (bind m (fun x => let p := x in k))
  (at level 20, p pattern, m at level 99, k at level 200) : sys_scope.
Local Open Scope sys_scope.

(** ** Constants of <unistd.h> and <fcntl.h> (Linux values) *)

Definition STDIN_FILENO : Z := 0.
Definition STDOUT_FILENO : Z := 1.
Definition STDERR_FILENO : Z := 2.
Definition F_OK : Z := 0.
Definition O_RDONLY : Z := 0.
Definition O_WRONLY : Z := 1.
Definition O_ACCMODE : Z := 3.
Definition O_CREAT : Z := 64.     (* 0100 *)
Definition O_TRUNC : Z := 512.    (* 01000 *)

Definition BUFFER_SIZE : nat := 4096.

(** ** The descriptor table *)

Definition fd_slot (fd : Z) : option nat :=
  if 3 <=? fd then Some (Z.to_nat (fd - 3)) else None.

Definition fd_lookup (fd : Z) (w : world) : option ofd :=
  match fd_slot fd with
  | Some i => match w_fds w !! i with Some (Some o) => Some o | _ => None end
  | None => None
  end.

(** [open] returns the lowest descriptor not in use. *)
Fixpoint alloc (fds : list (option ofd)) (o : ofd) : nat * list (option ofd) :=
  match fds with
  | [] => (0%nat, [Some o])
  | None :: rest => (0%nat, Some o :: rest)
  | Some x :: rest => let (i, rest') := alloc rest o in (S i, Some x :: rest')
  end.

Definition may_read (flags : Z) : bool := negb (Z.land flags O_ACCMODE =? O_WRONLY).
Definition may_write (flags : Z) : bool := negb (Z.land flags O_ACCMODE =? O_RDONLY).

(** ** System calls *)

(** [access(path, F_OK)]: 0 when the path exists, -1 otherwise. *)
Definition sys_access (path : string) (mode : Z) : Sys Z :=
  fun w =>
    let r := match w_fs w !! path with Some _ => 0 | None => -1 end in
    (r, log (EvAccess path r) w).

(** [open(path, flags, mode)].  The permission bits [mode] of a created
    file are not part of the model. *)
Definition sys_open (path : string) (flags : Z) (mode : Z) : Sys Z :=
  fun w =>
    let f := next_fault w in
    let w := drop_fault w in
    let failed := (-1, log (EvOpen path flags (-1)) w) in
    let opened (w : world) :=
      let (i, fds) := alloc (w_fds w) (Ofd path 0 flags) in
      let fd := 3 + Z.of_nat i in
      (fd, log (EvOpen path flags fd) (set_fds fds w)) in
    match f with
    | Fail => failed
    | _ =>
        match w_fs w !! path with
        | None =>
            if Z.testbit flags 6   (* O_CREAT *)
            then opened (set_fs (<[path := []]> (w_fs w)) w)
            else failed
        | Some _ =>
            if Z.testbit flags 9 && may_write flags   (* O_TRUNC *)
            then opened (set_fs (<[path := []]> (w_fs w)) w)
            else opened w
        end
    end.

(** The buffer after a read delivered [data] into its front. *)
Definition fill (buf data : bytes) : bytes := data ++ drop (length data) buf.

(** The content of a file after [data] is written at offset [pos]. *)
Definition write_at (pos : nat) (data old : bytes) : bytes :=
  take pos old ++ replicate (pos - length old) x00 ++ data
    ++ drop (pos + length data) old.

Definition set_pos (fd : Z) (o : ofd) (pos : nat) (w : world) : world :=
  match fd_slot fd with
  | Some i => set_fds (<[i := Some (Ofd (ofd_path o) pos (ofd_flags o))]> (w_fds w)) w
  | None => w
  end.

(** [read(fd, buf, count)]: the result and the buffer afterwards.
    On the input stream one call takes one [stdin_event]; the program only
    ever asks for one byte there. *)
Definition sys_read (fd : Z) (buf : bytes) (count : nat) : Sys (Z * bytes) :=
  fun w =>
    if fd =? STDIN_FILENO then
      match count, w_stdin w with
      | O, _ => ((0, buf), w)
      | _, [] => ((0, buf), w)
      | _, In_byte b :: rest => ((1, fill buf [b]), set_stdin rest w)
      | _, In_eof :: rest => ((0, buf), set_stdin rest w)
      | _, In_err :: rest => ((-1, buf), set_stdin rest w)
      end
    else
      match fd_lookup fd w with
      | None => ((-1, buf), log (EvRead fd count (-1) []) w)
      | Some o =>
          let f := next_fault w in
          let w := drop_fault w in
          if negb (may_read (ofd_flags o)) then ((-1, buf), log (EvRead fd count (-1) []) w)
          else
            match f with
            | Fail => ((-1, buf), log (EvRead fd count (-1) []) w)
            | _ =>
                let avail := drop (ofd_pos o) (default [] (w_fs w !! ofd_path o)) in
                let limit := match f with Partial k => Nat.min (S k) count | _ => count end in
                let data := take limit avail in
                let n := length data in
                ((Z.of_nat n, fill buf data),
                 log (EvRead fd count (Z.of_nat n) data) (set_pos fd o (ofd_pos o + n) w))
            end
      end.

(** [write(fd, buf, count)].  Writes to the two output streams always take
    everything: the program never looks at their result. *)
Definition sys_write (fd : Z) (buf : bytes) (count : nat) : Sys Z :=
  fun w =>
    let data := take count buf in
    if fd =? STDOUT_FILENO then (Z.of_nat (length data), put_stdout data w)
    else if fd =? STDERR_FILENO then (Z.of_nat (length data), put_stderr data w)
    else
      match fd_lookup fd w with
      | None => (-1, log (EvWrite fd data (-1)) w)
      | Some o =>
          let f := next_fault w in
          let w := drop_fault w in
          if negb (may_write (ofd_flags o)) then (-1, log (EvWrite fd data (-1)) w)
          else
            match f with
            | Fail => (-1, log (EvWrite fd data (-1)) w)
            | _ =>
                let accepted := match f with Partial k => take k data | _ => data end in
                let n := length accepted in
                let old := default [] (w_fs w !! ofd_path o) in
                let w := set_fs (<[ofd_path o := write_at (ofd_pos o) accepted old]> (w_fs w)) w in
                (Z.of_nat n, log (EvWrite fd data (Z.of_nat n)) (set_pos fd o (ofd_pos o + n) w))
            end
      end.

(** [close(fd)]: the descriptor is released even when the call reports a
    failure. *)
Definition sys_close (fd : Z) : Sys Z :=
  fun w =>
    match fd_slot fd, fd_lookup fd w with
    | Some i, Some _ =>
        let f := next_fault w in
        let w := set_fds (<[i := None]> (w_fds w)) (drop_fault w) in
        let r := match f with Fail => -1 | _ => 0 end in
        (r, log (EvClose fd r) w)
    | _, _ => (-1, log (EvClose fd (-1)) w)
    end.

(** ** The program *)

(** How a region of [main] ends: control falls through to the next
    statement carrying a value, or [main] executes a [return]. *)
Inductive flow (A : Type) :=
| Next (a : A)
| Return (status : Z).
Arguments Next {A} a.
Arguments Return {A} status.

(** [read(fd, &c, 1)] on a [char] variable: the result and the variable. *)
Definition read_char (fd : Z) (c : byte) : Sys (Z * byte) :=
  '(n, buf) <- sys_read fd [c] 1 ;;
  ret (n, hd c buf).

Definition usage : bytes := line "Usage: ./my_copy <source_file> <destination_file>".
Definition prompt1 : bytes := char_array "Destination file '".
Definition prompt2 : bytes :=
  char_array "' already exists. Copying will overwrite it. Continue? (y/n): ".
Definition input_error : bytes := line "Error: Failed to read user input".
Definition proceed_msg : bytes := line "Proceeding with copy...".
Definition cancel_msg : bytes := line "Copy cancelled by user.".
Definition invalid_msg : bytes := char_array "Invalid input. Please enter 'y' or 'n': ".
Definition source_error1 : bytes := char_array "Error: Cannot open source file '".
Definition dest_error1 : bytes := char_array "Error: Cannot create destination file '".
Definition error2 : bytes := line "'".
Definition write_error : bytes := line "Error: Failed to write to destination file".
Definition incomplete_error : bytes := line "Error: Incomplete write".
Definition read_error : bytes := line "Error: Failed to read from source file".
Definition close_source_error : bytes := line "Error: Failed to close source file".
Definition close_dest_error : bytes := line "Error: Failed to close destination file".
Definition success1 : bytes := char_array "Success! Copied '".
Definition success2 : bytes := char_array "' to '".
Definition success3 : bytes := line "'".

(** [write(fd, name, string_length(name))] for a path argument. *)
Definition write_name (fd : Z) (name : string) : Sys Z :=
  sys_write fd (char_array name) (string_length name).

(** Lines 87-126: the confirmation loop.  [response] and [newline] are the
    current values of the variables of those names; [valid_input] is 1
    exactly when the loop is left through [Next]. *)
Fixpoint confirm_loop (fuel : nat) (response newline : byte) : Sys (option (flow unit)) :=
  match fuel with
  | O => ret None
  | S fuel =>
      '(bytes_read, response) <- read_char STDIN_FILENO response ;;
      if bytes_read =? -1 then
        _ <- sys_write STDERR_FILENO input_error (sizeof input_error - 1) ;;
        ret (Some (Return 1))
      else
        '(_, newline) <- read_char STDIN_FILENO newline ;;
        if Byte.eqb response "y" || Byte.eqb response "Y" then
          _ <- sys_write STDOUT_FILENO proceed_msg (sizeof proceed_msg - 1) ;;
          ret (Some (Next tt))
        else if Byte.eqb response "n" || Byte.eqb response "N" then
          _ <- sys_write STDOUT_FILENO cancel_msg (sizeof cancel_msg - 1) ;;
          ret (Some (Return 0))
        else
          _ <- sys_write STDOUT_FILENO invalid_msg (sizeof invalid_msg - 1) ;;
          confirm_loop fuel response newline
  end.

(** The uninitialised locals of [main]: what [response], [newline] and
    [buffer] hold before anything is stored in them. *)
Record stack := Stack { response0 : byte; newline0 : byte; buffer0 : bytes }.

(** Lines 67-127: the existence check and the prompt. *)
Definition confirm_overwrite (fuel : nat) (locals : stack) (dest_file : string)
  : Sys (option (flow unit)) :=
  exists_ <- sys_access dest_file F_OK ;;
  if exists_ =? 0 then
    _ <- sys_write STDOUT_FILENO prompt1 (sizeof prompt1 - 1) ;;
    _ <- write_name STDOUT_FILENO dest_file ;;
    _ <- sys_write STDOUT_FILENO prompt2 (sizeof prompt2 - 1) ;;
    confirm_loop fuel (response0 locals) (newline0 locals)
  else ret (Some (Next tt)).

(** Lines 189-217: the transfer loop.  [Next bytes_read] is the loop's
    normal exit with the last result of [read]. *)
Fixpoint copy_loop (fuel : nat) (source_fd dest_fd : Z) (buffer : bytes)
  : Sys (option (flow Z)) :=
  match fuel with
  | O => ret None
  | S fuel =>
      '(bytes_read, buffer) <- sys_read source_fd buffer BUFFER_SIZE ;;
      if bytes_read >? 0 then
        bytes_written <- sys_write dest_fd buffer (Z.to_nat bytes_read) ;;
        if bytes_written =? -1 then
          _ <- sys_write STDERR_FILENO write_error (sizeof write_error - 1) ;;
          _ <- sys_close source_fd ;;
          _ <- sys_close dest_fd ;;
          ret (Some (Return 1))
        else if negb (bytes_written =? bytes_read) then
          _ <- sys_write STDERR_FILENO incomplete_error (sizeof incomplete_error - 1) ;;
          _ <- sys_close source_fd ;;
          _ <- sys_close dest_fd ;;
          ret (Some (Return 1))
        else copy_loop fuel source_fd dest_fd buffer
      else ret (Some (Next bytes_read))
  end.

(** Lines 137-258: open both files, transfer, close, report.  [buffer] is
    the initial content of the 4096-byte array. *)
Definition transfer (fuel : nat) (buffer : bytes) (source_file dest_file : string)
  : Sys (option Z) :=
  source_fd <- sys_open source_file O_RDONLY 0 ;;
  if source_fd =? -1 then
    _ <- sys_write STDERR_FILENO source_error1 (sizeof source_error1 - 1) ;;
    _ <- write_name STDERR_FILENO source_file ;;
    _ <- sys_write STDERR_FILENO error2 (sizeof error2 - 1) ;;
    ret (Some 1)
  else
    dest_fd <- sys_open dest_file (Z.lor (Z.lor O_WRONLY O_CREAT) O_TRUNC) 420 (* 0644 *) ;;
    if dest_fd =? -1 then
      _ <- sys_write STDERR_FILENO dest_error1 (sizeof dest_error1 - 1) ;;
      _ <- write_name STDERR_FILENO dest_file ;;
      _ <- sys_write STDERR_FILENO error2 (sizeof error2 - 1) ;;
      _ <- sys_close source_fd ;;
      ret (Some 1)
    else
      r <- copy_loop fuel source_fd dest_fd buffer ;;
      match r with
      | None => ret None
      | Some (Return status) => ret (Some status)
      | Some (Next bytes_read) =>
          if bytes_read =? -1 then
            _ <- sys_write STDERR_FILENO read_error (sizeof read_error - 1) ;;
            _ <- sys_close source_fd ;;
            _ <- sys_close dest_fd ;;
            ret (Some 1)
          else
            c <- sys_close source_fd ;;
            if c =? -1 then
              _ <- sys_write STDERR_FILENO close_source_error (sizeof close_source_error - 1) ;;
              _ <- sys_close dest_fd ;;
              ret (Some 1)
            else
              c <- sys_close dest_fd ;;
              if c =? -1 then
                _ <- sys_write STDERR_FILENO close_dest_error (sizeof close_dest_error - 1) ;;
                ret (Some 1)
              else
                _ <- sys_write STDOUT_FILENO success1 (sizeof success1 - 1) ;;
                _ <- write_name STDOUT_FILENO source_file ;;
                _ <- sys_write STDOUT_FILENO success2 (sizeof success2 - 1) ;;
                _ <- write_name STDOUT_FILENO dest_file ;;
                _ <- sys_write STDOUT_FILENO success3 (sizeof success3 - 1) ;;
                ret (Some 0)
      end.

(** [main], lines 31-259.  [argv] holds the program name and the arguments,
    [argc] is its length.  The result is the exit status, or [None] when the
    fuel ran out inside a loop. *)
Definition main (fuel : nat) (locals : stack) (argv : list string) : Sys (option Z) :=
  let argc := Z.of_nat (length argv) in
  if negb (argc =? 3) then
    _ <- sys_write STDERR_FILENO usage (sizeof usage - 1) ;;
    ret (Some 1)
  else
    let source_file := nth 1 argv EmptyString in
    let dest_file := nth 2 argv EmptyString in
    c <- confirm_overwrite fuel locals dest_file ;;
    match c with
    | None => ret None
    | Some (Return status) => ret (Some status)
    | Some (Next _) => transfer fuel (buffer0 locals) source_file dest_file
    end.

(** ** Vocabulary of the specification *)

(** *** Answers at the prompt *)

Definition is_yes (c : byte) : bool := Byte.eqb c "y" || Byte.eqb c "Y".
Definition is_no (c : byte) : bool := Byte.eqb c "n" || Byte.eqb c "N".
Definition valid_answer (c : byte) : bool := is_yes c || is_no c.

(** An answer that is none of y, Y, n, N. *)
Definition invalid_answer (c : byte) : Prop :=
  c <> "y"%byte /\ c <> "Y"%byte /\ c <> "n"%byte /\ c <> "N"%byte.

(** One prompt cycle as the input stream sees it: the byte the first read
    delivers, and what the second read finds. *)
Definition cycle : Type := byte * stdin_event.

Definition cycles_input (cs : list cycle) : list stdin_event :=
  flat_map (fun c => [In_byte c.1; c.2]) cs.

(** The value a one-byte variable holds after a read found [e]. *)
Definition stored (old : byte) (e : stdin_event) : byte :=
  match e with In_byte b => b | _ => old end.

Definition final_response (r : byte) (cs : list cycle) : byte :=
  fold_left (fun _ c => c.1) cs r.
Definition final_newline (nl : byte) (cs : list cycle) : byte :=
  fold_left (fun nl c => stored nl c.2) cs nl.

Definition reprompts (n : nat) : bytes := concat (replicate n invalid_msg).


(** The input events a run took: the part of the stream no longer pending. *)
Definition consumed (w w' : world) : list stdin_event :=
  take (length (w_stdin w) - length (w_stdin w')) (w_stdin w).

(** *** Messages with a file name in them *)

Definition name_bytes (name : string) : bytes := take (string_length name) (char_array name).
Definition prompt (dest_file : string) : bytes := prompt1 ++ name_bytes dest_file ++ prompt2.
Definition source_error (name : string) : bytes := source_error1 ++ name_bytes name ++ error2.
Definition dest_error (name : string) : bytes := dest_error1 ++ name_bytes name ++ error2.
Definition success_msg (source_file dest_file : string) : bytes :=
  success1 ++ name_bytes source_file ++ success2 ++ name_bytes dest_file ++ success3.

(** The world once the overwrite warning has been displayed. *)
Definition prompted (dest_file : string) (w : world) : world :=
  put_stdout (prompt dest_file) (log (EvAccess dest_file 0) w).

(** *** Runs and their system calls *)

Definition source_of (argv : list string) : string := nth 1 argv EmptyString.
Definition dest_of (argv : list string) : string := nth 2 argv EmptyString.

(** [O_WRONLY | O_CREAT | O_TRUNC] *)
Definition DEST_FLAGS : Z := Z.lor (Z.lor O_WRONLY O_CREAT) O_TRUNC.

(** The file system calls a run from [w] to [w'] issued. *)
Definition new_events (w w' : world) : list event :=
  drop (length (w_trace w)) (w_trace w').

(** All bytes that [read] calls on files returned, in order. *)
Fixpoint bytes_read (tr : list event) : bytes :=
  match tr with
  | [] => []
  | EvRead _ _ _ data :: tr => data ++ bytes_read tr
  | _ :: tr => bytes_read tr
  end.

(** All bytes that [write] calls on files reported as written, in order. *)
Fixpoint bytes_written (tr : list event) : bytes :=
  match tr with
  | [] => []
  | EvWrite _ data k :: tr => take (Z.to_nat k) data ++ bytes_written tr
  | _ :: tr => bytes_written tr
  end.

(** The destination was opened (and so created or truncated). *)
Definition opened_for_writing (path : string) (evs : list event) : Prop :=
  exists fd, fd <> -1 /\ EvOpen path DEST_FLAGS fd ∈ evs.

(** The events of an iteration that goes on: a read, or a complete write. *)
Definition clean_event (e : event) : Prop :=
  match e with
  | EvRead _ _ _ _ => True
  | EvWrite _ data k => k = Z.of_nat (length data)
  | _ => False
  end.

(** The file system after [open(path, flags)] succeeded. *)
Definition open_fs (path : string) (flags : Z) (fs : gmap string bytes) : gmap string bytes :=
  match fs !! path with
  | None => <[path := []]> fs
  | Some _ => if Z.testbit flags 9 && may_write flags then <[path := []]> fs else fs
  end.

(** *** The pieces of [main], as the proofs take it apart *)

(** The error exits of the transfer loop: message, two [close] calls,
    [return 1]. *)
Definition bail_out (source_fd dest_fd : Z) (msg : bytes) (w : world) : option (flow Z) * world :=
  let (_, w) := sys_close source_fd (put_stderr msg w) in
  let (_, w) := sys_close dest_fd w in
  (Some (Return 1), w).

(** Lines 219-258, once the transfer loop has ended with [r]. *)
Definition finish (sfd dfd : Z) (src dst : string) (r : option (flow Z)) (w : world)
  : option Z * world :=
  match r with
  | None => (None, w)
  | Some (Return s) => (Some s, w)
  | Some (Next n) =>
      if n =? -1 then
        let (_, w) := sys_close sfd (put_stderr read_error w) in
        let (_, w) := sys_close dfd w in (Some 1, w)
      else
        let (c, w) := sys_close sfd w in
        if c =? -1 then
          let (_, w) := sys_close dfd (put_stderr close_source_error w) in (Some 1, w)
        else
          let (c, w) := sys_close dfd w in
          if c =? -1 then (Some 1, put_stderr close_dest_error w)
          else (Some 0, put_stdout (success_msg src dst) w)
  end.

(** What the transfer loop did, read off the log: [evs] are its events. *)
Definition loop_outcome (sfd dfd : Z) (w w' : world) (r : option (flow Z)) (evs : list event) : Prop :=
  match r with
  | Some (Return s) =>
      s = 1 /\ exists evs0 data k c1 c2,
        evs = evs0 ++ [EvWrite dfd data k; EvClose sfd c1; EvClose dfd c2] /\
        Forall clean_event evs0 /\ (k = -1 \/ 0 <= k < Z.of_nat (length data)) /\
        bytes_read evs0 = bytes_written evs0 ++ data /\
        w_stderr w' = w_stderr w ++ (if k =? -1 then write_error else incomplete_error) /\
        fd_lookup sfd w' = None /\ fd_lookup dfd w' = None
  | _ => Forall clean_event evs /\ bytes_written evs = bytes_read evs /\ w_stderr w' = w_stderr w
  end.

(** The invariant of the transfer loop for two different files: both
    descriptors stand at offset [pos], and the destination holds the first
    [pos] bytes of the source, whose content is [content]. *)
Definition copying (src dst : string) (sfd dfd : Z) (content : bytes) (pos : nat) (w : world) : Prop :=
  src <> dst /\ sfd <> dfd /\
  (exists fl, fd_lookup sfd w = Some (Ofd src pos fl) /\ may_read fl = true) /\
  (exists fl, fd_lookup dfd w = Some (Ofd dst pos fl) /\ may_write fl = true) /\
  w_fs w !! src = Some content /\ w_fs w !! dst = Some (take pos content) /\
  (pos <= length content)%nat.

(** What the transfer loop did to the files, started at offset [pos]. *)
Definition data_outcome (dst : string) (sfd dfd : Z) (content : bytes) (fuel pos : nat)
    (w w' : world) (r : option (flow Z)) : Prop :=
  exists evs pos',
    w_trace w' = w_trace w ++ evs /\
    w_fs w' = <[dst := take pos content ++ bytes_written evs]> (w_fs w) /\
    (pos <= pos' <= length content)%nat /\
    take pos content ++ bytes_read evs = take pos' content /\
    (r = Some (Next 0) -> pos' = length content) /\
    ((length content - pos < fuel)%nat -> r <> None) /\
    (w_faults w = [] ->
       w_faults w' = [] /\ (r = None \/ r = Some (Next 0)) /\
       fd_lookup sfd w' <> None /\ fd_lookup dfd w' <> None).

(** The content of the source when the first [read] is issued: the
    destination has been truncated by then, and it may be the same file. *)
Definition content_at_start (src dst : string) (w : world) : bytes :=
  if decide (src = dst) then [] else default [] (w_fs w !! src).

(** A run of [transfer] in which both files were opened. *)
Definition transfer_started (fuel : nat) (buf : bytes) (src dst : string) (w : world)
    (res : option Z) (w' : world) : Prop :=
  exists sfd dfd content w2 r wl,
    3 <= sfd /\ 3 <= dfd /\ sfd <> dfd /\
    w_fs w !! src = Some content /\
    w_trace w2 = w_trace w ++ [EvOpen src O_RDONLY sfd; EvOpen dst DEST_FLAGS dfd] /\
    w_fs w2 = <[dst := []]> (w_fs w) /\
    w_stdin w2 = w_stdin w /\ w_stdout w2 = w_stdout w /\ w_stderr w2 = w_stderr w /\
    w_faults w2 = tail (tail (w_faults w)) /\
    fd_lookup sfd w2 = Some (Ofd src 0 O_RDONLY) /\
    fd_lookup dfd w2 = Some (Ofd dst 0 DEST_FLAGS) /\
    copy_loop fuel sfd dfd buf w2 = (r, wl) /\
    finish sfd dfd src dst r wl = (res, w').

(** How a run that opened both files ended: [levs] are the events of the
    transfer loop, [tl] those after it. *)
Definition loop_end (sfd dfd : Z) (src dst : string) (w w' : world) (res : option Z)
    (r : option (flow Z)) (levs tl : list event) : Prop :=
  match r with
  | None =>
      res = None /\ tl = [] /\ Forall clean_event levs /\ bytes_written levs = bytes_read levs
  | Some (Return _) =>
      res = Some 1 /\ tl = [] /\
      exists evs0 data k c1 c2,
        levs = evs0 ++ [EvWrite dfd data k; EvClose sfd c1; EvClose dfd c2] /\
        Forall clean_event evs0 /\ (k = -1 \/ 0 <= k < Z.of_nat (length data)) /\
        bytes_read evs0 = bytes_written evs0 ++ data /\
        w_stderr w' = w_stderr w ++ (if k =? -1 then write_error else incomplete_error) /\
        fd_lookup sfd w' = None /\ fd_lookup dfd w' = None
  | Some (Next n) =>
      exists c1 c2,
        tl = [EvClose sfd c1; EvClose dfd c2] /\
        Forall clean_event levs /\ bytes_written levs = bytes_read levs /\
        fd_lookup sfd w' = None /\ fd_lookup dfd w' = None /\
        (res = Some 1 \/
         (res = Some 0 /\ bytes_read levs = content_at_start src dst w /\
          w_stdout w' = w_stdout w ++ success_msg src dst /\ w_stderr w' = w_stderr w))
  end.

(** A run of [transfer] that opened both files, by its events [evs]. *)
Definition copy_run (fuel : nat) (src dst : string) (w : world) (res : option Z) (w' : world)
    (evs : list event) : Prop :=
  exists sfd dfd levs tl r,
    3 <= sfd /\ 3 <= dfd /\ sfd <> dfd /\
    evs = [EvOpen src O_RDONLY sfd; EvOpen dst DEST_FLAGS dfd] ++ levs ++ tl /\
    w_fs w !! src <> None /\
    w_fs w' = <[dst := bytes_written levs]> (w_fs w) /\
    w_stdin w' = w_stdin w /\
    bytes_read levs `prefix_of` content_at_start src dst w /\
    loop_end sfd dfd src dst w w' res r levs tl /\
    (w_faults w = [] -> (length (content_at_start src dst w) < fuel)%nat -> res = Some 0).

(** The three ways a run of [transfer] can go. *)
Definition transfer_outcome (fuel : nat) (src dst : string) (w : world) (res : option Z)
    (w' : world) (evs : list event) : Prop :=
  (res = Some 1 /\ evs = [EvOpen src O_RDONLY (-1)] /\
   w_fs w' = w_fs w /\ w_fds w' = w_fds w /\ w_stdin w' = w_stdin w /\
   w_stderr w' = w_stderr w ++ source_error src /\
   (w_faults w <> [] \/ w_fs w !! src = None)) \/
  (exists sfd c, 3 <= sfd /\ res = Some 1 /\
     evs = [EvOpen src O_RDONLY sfd; EvOpen dst DEST_FLAGS (-1); EvClose sfd c] /\
     w_fs w' = w_fs w /\ w_stdin w' = w_stdin w /\ w_faults w <> []) \/
  copy_run fuel src dst w res w' evs.

(** *** The statements of the contract that the code does not meet *)

(** "Any failing read of the input stream during the prompt is fatal." *)
Definition stdin_failure_always_fatal : Prop :=
  forall fuel locals argv w res w',
    main fuel locals argv w = (Some res, w') ->
    In_err ∈ consumed w w' ->
    res <> 0 /\ w_stderr w' <> w_stderr w.




(** "At every moment, fatal errors included, as many bytes were written as
    were read." *)
Definition written_equals_read_always : Prop :=
  forall fuel locals argv w res w',
    main fuel locals argv w = (res, w') ->
    bytes_written (new_events w w') = bytes_read (new_events w w').

(** *** Worlds used as examples *)

Definition my_copy_argv : list string := ["./my_copy"; "a.txt"; "b.txt"]%string.
Definition some_stack : stack := Stack x00 x00 [].

(** A fresh process: nothing open, nothing typed, no fault scheduled. *)
Definition fresh (fs : gmap string bytes) (input : list stdin_event) (faults : list fault) : world :=
  World fs [] input [] [] faults [].

Definition hello : bytes := char_array "hello world".
Definition only_source : gmap string bytes := {[ "a.txt"%string := hello ]}.
Definition both_files : gmap string bytes :=
  {[ "a.txt"%string := hello; "b.txt"%string := char_array "old" ]}.

(** The example of the contract: "hello world" copied to an absent file. *)
Definition hello_run : option Z * world :=
  main 3 some_stack my_copy_argv (fresh only_source [] []).

(** The answer is "y"; the read of the line terminator then fails. *)
Definition yes_then_error : world := fresh both_files [In_byte "y"; In_err] [].


(** The write of the only chunk takes 4 bytes of 11. *)
Definition short_write_world : world :=
  fresh only_source [] [NoFault; NoFault; NoFault; Partial 4].

(** The user types "x", Enter, "N", Enter. *)
Definition declining : world :=
  fresh both_files [In_byte "x"; In_byte LF; In_byte "N"; In_byte LF] [].

(** Only the destination exists, and the user types "y" and Enter. *)
Definition only_dest : gmap string bytes := {[ "b.txt"%string := char_array "old" ]}.
Definition no_source : world := fresh only_dest [In_byte "y"; In_byte LF] [].

(** The first read of the answer fails. *)
Definition stdin_broken : world := fresh both_files [In_err] [].

(** The destination exists and the input stream is closed. *)
Definition stdin_closed : world := fresh both_files [] [].

Definition one_argument : list string := ["./my_copy"; "a.txt"]%string.


(** *** Paths as C strings *)

(** A path without a NUL character inside: the whole Rocq string is the C
    string. *)
Fixpoint nul_free (s : string) : bool :=
  match s with
  | EmptyString => true
  | String c rest => negb (Ascii.eqb c Ascii.zero) && nul_free rest
  end.

(** The largest value of the C type [int] (32 bits). *)
Definition INT_MAX : Z := 2147483647.

(** Lines 23-29 with the counter the source declares: [len] is an [int],
    and [len++] at [INT_MAX] overflows, which C leaves undefined ([None]).
    [string_length] above counts in [nat]; the two agree as long as the
    terminator is found within [INT_MAX] characters, as it is for every
    path the program is given. *)
Fixpoint string_length_int (len : Z) (str : string) : option Z :=
  match str with
  | EmptyString => Some len
  | String c rest =>
      if Ascii.eqb c Ascii.zero then Some len
      else if len <? INT_MAX then string_length_int (len + 1) rest
      else None
  end.

(** *** The shape of a copy *)

(** The two calls of a turn of the transfer loop that goes on: a read that
    delivered the chunk [d], and the write that took all of it. *)
Definition iteration (sfd dfd : Z) (d : bytes) : list event :=
  [EvRead sfd BUFFER_SIZE (Z.of_nat (length d)) d; EvWrite dfd d (Z.of_nat (length d))].

(** What one successful [read] of the loop can deliver: at least one byte,
    at most a buffer. *)
Definition chunk (d : bytes) : Prop := (0 < length d <= BUFFER_SIZE)%nat.

(** The calls of the turn that leaves the transfer loop with [r]. *)
Definition loop_ending (sfd dfd : Z) (r : option (flow Z)) (ending : list event) : Prop :=
  match r with
  | None => ending = []
  | Some (Next n) => (n = 0 \/ n = -1) /\ ending = [EvRead sfd BUFFER_SIZE n []]
  | Some (Return s) =>
      s = 1 /\ exists d k c1 c2,
        chunk d /\ (k = -1 \/ 0 <= k < Z.of_nat (length d)) /\
        ending = [EvRead sfd BUFFER_SIZE (Z.of_nat (length d)) d; EvWrite dfd d k;
                  EvClose sfd c1; EvClose dfd c2]
  end.

(** How a run that opened both files went on: [chunks] are the chunks of
    the completed turns, [ending] the calls of the last turn and [tl] the
    calls after the loop. *)
Definition copy_ending (sfd dfd : Z) (src dst : string) (fuel : nat) (w w' : world)
    (res : option Z) (chunks : list bytes) (ending tl : list event) : Prop :=
  (res = None /\ ending = [] /\ tl = [] /\ length chunks = fuel /\
   w_stderr w' = w_stderr w /\ w_stdout w' = w_stdout w) \/
  (res = Some 1 /\ tl = [] /\ w_stdout w' = w_stdout w /\
   exists d k c1 c2,
     chunk d /\ (k = -1 \/ 0 <= k < Z.of_nat (length d)) /\
     ending = [EvRead sfd BUFFER_SIZE (Z.of_nat (length d)) d; EvWrite dfd d k;
               EvClose sfd c1; EvClose dfd c2] /\
     w_stderr w' = w_stderr w ++ (if k =? -1 then write_error else incomplete_error)) \/
  (res = Some 1 /\ w_stdout w' = w_stdout w /\
   exists c1 c2,
     ending = [EvRead sfd BUFFER_SIZE (-1) []] /\ tl = [EvClose sfd c1; EvClose dfd c2] /\
     w_stderr w' = w_stderr w ++ read_error) \/
  (exists c1 c2,
     ending = [EvRead sfd BUFFER_SIZE 0 []] /\ tl = [EvClose sfd c1; EvClose dfd c2] /\
     concat chunks = content_at_start src dst w /\
     ((c1 = -1 /\ res = Some 1 /\ w_stdout w' = w_stdout w /\
       w_stderr w' = w_stderr w ++ close_source_error) \/
      (c1 = 0 /\ c2 = -1 /\ res = Some 1 /\ w_stdout w' = w_stdout w /\
       w_stderr w' = w_stderr w ++ close_dest_error) \/
      (c1 = 0 /\ c2 = 0 /\ res = Some 0 /\ w_stderr w' = w_stderr w /\
       w_stdout w' = w_stdout w ++ success_msg src dst))).

(** A run of [transfer] that opened both files, by its events [evs]. *)
Definition copy_report (fuel : nat) (src dst : string) (w : world) (res : option Z)
    (w' : world) (evs : list event) : Prop :=
  exists sfd dfd chunks ending tl,
    3 <= sfd /\ 3 <= dfd /\ sfd <> dfd /\
    fd_lookup sfd w = None /\ fd_lookup dfd w = None /\
    Forall chunk chunks /\ (length chunks <= fuel)%nat /\
    evs = [EvOpen src O_RDONLY sfd; EvOpen dst DEST_FLAGS dfd]
            ++ (flat_map (iteration sfd dfd) chunks ++ ending) ++ tl /\
    w_fs w !! src <> None /\
    w_fs w' = <[dst := bytes_written (flat_map (iteration sfd dfd) chunks ++ ending)]> (w_fs w) /\
    bytes_read (flat_map (iteration sfd dfd) chunks ++ ending)
      `prefix_of` content_at_start src dst w /\
    (forall fd, fd <> sfd -> fd <> dfd -> fd_lookup fd w' = fd_lookup fd w) /\
    (res <> None -> fd_lookup sfd w' = None /\ fd_lookup dfd w' = None) /\
    w_stdin w' = w_stdin w /\
    ((length (content_at_start src dst w) < fuel)%nat -> res <> None) /\
    (w_faults w = [] -> (length (content_at_start src dst w) < fuel)%nat -> res = Some 0) /\
    copy_ending sfd dfd src dst fuel w w' res chunks ending tl.

(** The three ways a run of [transfer] can go, with the message each one
    writes and what it leaves in the descriptor table. *)
Definition transfer_report (fuel : nat) (src dst : string) (w : world) (res : option Z)
    (w' : world) (evs : list event) : Prop :=
  (res = Some 1 /\ evs = [EvOpen src O_RDONLY (-1)] /\
   w_fs w' = w_fs w /\ w_fds w' = w_fds w /\ w_stdin w' = w_stdin w /\
   w_stdout w' = w_stdout w /\ w_stderr w' = w_stderr w ++ source_error src /\
   (next_fault w = Fail \/ w_fs w !! src = None)) \/
  (exists sfd c, 3 <= sfd /\ res = Some 1 /\
     evs = [EvOpen src O_RDONLY sfd; EvOpen dst DEST_FLAGS (-1); EvClose sfd c] /\
     w_fs w !! src <> None /\ w_faults w !! 1%nat = Some Fail /\
     w_fs w' = w_fs w /\ w_stdin w' = w_stdin w /\ w_stdout w' = w_stdout w /\
     w_stderr w' = w_stderr w ++ dest_error dst /\
     fd_lookup sfd w = None /\
     forall fd, fd_lookup fd w' = fd_lookup fd w) \/
  copy_report fuel src dst w res w' evs.

(** The three ways a run of [main] can go: wrong argument count, a run that
    ends at the prompt, a run that reaches [open]. *)
Definition main_report (fuel : nat) (argv : list string) (w : world) (res : option Z)
    (w' : world) : Prop :=
  (length argv <> 3%nat /\ res = Some 1 /\ w' = put_stderr usage w) \/
  (length argv = 3%nat /\ exists a,
     new_events w w' = [EvAccess (dest_of argv) a] /\
     w_fs w' = w_fs w /\ w_fds w' = w_fds w /\
     (a = 0 /\ w_fs w !! dest_of argv <> None) /\
     (res = None /\ w_stderr w' = w_stderr w \/
      res = Some 0 /\ w_stderr w' = w_stderr w \/
      res = Some 1 /\ w_stderr w' = w_stderr w ++ input_error)) \/
  (length argv = 3%nat /\ exists a w1 evs,
     new_events w w' = EvAccess (dest_of argv) a :: evs /\
     w_fs w1 = w_fs w /\ w_fds w1 = w_fds w /\ w_faults w1 = w_faults w /\
     w_stderr w1 = w_stderr w /\
     (w_fs w !! dest_of argv = None -> w_stdout w1 = w_stdout w /\ w_stdin w1 = w_stdin w) /\
     transfer_report fuel (source_of argv) (dest_of argv) w1 res w' evs).

(** Every message the program can write to the error stream. *)
Definition error_messages (source_file dest_file : string) : list bytes :=
  [usage; input_error; source_error source_file; dest_error dest_file;
   write_error; incomplete_error; read_error; close_source_error; close_dest_error].

(** The last system calls of a run that opened both files. *)
Definition run_ending (sfd dfd : Z) (res : option Z) (ending : list event) : Prop :=
  (res = None /\ ending = []) \/
  (res = Some 1 /\ exists d k c1 c2,
     chunk d /\ (k = -1 \/ 0 <= k < Z.of_nat (length d)) /\
     ending = [EvRead sfd BUFFER_SIZE (Z.of_nat (length d)) d; EvWrite dfd d k;
               EvClose sfd c1; EvClose dfd c2]) \/
  (res = Some 1 /\ exists c1 c2,
     ending = [EvRead sfd BUFFER_SIZE (-1) []; EvClose sfd c1; EvClose dfd c2]) \/
  (exists c1 c2,
     ending = [EvRead sfd BUFFER_SIZE 0 []; EvClose sfd c1; EvClose dfd c2] /\
     res = Some (if (c1 =? 0) && (c2 =? 0) then 0 else 1)).

(** *** More worlds used as examples *)

(** [open] of the destination is refused. *)
Definition dest_refused : world := fresh only_source [] [NoFault; Fail].

(** The first [read] of the source fails. *)
Definition read_fails : world := fresh only_source [] [NoFault; NoFault; Fail].

(** Everything goes well until [close] of the source reports a failure. *)
Definition close_fails : world :=
  fresh only_source [] [NoFault; NoFault; NoFault; NoFault; NoFault; Fail].

(** The user types "x", Enter, "y", Enter. *)
Definition overwriting : world :=
  fresh both_files [In_byte "x"; In_byte LF; In_byte "y"; In_byte LF] [].

(** Source and destination are one path; the user types "y" and Enter. *)
Definition same_file_argv : list string := ["./my_copy"; "a.txt"; "a.txt"]%string.
Definition self_copy : world := fresh only_source [In_byte "y"; In_byte LF] [].

(** Every [read] is cut after three bytes. *)
Definition slow_reads : world :=
  fresh only_source []
    [NoFault; NoFault; Partial 2; NoFault; Partial 2; NoFault; Partial 2; NoFault; Partial 2].

(** * Proofs *)

(** ** Lists and logs *)

Lemma take_sizeof (m : bytes) : take (sizeof m - 1) m = m.
Proof. unfold sizeof. replace (S (length m) - 1)%nat with (length m) by lia. apply firstn_all. Qed.

Lemma take_fill buf data : take (length data) (fill buf data) = data.
Proof. unfold fill. by rewrite take_app_length. Qed.

Lemma take_length_take {A} (l : list A) n : take (length (take n l)) l = take n l.
Proof.
  rewrite length_take. destruct (Nat.le_ge_cases n (length l)).
  - by rewrite Nat.min_l.
  - rewrite Nat.min_r by done. by rewrite firstn_all, take_ge.
Qed.

Lemma take_chunk {A} (l : list A) pos n :
  take pos l ++ take n (drop pos l) = take (pos + length (take n (drop pos l))) l.
Proof. by rewrite <- take_take_drop, take_length_take. Qed.

Lemma take_nil_inv {A} (l : list A) n : (0 < n)%nat -> take n l = [] -> l = [].
Proof. destruct n, l; simpl; try done. lia. Qed.

Lemma write_at_end (data old : bytes) : write_at (length old) data old = old ++ data.
Proof.
  unfold write_at. rewrite firstn_all, Nat.sub_diag, drop_ge by lia. simpl.
  by rewrite app_nil_r.
Qed.

Lemma bytes_read_app t1 t2 : bytes_read (t1 ++ t2) = bytes_read t1 ++ bytes_read t2.
Proof. induction t1 as [|[] t1 IH]; simpl; auto. by rewrite IH, app_assoc. Qed.

Lemma bytes_written_app t1 t2 : bytes_written (t1 ++ t2) = bytes_written t1 ++ bytes_written t2.
Proof. induction t1 as [|[] t1 IH]; simpl; auto. by rewrite IH, app_assoc. Qed.

Lemma new_events_app w w' evs : w_trace w' = w_trace w ++ evs -> new_events w w' = evs.
Proof. unfold new_events. intros ->. by rewrite drop_app_length. Qed.


Lemma clean_not_open p f x evs : Forall clean_event evs -> EvOpen p f x ∉ evs.
Proof. intros H Hin. by eapply Forall_forall in H; [|exact Hin]. Qed.

Lemma clean_write_complete evs fd data k :
  Forall clean_event evs -> EvWrite fd data k ∈ evs -> k = Z.of_nat (length data).
Proof. intros H Hin. by eapply Forall_forall in H; [|exact Hin]. Qed.

(** ** Worlds *)

Lemma world_eta w : World (w_fs w) (w_fds w) (w_stdin w) (w_stdout w) (w_stderr w) (w_faults w) (w_trace w) = w.
Proof. destruct w; reflexivity. Qed.

Lemma put_stderr_app a b w : put_stderr b (put_stderr a w) = put_stderr (a ++ b) w.
Proof. unfold put_stderr. cbn. by rewrite <- ?app_assoc. Qed.

Lemma put_stdout_app a b w : put_stdout b (put_stdout a w) = put_stdout (a ++ b) w.
Proof. unfold put_stdout. cbn. by rewrite <- ?app_assoc. Qed.

Lemma no_fault_scheduled w : w_faults w = [] -> next_fault w = NoFault.
Proof. unfold next_fault. by intros ->. Qed.

Lemma set_pos_frame fd o p w :
  w_fs (set_pos fd o p w) = w_fs w /\ w_stdin (set_pos fd o p w) = w_stdin w /\
  w_stdout (set_pos fd o p w) = w_stdout w /\ w_stderr (set_pos fd o p w) = w_stderr w /\
  w_faults (set_pos fd o p w) = w_faults w /\ w_trace (set_pos fd o p w) = w_trace w.
Proof. unfold set_pos. destruct (fd_slot fd); repeat split. Qed.

Ltac frame_set_pos :=
  repeat match goal with
  | |- context [w_fs (set_pos ?fd ?o ?p ?w)] => rewrite (proj1 (set_pos_frame fd o p w))
  | |- context [w_stdin (set_pos ?fd ?o ?p ?w)] => rewrite (proj1 (proj2 (set_pos_frame fd o p w)))
  | |- context [w_stdout (set_pos ?fd ?o ?p ?w)] => rewrite (proj1 (proj2 (proj2 (set_pos_frame fd o p w))))
  | |- context [w_stderr (set_pos ?fd ?o ?p ?w)] => rewrite (proj1 (proj2 (proj2 (proj2 (set_pos_frame fd o p w)))))
  | |- context [w_faults (set_pos ?fd ?o ?p ?w)] => rewrite (proj1 (proj2 (proj2 (proj2 (proj2 (set_pos_frame fd o p w))))))
  | |- context [w_trace (set_pos ?fd ?o ?p ?w)] => rewrite (proj2 (proj2 (proj2 (proj2 (proj2 (set_pos_frame fd o p w))))))
  end.

Ltac fields :=
  cbn [w_fs w_fds w_stdin w_stdout w_stderr w_faults w_trace
       set_fs set_fds set_stdin put_stdout put_stderr log drop_fault].

(** ** The descriptor table *)

Lemma alloc_spec o fds :
  forall i fds', alloc fds o = (i, fds') ->
    (forall x, fds !! i <> Some (Some x)) /\
    fds' !! i = Some (Some o) /\
    (forall j, j <> i -> fds' !! j = fds !! j).
Proof.
  induction fds as [|[x|] fds IH]; intros i fds' E; simpl in E.
  - inversion E; subst. repeat split; try done. intros [|j] ?; done.
  - destruct (alloc fds o) as [i0 r0] eqn:E0. inversion E; subst.
    destruct (IH _ _ eq_refl) as (H1 & H2 & H3).
    repeat split; simpl; auto. intros [|j] ?; simpl; auto.
  - inversion E; subst. repeat split; try done. intros [|j] ?; done.
Qed.

Lemma fd_slot_inj fd fd' i : fd_slot fd = Some i -> fd_slot fd' = Some i -> fd = fd'.
Proof.
  unfold fd_slot. destruct (Z.leb_spec 3 fd); [|done]. destruct (Z.leb_spec 3 fd'); [|done].
  intros [= <-] [= E]. lia.
Qed.

Lemma fd_slot_of_nat i : fd_slot (3 + Z.of_nat i) = Some i.
Proof. unfold fd_slot. destruct (Z.leb_spec 3 (3 + Z.of_nat i)); [f_equal; lia | lia]. Qed.

Lemma fd_lookup_Some fd w o :
  fd_lookup fd w = Some o ->
  exists i, fd_slot fd = Some i /\ w_fds w !! i = Some (Some o) /\ 3 <= fd.
Proof.
  unfold fd_lookup. destruct (fd_slot fd) as [i|] eqn:E; [|done].
  destruct (w_fds w !! i) as [[o'|]|] eqn:E'; try done. intros [= ->]. exists i. repeat split; auto.
  unfold fd_slot in E. destruct (Z.leb_spec 3 fd); [lia|done].
Qed.

Lemma fd_lookup_insert fd fd' i x w w' :
  fd_slot fd = Some i -> (i < length (w_fds w))%nat ->
  w_fds w' = <[i := x]> (w_fds w) ->
  fd_lookup fd' w' = if decide (fd' = fd) then x else fd_lookup fd' w.
Proof.
  intros Hs Hi Hw. unfold fd_lookup. rewrite Hw. case_decide as Hd.
  - subst fd'. rewrite Hs, list_lookup_insert_eq by done. by destruct x.
  - destruct (fd_slot fd') as [j|] eqn:Ej; [|done].
    rewrite list_lookup_insert_ne; [done|]. intros <-. apply Hd. eauto using fd_slot_inj.
Qed.

Lemma fd_lookup_set_pos fd o p w fd' :
  fd_lookup fd w = Some o ->
  fd_lookup fd' (set_pos fd o p w) =
  if decide (fd' = fd) then Some (Ofd (ofd_path o) p (ofd_flags o)) else fd_lookup fd' w.
Proof.
  intros H. destruct (fd_lookup_Some _ _ _ H) as (i & Hs & Hi & _).
  apply (fd_lookup_insert fd fd' i (Some (Ofd (ofd_path o) p (ofd_flags o))) w); auto.
  - eapply lookup_lt_Some; eauto.
  - unfold set_pos. rewrite Hs. reflexivity.
Qed.

Lemma fd_not_stdin fd w o : fd_lookup fd w = Some o -> (fd =? STDIN_FILENO) = false /\ (fd =? STDOUT_FILENO) = false /\ (fd =? STDERR_FILENO) = false.
Proof. intros H. destruct (fd_lookup_Some _ _ _ H) as (_ & _ & _ & H3). unfold STDIN_FILENO, STDOUT_FILENO, STDERR_FILENO. lia. Qed.

(** ** System calls *)

Lemma sys_write_stdout m w : sys_write STDOUT_FILENO m (sizeof m - 1) w = (Z.of_nat (length m), put_stdout m w).
Proof. unfold sys_write. rewrite take_sizeof. reflexivity. Qed.

Lemma sys_write_stderr m w : sys_write STDERR_FILENO m (sizeof m - 1) w = (Z.of_nat (length m), put_stderr m w).
Proof. unfold sys_write. rewrite take_sizeof. reflexivity. Qed.

Lemma write_name_stdout name w :
  write_name STDOUT_FILENO name w = (Z.of_nat (length (name_bytes name)), put_stdout (name_bytes name) w).
Proof. reflexivity. Qed.

Lemma write_name_stderr name w :
  write_name STDERR_FILENO name w = (Z.of_nat (length (name_bytes name)), put_stderr (name_bytes name) w).
Proof. reflexivity. Qed.

Lemma read_char_stdin c w :
  read_char STDIN_FILENO c w =
  match w_stdin w with
  | [] => ((0, c), w)
  | e :: rest =>
      ((match e with In_byte _ => 1 | In_eof => 0 | In_err => -1 end, stored c e),
       set_stdin rest w)
  end.
Proof. unfold read_char, bind, ret, sys_read. simpl. destruct (w_stdin w) as [|[b| |] rest]; reflexivity. Qed.

Lemma sys_read_file fd o buf count w :
  fd_lookup fd w = Some o -> may_read (ofd_flags o) = true -> (0 < count)%nat ->
  exists n data w1,
    sys_read fd buf count w = ((n, fill buf data), w1) /\
    w_fs w1 = w_fs w /\ w_stdin w1 = w_stdin w /\ w_stdout w1 = w_stdout w /\
    w_stderr w1 = w_stderr w /\ w_faults w1 = tail (w_faults w) /\
    w_trace w1 = w_trace w ++ [EvRead fd count n data] /\
    ((n = -1 /\ data = [] /\ w_fds w1 = w_fds w /\ next_fault w = Fail) \/
     (n = Z.of_nat (length data) /\ next_fault w <> Fail /\
      (exists l, (0 < l)%nat /\ (next_fault w = NoFault -> l = count) /\
         data = take l (drop (ofd_pos o) (default [] (w_fs w !! ofd_path o)))) /\
      forall fd', fd_lookup fd' w1 =
        if decide (fd' = fd) then Some (Ofd (ofd_path o) (ofd_pos o + length data) (ofd_flags o))
        else fd_lookup fd' w)).
Proof.
  intros Hfd Hr Hc. destruct (fd_not_stdin _ _ _ Hfd) as (E0 & _).
  assert (Hok : forall l, (0 < l)%nat -> (next_fault w = NoFault -> l = count) -> next_fault w <> Fail ->
    let data := take l (drop (ofd_pos o) (default [] (w_fs w !! ofd_path o))) in
    let w1 := log (EvRead fd count (Z.of_nat (length data)) data)
                (set_pos fd o (ofd_pos o + length data) (drop_fault w)) in
    w_fs w1 = w_fs w /\ w_stdin w1 = w_stdin w /\ w_stdout w1 = w_stdout w /\
    w_stderr w1 = w_stderr w /\ w_faults w1 = tail (w_faults w) /\
    w_trace w1 = w_trace w ++ [EvRead fd count (Z.of_nat (length data)) data] /\
    ((Z.of_nat (length data) = -1 /\ data = [] /\ w_fds w1 = w_fds w /\ next_fault w = Fail) \/
     (Z.of_nat (length data) = Z.of_nat (length data) /\ next_fault w <> Fail /\
      (exists l, (0 < l)%nat /\ (next_fault w = NoFault -> l = count) /\
         data = take l (drop (ofd_pos o) (default [] (w_fs w !! ofd_path o)))) /\
      forall fd', fd_lookup fd' w1 =
        if decide (fd' = fd) then Some (Ofd (ofd_path o) (ofd_pos o + length data) (ofd_flags o))
        else fd_lookup fd' w))).
  { intros l Hl Hn Hf data w1. subst w1. cbn [log w_fs w_stdin w_stdout w_stderr w_faults w_trace].
    frame_set_pos. do 6 (split; [reflexivity|]). right. split; [reflexivity|]. split; [done|].
    split; [by exists l|]. intros fd'.
    etransitivity; [|apply (fd_lookup_set_pos fd o _ (drop_fault w)); exact Hfd]. reflexivity. }
  unfold sys_read. rewrite E0, Hfd, Hr. cbn [negb].
  destruct (next_fault w) eqn:Ef.
  - eexists _, _, _. split; [reflexivity|]. apply Hok; auto; discriminate.
  - eexists _, _, _. split; [reflexivity|]. apply Hok; [lia| discriminate | discriminate].
  - exists (-1), [], (log (EvRead fd count (-1) []) (drop_fault w)). split; [reflexivity|].
    cbn. repeat split; auto.
Qed.

Lemma sys_write_file fd o buf count w :
  fd_lookup fd w = Some o -> may_write (ofd_flags o) = true ->
  exists k w2,
    sys_write fd buf count w = (k, w2) /\
    w_stdin w2 = w_stdin w /\ w_stdout w2 = w_stdout w /\
    w_stderr w2 = w_stderr w /\ w_faults w2 = tail (w_faults w) /\
    w_trace w2 = w_trace w ++ [EvWrite fd (take count buf) k] /\
    ((k = -1 /\ w_fs w2 = w_fs w /\ w_fds w2 = w_fds w /\ next_fault w = Fail) \/
     (exists acc, acc `prefix_of` take count buf /\ k = Z.of_nat (length acc) /\
        next_fault w <> Fail /\
        (next_fault w = NoFault -> acc = take count buf) /\
        w_fs w2 = <[ofd_path o := write_at (ofd_pos o) acc (default [] (w_fs w !! ofd_path o))]> (w_fs w) /\
        forall fd', fd_lookup fd' w2 =
          if decide (fd' = fd) then Some (Ofd (ofd_path o) (ofd_pos o + length acc) (ofd_flags o))
          else fd_lookup fd' w)).
Proof.
  intros Hfd Hr. destruct (fd_not_stdin _ _ _ Hfd) as (_ & E1 & E2).
  assert (Hok : forall acc, acc `prefix_of` take count buf ->
    (next_fault w = NoFault -> acc = take count buf) -> next_fault w <> Fail ->
    let k := Z.of_nat (length acc) in
    let w2 := log (EvWrite fd (take count buf) k)
       (set_pos fd o (ofd_pos o + length acc)
         (set_fs (<[ofd_path o := write_at (ofd_pos o) acc (default [] (w_fs w !! ofd_path o))]> (w_fs w))
            (drop_fault w))) in
    w_stdin w2 = w_stdin w /\ w_stdout w2 = w_stdout w /\
    w_stderr w2 = w_stderr w /\ w_faults w2 = tail (w_faults w) /\
    w_trace w2 = w_trace w ++ [EvWrite fd (take count buf) k] /\
    ((k = -1 /\ w_fs w2 = w_fs w /\ w_fds w2 = w_fds w /\ next_fault w = Fail) \/
     (exists acc, acc `prefix_of` take count buf /\ k = Z.of_nat (length acc) /\
        next_fault w <> Fail /\
        (next_fault w = NoFault -> acc = take count buf) /\
        w_fs w2 = <[ofd_path o := write_at (ofd_pos o) acc (default [] (w_fs w !! ofd_path o))]> (w_fs w) /\
        forall fd', fd_lookup fd' w2 =
          if decide (fd' = fd) then Some (Ofd (ofd_path o) (ofd_pos o + length acc) (ofd_flags o))
          else fd_lookup fd' w))).
  { intros acc Hp Hn Hf k w2. subst w2 k. cbn [log w_fs w_stdin w_stdout w_stderr w_faults w_trace].
    frame_set_pos. do 5 (split; [reflexivity|]). right. exists acc.
    do 4 (split; [done|]). split; [reflexivity|]. intros fd'.
    match goal with |- fd_lookup _ (log _ (set_pos _ _ _ ?W)) = _ =>
      etransitivity; [|apply (fd_lookup_set_pos fd o _ W); exact Hfd] end.
    reflexivity. }
  unfold sys_write. rewrite E1, E2, Hfd, Hr. cbn [negb].
  destruct (next_fault w) eqn:Ef.
  - eexists _, _. split; [reflexivity|]. apply Hok; auto; discriminate.
  - eexists _, _. split; [reflexivity|]. apply Hok; [apply prefix_take| discriminate | discriminate].
  - eexists _, _. split; [reflexivity|]. cbn. repeat split; auto.
Qed.

Lemma sys_read_any fd buf count w :
  3 <= fd ->
  exists n data w1,
    sys_read fd buf count w = ((n, fill buf data), w1) /\
    w_stdin w1 = w_stdin w /\ w_stdout w1 = w_stdout w /\ w_stderr w1 = w_stderr w /\
    w_trace w1 = w_trace w ++ [EvRead fd count n data] /\
    ((n = -1 /\ data = []) \/ n = Z.of_nat (length data)).
Proof.
  intros Hfd. unfold sys_read.
  replace (fd =? STDIN_FILENO) with false by (unfold STDIN_FILENO; lia).
  assert (Hfail : forall w0, w_stdin w0 = w_stdin w -> w_stdout w0 = w_stdout w ->
     w_stderr w0 = w_stderr w -> w_trace w0 = w_trace w ->
     exists n data w1, ((-1, buf), log (EvRead fd count (-1) []) w0) = ((n, fill buf data), w1) /\
    w_stdin w1 = w_stdin w /\ w_stdout w1 = w_stdout w /\ w_stderr w1 = w_stderr w /\
    w_trace w1 = w_trace w ++ [EvRead fd count n data] /\
    ((n = -1 /\ data = []) \/ n = Z.of_nat (length data))).
  { intros w0 H1 H2 H3 H4. exists (-1), [], (log (EvRead fd count (-1) []) w0).
    split; [reflexivity|]. cbn. rewrite H1, H2, H3, H4. split_and!; auto. }
  destruct (fd_lookup fd w) as [o|]; [|by apply Hfail].
  destruct (negb (may_read (ofd_flags o))); [by apply Hfail|].
  destruct (next_fault w); [| |by apply Hfail].
  all: eexists _, _, _; split; [reflexivity|]; cbn [log w_stdin w_stdout w_stderr w_trace];
       frame_set_pos; split_and!; auto.
Qed.

Lemma sys_write_any fd buf count w :
  3 <= fd ->
  exists k w2,
    sys_write fd buf count w = (k, w2) /\
    w_stdin w2 = w_stdin w /\ w_stdout w2 = w_stdout w /\ w_stderr w2 = w_stderr w /\
    w_trace w2 = w_trace w ++ [EvWrite fd (take count buf) k] /\
    (k = -1 \/ 0 <= k <= Z.of_nat (length (take count buf))).
Proof.
  intros Hfd. unfold sys_write.
  replace (fd =? STDOUT_FILENO) with false by (unfold STDOUT_FILENO; lia).
  replace (fd =? STDERR_FILENO) with false by (unfold STDERR_FILENO; lia).
  destruct (fd_lookup fd w) as [o|].
  2: { eexists _, _; split; [reflexivity|]. cbn. split_and!; auto. }
  destruct (negb (may_write (ofd_flags o))).
  { eexists _, _; split; [reflexivity|]. cbn. split_and!; auto. }
  destruct (next_fault w).
  3: { eexists _, _; split; [reflexivity|]. cbn. split_and!; auto. }
  all: eexists _, _; split; [reflexivity|]; cbn [log w_stdin w_stdout w_stderr w_trace];
       frame_set_pos; split_and!; auto; right; split; try lia.
  rewrite length_take. lia.
Qed.

Lemma sys_close_spec fd w :
  exists r w',
    sys_close fd w = (r, w') /\ (r = 0 \/ r = -1) /\
    w_fs w' = w_fs w /\ w_stdin w' = w_stdin w /\ w_stdout w' = w_stdout w /\
    w_stderr w' = w_stderr w /\ w_trace w' = w_trace w ++ [EvClose fd r] /\
    fd_lookup fd w' = None /\
    (forall fd', fd' <> fd -> fd_lookup fd' w' = fd_lookup fd' w) /\
    (w_faults w = [] -> w_faults w' = []) /\
    (fd_lookup fd w <> None -> w_faults w = [] -> r = 0).
Proof.
  unfold sys_close. destruct (fd_lookup fd w) as [o|] eqn:Hfd.
  - destruct (fd_lookup_Some _ _ _ Hfd) as (i & Hs & Hi & _). rewrite Hs.
    eexists _, _. split; [reflexivity|]. cbn.
    assert (Hlt : (i < length (w_fds w))%nat) by (eapply lookup_lt_Some; eauto).
    split; [destruct (next_fault w); auto|]. do 5 (split; [reflexivity|]).
    split; [|split; [|split]].
    + erewrite (fd_lookup_insert fd fd i None (drop_fault w)); eauto. by rewrite decide_True.
    + intros fd' Hne. erewrite (fd_lookup_insert fd fd' i None (drop_fault w)); eauto.
      by rewrite decide_False.
    + intros ->. reflexivity.
    + intros _ E. unfold next_fault. rewrite E. reflexivity.
  - exists (-1), (log (EvClose fd (-1)) w). split; [by destruct (fd_slot fd)|].
    cbn. repeat split; auto. done.
Qed.

Lemma open_fs_dest dst fs : open_fs dst DEST_FLAGS fs = <[dst := []]> fs.
Proof. unfold open_fs. by destruct (fs !! dst). Qed.

Lemma open_fs_source src fs : open_fs src O_RDONLY fs = match fs !! src with Some _ => fs | None => <[src := []]> fs end.
Proof. unfold open_fs. by destruct (fs !! src). Qed.

Lemma sys_open_spec path flags mode w :
  exists fd w1,
    sys_open path flags mode w = (fd, w1) /\
    w_stdin w1 = w_stdin w /\ w_stdout w1 = w_stdout w /\ w_stderr w1 = w_stderr w /\
    w_faults w1 = tail (w_faults w) /\
    w_trace w1 = w_trace w ++ [EvOpen path flags fd] /\
    ((fd = -1 /\ w_fs w1 = w_fs w /\ w_fds w1 = w_fds w /\
      (next_fault w = Fail \/ (w_fs w !! path = None /\ Z.testbit flags 6 = false))) \/
     (3 <= fd /\ next_fault w <> Fail /\
      (w_fs w !! path = None -> Z.testbit flags 6 = true) /\
      w_fs w1 = open_fs path flags (w_fs w) /\
      fd_lookup fd w = None /\
      forall fd', fd_lookup fd' w1 =
        if decide (fd' = fd) then Some (Ofd path 0 flags) else fd_lookup fd' w)).
Proof.
  assert (Hop : forall fs, let w0 := set_fs fs (drop_fault w) in
    exists fd w1,
      (let (i, fds) := alloc (w_fds w0) (Ofd path 0 flags) in
       (3 + Z.of_nat i, log (EvOpen path flags (3 + Z.of_nat i)) (set_fds fds w0))) = (fd, w1) /\
      w_stdin w1 = w_stdin w /\ w_stdout w1 = w_stdout w /\ w_stderr w1 = w_stderr w /\
      w_faults w1 = tail (w_faults w) /\
      w_trace w1 = w_trace w ++ [EvOpen path flags fd] /\
      3 <= fd /\ w_fs w1 = fs /\ fd_lookup fd w = None /\
      forall fd', fd_lookup fd' w1 =
        if decide (fd' = fd) then Some (Ofd path 0 flags) else fd_lookup fd' w).
  { intros fs w0. subst w0. cbn [w_fds set_fs drop_fault].
    destruct (alloc (w_fds w) (Ofd path 0 flags)) as [i fds] eqn:Ea.
    destruct (alloc_spec _ _ _ _ Ea) as (Hfree & Hnew & Hother).
    eexists _, _. split; [reflexivity|]. cbn. do 5 (split; [reflexivity|]).
    split; [lia|]. split; [reflexivity|]. split.
    - unfold fd_lookup. rewrite fd_slot_of_nat. destruct (w_fds w !! i) as [[x|]|] eqn:E; auto.
      by destruct (Hfree x).
    - intros fd'. unfold fd_lookup. cbn. case_decide as Hd.
      + subst fd'. by rewrite fd_slot_of_nat, Hnew.
      + destruct (fd_slot fd') as [j|] eqn:Ej; [|done]. rewrite Hother; [done|].
        intros ->. apply Hd. eapply fd_slot_inj; eauto using fd_slot_of_nat. }
  assert (Hfail : exists fd w1,
      (-1, log (EvOpen path flags (-1)) (drop_fault w)) = (fd, w1) /\
      w_stdin w1 = w_stdin w /\ w_stdout w1 = w_stdout w /\ w_stderr w1 = w_stderr w /\
      w_faults w1 = tail (w_faults w) /\
      w_trace w1 = w_trace w ++ [EvOpen path flags fd] /\
      fd = -1 /\ w_fs w1 = w_fs w /\ w_fds w1 = w_fds w).
  { eexists _, _. split; [reflexivity|]. cbn. repeat split. }
  unfold sys_open.
  destruct (next_fault w) eqn:Ef.
  1,2: cbn [w_fs drop_fault]; unfold open_fs; destruct (w_fs w !! path) as [old|] eqn:Ep;
    [ destruct (Z.testbit flags 9 && may_write flags);
      [ destruct (Hop (<[path:=[]]> (w_fs w))) as (fd & w1 & E & H1 & H2 & H3 & H4 & H5 & H6 & H7 & H8)
      | destruct (Hop (w_fs w)) as (fd & w1 & E & H1 & H2 & H3 & H4 & H5 & H6 & H7 & H8) ]
    | destruct (Z.testbit flags 6) eqn:Ec;
      [ destruct (Hop (<[path:=[]]> (w_fs w))) as (fd & w1 & E & H1 & H2 & H3 & H4 & H5 & H6 & H7 & H8)
      | destruct Hfail as (fd & w1 & E & H1 & H2 & H3 & H4 & H5 & H6 & H7 & H8) ] ].
  all: try (exists fd, w1; split; [first [exact E | rewrite <- E; f_equal; destruct w; reflexivity]|];
       do 5 (split; [assumption|])).
  all: try (destruct H8; right; split_and!; done).
  all: try (left; split_and!; auto; fail).
  destruct Hfail as (fd & w1 & E & H1 & H2 & H3 & H4 & H5 & H6 & H7 & H8).
  exists fd, w1. split; [exact E|]. do 5 (split; [assumption|]). left. split_and!; auto.
Qed.

Lemma sys_open_failed path flags mode w w1 :
  sys_open path flags mode w = (-1, w1) -> w1 = log (EvOpen path flags (-1)) (drop_fault w).
Proof.
  unfold sys_open.
  assert (Hop : forall w0 fd, (let (i, fds) := alloc (w_fds w0) (Ofd path 0 flags) in
      (3 + Z.of_nat i, log (EvOpen path flags (3 + Z.of_nat i)) (set_fds fds w0))) = (fd, w1) -> 3 <= fd).
  { intros w0 fd. destruct (alloc _ _). intros [= <- _]. lia. }
  destruct (next_fault w); [| |by intros [= <-]].
  all: destruct (w_fs (drop_fault w) !! path);
    [destruct (Z.testbit flags 9 && may_write flags)|destruct (Z.testbit flags 6)];
    intros E; try (apply Hop in E; lia); by injection E as <-.
Qed.

(** ** The confirmation loop *)

Lemma invalid_answer_spec c : invalid_answer c -> valid_answer c = false.
Proof.
  unfold invalid_answer, valid_answer, is_yes, is_no. intros (H1 & H2 & H3 & H4).
  destruct c; try reflexivity; congruence.
Qed.

Lemma is_no_spec c : c = "n"%byte \/ c = "N"%byte -> is_no c = true.
Proof. by intros [-> | ->]. Qed.

Lemma invalid_cycles_spec (cs : list cycle) :
  Forall (fun c => invalid_answer c.1) cs -> Forall (fun c => valid_answer c.1 = false) cs.
Proof. intros H. eapply Forall_impl; [exact H|]. intros c. apply invalid_answer_spec. Qed.

Lemma confirm_loop_S fuel r nl w :
  confirm_loop (S fuel) r nl w =
  let '((n, r'), w1) := read_char STDIN_FILENO r w in
  if n =? -1 then (Some (Return 1), put_stderr input_error w1)
  else
    let '((_, nl'), w2) := read_char STDIN_FILENO nl w1 in
    if is_yes r' then (Some (Next tt), put_stdout proceed_msg w2)
    else if is_no r' then (Some (Return 0), put_stdout cancel_msg w2)
    else confirm_loop fuel r' nl' (put_stdout invalid_msg w2).
Proof.
  cbn [confirm_loop]. unfold bind at 1, is_yes, is_no.
  destruct (read_char STDIN_FILENO r w) as [[n r'] w1].
  destruct (n =? -1).
  - unfold bind, ret. rewrite sys_write_stderr. reflexivity.
  - unfold bind at 1. destruct (read_char STDIN_FILENO nl w1) as [[m nl'] w2].
    destruct (_ || _). { unfold bind, ret. rewrite sys_write_stdout. reflexivity. }
    destruct (_ || _). { unfold bind, ret. rewrite sys_write_stdout. reflexivity. }
    unfold bind. rewrite sys_write_stdout. reflexivity.
Qed.

Lemma confirm_loop_invalid_cycles (cs : list cycle) :
  Forall (fun c => valid_answer c.1 = false) cs ->
  forall fuel r nl w rest,
    w_stdin w = cycles_input cs ++ rest ->
    confirm_loop (length cs + fuel) r nl w =
    confirm_loop fuel (final_response r cs) (final_newline nl cs)
      (set_stdin rest (put_stdout (reprompts (length cs)) w)).
Proof.
  induction 1 as [|[a t] cs Ha _ IH]; intros fuel r nl w rest Hin.
  - simpl in *. unfold reprompts, put_stdout, set_stdin. simpl. rewrite app_nil_r, <- Hin.
    rewrite world_eta. reflexivity.
  - simpl in Hin. simpl length. rewrite Nat.add_succ_l, confirm_loop_S.
    rewrite read_char_stdin, Hin. cbn [stored Z.eqb].
    rewrite read_char_stdin. cbn [w_stdin set_stdin].
    simpl in Ha. unfold valid_answer in Ha. apply orb_false_iff in Ha as [-> ->].
    erewrite IH by reflexivity. simpl.
    f_equal. unfold set_stdin, put_stdout, reprompts. simpl. rewrite <- app_assoc. reflexivity.
Qed.

Lemma confirm_loop_frame :
  forall fuel r nl w c w',
    confirm_loop fuel r nl w = (c, w') ->
    w_fs w' = w_fs w /\ w_fds w' = w_fds w /\ w_faults w' = w_faults w /\
    w_trace w' = w_trace w /\
    (c = Some (Return 1) /\ w_stderr w' = w_stderr w ++ input_error \/
     (c = None \/ c = Some (Next tt) \/ c = Some (Return 0)) /\ w_stderr w' = w_stderr w).
Proof.
  induction fuel as [|fuel IH]; intros r nl w c w' E.
  { injection E as <- <-. split_and!; auto. }
  rewrite confirm_loop_S, !read_char_stdin in E.
  destruct (w_stdin w) as [|e rest] eqn:Hin.
  - cbn [Z.eqb] in E. rewrite read_char_stdin, Hin in E.
    destruct (is_yes r); [injection E as <- <-; cbn; split_and!; auto|].
    destruct (is_no r); [injection E as <- <-; cbn; split_and!; auto|].
    apply IH in E. cbn in E. exact E.
  - destruct e as [b| |]; cbn [Z.eqb stored] in E.
    3: { injection E as <- <-. cbn. split_and!; auto. }
    all: rewrite read_char_stdin in E; cbn [w_stdin set_stdin] in E.
    all: destruct rest as [|e' rest'].
    all: match type of E with
         | context [is_yes ?x] =>
             destruct (is_yes x); [injection E as <- <-; cbn; split_and!; auto|];
             destruct (is_no x); [injection E as <- <-; cbn; split_and!; auto|]
         end.
    all: apply IH in E; cbn in E; exact E.
Qed.

Lemma confirm_loop_no fuel r nl w c rest :
  w_stdin w = In_byte c :: rest -> is_no c = true ->
  confirm_loop (S fuel) r nl w =
  (Some (Return 0), put_stdout cancel_msg (set_stdin (tail rest) w)).
Proof.
  intros Hin Hc. rewrite confirm_loop_S, read_char_stdin, Hin. cbn [Z.eqb stored].
  rewrite read_char_stdin. cbn [w_stdin set_stdin].
  assert (is_yes c = false) as ->.
  { revert Hc. unfold is_no, is_yes. clear. by destruct c. }
  rewrite Hc. destruct rest as [|e rest]; reflexivity.
Qed.

Lemma confirm_loop_err fuel r nl w rest :
  w_stdin w = In_err :: rest ->
  confirm_loop (S fuel) r nl w = (Some (Return 1), put_stderr input_error (set_stdin rest w)).
Proof. intros Hin. by rewrite confirm_loop_S, read_char_stdin, Hin. Qed.

Lemma confirm_loop_closed fuel r nl w :
  w_stdin w = [] ->
  confirm_loop (S fuel) r nl w =
  if is_yes r then (Some (Next tt), put_stdout proceed_msg w)
  else if is_no r then (Some (Return 0), put_stdout cancel_msg w)
  else confirm_loop fuel r nl (put_stdout invalid_msg w).
Proof. intros Hin. rewrite confirm_loop_S, read_char_stdin, Hin. cbn [Z.eqb]. by rewrite read_char_stdin, Hin. Qed.

Lemma confirm_loop_closed_forever r nl :
  valid_answer r = false ->
  forall fuel w, w_stdin w = [] ->
    confirm_loop fuel r nl w = (None, put_stdout (reprompts fuel) w).
Proof.
  intros Hr. apply orb_false_iff in Hr as [Hy Hn].
  induction fuel as [|fuel IH]; intros w Hin.
  - cbn. unfold put_stdout, reprompts. cbn. rewrite app_nil_r. by destruct w.
  - rewrite confirm_loop_closed, Hy, Hn by done. rewrite IH by done.
    by rewrite put_stdout_app.
Qed.

Lemma confirm_loop_eof fuel r nl w rest :
  w_stdin w = In_eof :: rest ->
  confirm_loop (S fuel) r nl w =
  if is_yes r then (Some (Next tt), put_stdout proceed_msg (set_stdin (tail rest) w))
  else if is_no r then (Some (Return 0), put_stdout cancel_msg (set_stdin (tail rest) w))
  else confirm_loop fuel r (stored nl (hd In_eof rest))
         (put_stdout invalid_msg (set_stdin (tail rest) w)).
Proof.
  intros Hin. rewrite confirm_loop_S, read_char_stdin, Hin. cbn [Z.eqb stored].
  rewrite read_char_stdin. cbn [w_stdin set_stdin]. by destruct rest.
Qed.

(** ** The transfer loop *)

Lemma copy_loop_S fuel sfd dfd buf w :
  copy_loop (S fuel) sfd dfd buf w =
  let '((n, buf1), w1) := sys_read sfd buf BUFFER_SIZE w in
  if n >? 0 then
    let '(k, w2) := sys_write dfd buf1 (Z.to_nat n) w1 in
    if k =? -1 then bail_out sfd dfd write_error w2
    else if negb (k =? n) then bail_out sfd dfd incomplete_error w2
    else copy_loop fuel sfd dfd buf1 w2
  else (Some (Next n), w1).
Proof.
  cbn [copy_loop]. unfold bind at 1.
  destruct (sys_read sfd buf BUFFER_SIZE w) as [[n buf1] w1].
  destruct (n >? 0); [|reflexivity].
  unfold bind at 1. destruct (sys_write dfd buf1 (Z.to_nat n) w1) as [k w2].
  unfold bail_out.
  destruct (k =? -1).
  { unfold bind, ret. rewrite sys_write_stderr.
    destruct (sys_close sfd _) as [? w3]. destruct (sys_close dfd _) as [? w4]. reflexivity. }
  destruct (negb (k =? n)); [|reflexivity].
  unfold bind, ret. rewrite sys_write_stderr.
  destruct (sys_close sfd _) as [? w3]. destruct (sys_close dfd _) as [? w4]. reflexivity.
Qed.

Lemma bail_out_spec sfd dfd msg w :
  exists c1 c2 w',
    bail_out sfd dfd msg w = (Some (Return 1), w') /\
    w_fs w' = w_fs w /\ w_stdin w' = w_stdin w /\ w_stdout w' = w_stdout w /\
    w_stderr w' = w_stderr w ++ msg /\
    w_trace w' = w_trace w ++ [EvClose sfd c1; EvClose dfd c2] /\
    fd_lookup sfd w' = None /\ fd_lookup dfd w' = None.
Proof.
  unfold bail_out.
  destruct (sys_close_spec sfd (put_stderr msg w)) as (c1 & w3 & E3 & _ & F3 & I3 & O3 & R3 & T3 & L3 & N3 & _).
  destruct (sys_close_spec dfd w3) as (c2 & w4 & E4 & _ & F4 & I4 & O4 & R4 & T4 & L4 & N4 & _).
  rewrite E3, E4. exists c1, c2, w4. split; [reflexivity|].
  rewrite F4, F3, I4, I3, O4, O3, R4, R3, T4, T3. cbn. split_and!; auto.
  - by rewrite <- app_assoc.
  - destruct (decide (sfd = dfd)) as [->|Hne]; [done|]. by rewrite N4.
Qed.

(** What the loop leaves in the log, whatever the two descriptors are. *)
Section Loop_log.
Variables sfd dfd : Z.
Hypothesis Hs : 3 <= sfd.
Hypothesis Hd : 3 <= dfd.

Lemma copy_loop_trace :
  forall fuel buf w r w',
    copy_loop fuel sfd dfd buf w = (r, w') ->
    exists evs, w_trace w' = w_trace w ++ evs /\
      w_stdin w' = w_stdin w /\ w_stdout w' = w_stdout w /\
      loop_outcome sfd dfd w w' r evs /\
      (forall n, r = Some (Next n) -> n = 0 \/ n = -1).
Proof.
  induction fuel as [|fuel IH]; intros buf w r w' E.
  { inversion E; subst. exists []. rewrite app_nil_r. split_and!; auto; [|done]. split_and!; auto. }
  rewrite copy_loop_S in E.
  destruct (sys_read_any sfd buf BUFFER_SIZE w Hs) as (n & data & w1 & E1 & I1 & O1 & R1 & T1 & Hn).
  rewrite E1 in E.
  destruct (Z.gtb_spec n 0) as [Hpos|Hle].
  2: { inversion E; subst. exists [EvRead sfd BUFFER_SIZE n data].
       split_and!; auto.
       - assert (data = []) as ->.
         { destruct Hn as [[_ ->]|Hn]; [done|]. destruct data; [done|]. simpl in Hn. lia. }
         split_and!; auto. repeat constructor.
       - intros ? [= <-]. destruct Hn as [[-> _]|Hn]; [auto|]. lia. }
  destruct Hn as [[? _]|Hn]; [lia|].
  assert (Ht : take (Z.to_nat n) (fill buf data) = data).
  { rewrite Hn, Nat2Z.id. apply take_fill. }
  destruct (sys_write_any dfd (fill buf data) (Z.to_nat n) w1 Hd) as (k & w2 & E2 & I2 & O2 & R2 & T2 & Hk).
  rewrite E2, Ht in *. rewrite <- Hn in Hk.
  assert (Hbail : forall msg, msg = (if k =? -1 then write_error else incomplete_error) ->
     k <> n -> bail_out sfd dfd msg w2 = (r, w') ->
     exists evs, w_trace w' = w_trace w ++ evs /\ w_stdin w' = w_stdin w /\
       w_stdout w' = w_stdout w /\ loop_outcome sfd dfd w w' r evs /\
       (forall n, r = Some (Next n) -> n = 0 \/ n = -1)).
  { intros msg Hmsg Hkn Eb.
    destruct (bail_out_spec sfd dfd msg w2) as (c1 & c2 & w4 & E4 & F4 & I4 & O4 & R4 & T4 & L4 & L4').
    rewrite E4 in Eb. inversion Eb; subst r w'.
    exists ([EvRead sfd BUFFER_SIZE n data] ++ [EvWrite dfd data k; EvClose sfd c1; EvClose dfd c2]).
    split_and!.
    - by rewrite T4, T2, T1, <- !app_assoc.
    - by rewrite I4, I2, I1.
    - by rewrite O4, O2, O1.
    - split; [done|]. exists [EvRead sfd BUFFER_SIZE n data], data, k, c1, c2.
      split_and!; auto.
      + repeat constructor.
      + lia.
      + simpl. by rewrite app_nil_r.
      + by rewrite R4, R2, R1, <- Hmsg.
    - done. }
  destruct (Z.eqb_spec k (-1)) as [Hk1|Hk1]; [by apply (Hbail write_error); [|lia|]|].
  destruct (Z.eqb_spec k n) as [Hkn|Hkn]; [|by apply (Hbail incomplete_error)].
  cbn [negb] in E. apply IH in E as (evs & T & I & O & Hout & Hnext).
  exists ([EvRead sfd BUFFER_SIZE n data; EvWrite dfd data k] ++ evs).
  split; [by rewrite T, T2, T1, <- !app_assoc|].
  split; [by rewrite I, I2, I1|]. split; [by rewrite O, O2, O1|].
  split; [|exact Hnext].
  assert (Hc : Forall clean_event [EvRead sfd BUFFER_SIZE n data; EvWrite dfd data k]).
  { repeat constructor. simpl. lia. }
  assert (Hw : take (Z.to_nat k) data = data).
  { rewrite Hkn, Hn, Nat2Z.id. apply firstn_all. }
  unfold loop_outcome in *. destruct r as [[m|s]|].
  - destruct Hout as (H1 & H2 & H3). split_and!.
    + by apply Forall_app.
    + cbn [app bytes_read bytes_written]. by rewrite Hw, H2.
    + by rewrite H3, R2, R1.
  - destruct Hout as (-> & evs0 & data' & k' & c1 & c2 & -> & H1 & H2 & H3 & H4 & H5).
    split; [done|]. exists ([EvRead sfd BUFFER_SIZE n data; EvWrite dfd data k] ++ evs0), data', k', c1, c2.
    split_and!; auto.
    + by apply Forall_app.
    + cbn [app bytes_read bytes_written]. by rewrite Hw, H3, <- app_assoc.
    + by rewrite H4, R2, R1.
    + tauto.
    + tauto.
  - destruct Hout as (H1 & H2 & H3). split_and!.
    + by apply Forall_app.
    + cbn [app bytes_read bytes_written]. by rewrite Hw, H2.
    + by rewrite H3, R2, R1.
Qed.

End Loop_log.

(** What the loop does to two different files. *)
Section Loop_data.
Variables src dst : string.
Variables sfd dfd : Z.
Variable content : bytes.

Lemma copy_loop_data :
  forall fuel buf w pos r w',
    copying src dst sfd dfd content pos w ->
    copy_loop fuel sfd dfd buf w = (r, w') ->
    data_outcome dst sfd dfd content fuel pos w w' r.
Proof.
  induction fuel as [|fuel IH]; intros buf w pos r w' Inv E;
    destruct Inv as (Hne & Hfd & (fl & Hs & Hr) & (fl' & Hd & Hw) & Hsrc & Hdst & Hpos).
  { injection E as <- <-.
    exists [], pos. cbn [bytes_read bytes_written]. rewrite !app_nil_r.
    split_and!; auto; try lia; try done.
    - by rewrite insert_id.
    - intros Hq. split_and!; auto; congruence. }
  rewrite copy_loop_S in E.
  destruct (sys_read_file sfd _ buf BUFFER_SIZE w Hs Hr) as
    (n & data & w1 & E1 & F1 & I1 & O1 & R1 & Q1 & T1 & Hn); [unfold BUFFER_SIZE; lia|].
  rewrite E1 in E. cbn [ofd_path ofd_pos ofd_flags] in Hn. rewrite Hsrc in Hn. cbn [from_option id] in Hn.
  destruct Hn as [(-> & -> & D1 & Hf)|(-> & Hf & (l & Hl & Hfull & Hdata) & L1)].
  { (* the read fails *)
    cbn in E. injection E as <- <-. exists [EvRead sfd BUFFER_SIZE (-1) []], pos.
    cbn [bytes_read bytes_written]. rewrite !app_nil_r. split_and!; auto; try lia; try done.
    - by rewrite F1, insert_id.
    - intros Hq. apply no_fault_scheduled in Hq. congruence. }
  assert (Hseg : take pos content ++ data = take (pos + length data) content).
  { rewrite Hdata. apply take_chunk. }
  assert (Hbound : (pos + length data <= length content)%nat).
  { rewrite Hdata, length_take, length_drop. lia. }
  destruct (Z.gtb_spec (Z.of_nat (length data)) 0) as [Hpos'|Hzero].
  2: { (* end of file *)
    assert (data = []) as Hd0 by (destruct data; [done|simpl in Hzero; lia]).
    injection E as <- <-. exists [EvRead sfd BUFFER_SIZE (Z.of_nat (length data)) data], pos.
    cbn [bytes_read bytes_written]. rewrite !app_nil_r. split_and!.
    - done.
    - by rewrite F1, insert_id.
    - lia.
    - lia.
    - by rewrite Hd0, app_nil_r.
    - intros _. rewrite Hd0 in Hdata. symmetry in Hdata. apply take_nil_inv in Hdata; [|done].
      apply (f_equal length) in Hdata. rewrite length_drop in Hdata. simpl in Hdata. lia.
    - done.
    - intros Hq. rewrite Q1, Hq. split_and!.
      + done.
      + right. by rewrite Hd0.
      + rewrite L1, decide_True by done. done.
      + rewrite L1, decide_False by done. congruence. }
  rewrite Nat2Z.id in E.
  assert (Hd1 : fd_lookup dfd w1 = Some (Ofd dst pos fl')).
  { rewrite L1, decide_False by done. done. }
  destruct (sys_write_file dfd _ (fill buf data) (length data) w1 Hd1 Hw) as
    (k & w2 & E2 & I2 & O2 & R2 & Q2 & T2 & Hk).
  rewrite take_fill in *. cbn [ofd_path ofd_pos ofd_flags] in Hk.
  rewrite F1, Hdst in Hk. cbn [from_option id] in Hk.
  replace (write_at pos) with (write_at (length (take pos content))) in Hk
    by (by rewrite length_take, Nat.min_l).
  rewrite E2 in E.
  assert (Hbail : forall msg acc, acc `prefix_of` data -> take (Z.to_nat k) data = acc ->
     w_fs w2 = <[dst := take pos content ++ acc]> (w_fs w) ->
     (w_faults w = [] -> False) ->
     bail_out sfd dfd msg w2 = (r, w') ->
     data_outcome dst sfd dfd content (S fuel) pos w w' r).
  { intros msg acc Hacc Hkacc Hfs Hwhy Eb.
    destruct (bail_out_spec sfd dfd msg w2) as (c1 & c2 & w4 & E4 & F4 & I4 & O4 & R4 & T4 & _).
    rewrite E4 in Eb. injection Eb as <- <-.
    exists [EvRead sfd BUFFER_SIZE (Z.of_nat (length data)) data; EvWrite dfd data k; EvClose sfd c1; EvClose dfd c2],
      (pos + length data)%nat.
    cbn [bytes_read bytes_written]. rewrite !app_nil_r, Hkacc.
    split_and!; auto; try lia; try done.
    - by rewrite T4, T2, T1, <- !app_assoc.
    - by rewrite F4. }
  destruct Hk as [(-> & F2 & D2 & Hf2)|(acc & Hacc & -> & Hf2 & Hfull2 & F2 & L2)].
  { (* the write fails *)
    cbn in E. apply (Hbail _ []) in E; auto.
    - by apply prefix_nil.
    - by rewrite F2, app_nil_r, insert_id.
    - intros Hq. assert (w_faults w1 = []) as Hq1 by (by rewrite Q1, Hq).
      apply no_fault_scheduled in Hq1. congruence. }
  rewrite write_at_end in F2.
  assert (Htk : take (Z.to_nat (Z.of_nat (length acc))) data = acc).
  { rewrite Nat2Z.id. destruct Hacc as [rest ->]. apply take_app_length. }
  destruct (Z.eqb_spec (Z.of_nat (length acc)) (-1)) as [?|_]; [lia|].
  destruct (Z.eqb_spec (Z.of_nat (length acc)) (Z.of_nat (length data))) as [Hkn|Hkn]; cbn [negb] in E.
  2: { (* a short write *)
    apply (Hbail _ acc) in E; auto.
    intros Hq. assert (w_faults w1 = []) as Hq1 by (by rewrite Q1, Hq).
    apply no_fault_scheduled in Hq1. apply Hfull2 in Hq1. subst acc. done. }
  assert (acc = data) as -> by (apply prefix_length_eq; [done|lia]).
  assert (Inv2 : copying src dst sfd dfd content (pos + length data) w2).
  { split_and!; auto.
    - exists fl. split; [|done]. rewrite L2, decide_False by done.
      rewrite L1, decide_True by done. done.
    - exists fl'. split; [|done]. rewrite L2, decide_True by done. done.
    - by rewrite F2, lookup_insert_ne.
    - rewrite F2, lookup_insert_eq. by rewrite Hseg. }
  destruct (IH _ _ _ _ _ Inv2 E) as (evs & pos' & T & F & Hp & Hrd & Hend & Hfuel & Hnf).
  exists ([EvRead sfd BUFFER_SIZE (Z.of_nat (length data)) data; EvWrite dfd data (Z.of_nat (length data))] ++ evs), pos'.
  cbn [app bytes_read bytes_written]. rewrite Htk.
  split_and!; auto; try lia.
  - by rewrite T, T2, T1, <- !app_assoc.
  - by rewrite F, F2, insert_insert_eq, <- Hseg, <- app_assoc.
  - by rewrite app_assoc, Hseg.
  - intros Hlt. apply Hfuel. lia.
  - intros Hq. apply Hnf. by rewrite Q2, Q1, Hq.
Qed.

End Loop_data.

Lemma copy_loop_aliased path sfd dfd fl :
  forall fuel buf w r w',
    fd_lookup sfd w = Some (Ofd path 0 fl) -> may_read fl = true ->
    fd_lookup dfd w <> None -> sfd <> dfd ->
    w_fs w !! path = Some [] ->
    copy_loop fuel sfd dfd buf w = (r, w') ->
    data_outcome path sfd dfd [] fuel 0 w w' r.
Proof.
  intros fuel buf w r w' Hs Hr Hd Hne Hfs E. destruct fuel as [|fuel].
  { injection E as <- <-. exists [], 0%nat. cbn. rewrite app_nil_r.
    split_and!; auto; try lia; try done.
    - by rewrite insert_id.
    - intros Hq. split_and!; auto; congruence. }
  rewrite copy_loop_S in E.
  destruct (sys_read_file sfd _ buf BUFFER_SIZE w Hs Hr) as
    (n & data & w1 & E1 & F1 & I1 & O1 & R1 & Q1 & T1 & Hn); [unfold BUFFER_SIZE; lia|].
  rewrite E1 in E. cbn [ofd_path ofd_pos ofd_flags] in Hn. rewrite Hfs in Hn. cbn in Hn.
  assert (data = [] /\ (n = 0 \/ n = -1)) as [-> Hn0].
  { destruct Hn as [(-> & -> & _)|(-> & _ & (l & _ & _ & ->) & _)]; [auto|].
    rewrite take_nil. auto. }
  assert ((n >? 0) = false) as Hz by (destruct Hn0; subst; reflexivity).
  rewrite Hz in E. injection E as <- <-.
  exists [EvRead sfd BUFFER_SIZE n []], 0%nat. cbn. split_and!; auto; try lia; try done.
  - by rewrite F1, insert_id.
  - intros Hq. rewrite Q1, Hq. apply no_fault_scheduled in Hq.
    destruct Hn as [(_ & _ & _ & Hf)|(Hn & _ & _ & L1)]; [congruence|].
    split_and!; auto.
    + right. by rewrite Hn.
    + rewrite L1, decide_True by done. done.
    + rewrite L1, decide_False by done. done.
Qed.

(** ** Opening, transferring, closing *)

Lemma transfer_unfold fuel buf src dst w :
  transfer fuel buf src dst w =
  let '(sfd, w1) := sys_open src O_RDONLY 0 w in
  if sfd =? -1 then (Some 1, put_stderr (source_error src) w1)
  else
    let '(dfd, w2) := sys_open dst DEST_FLAGS 420 w1 in
    if dfd =? -1 then
      let '(_, w3) := sys_close sfd (put_stderr (dest_error dst) w2) in (Some 1, w3)
    else
      let '(r, wl) := copy_loop fuel sfd dfd buf w2 in finish sfd dfd src dst r wl.
Proof.
  unfold transfer. unfold bind at 1. destruct (sys_open src O_RDONLY 0 w) as [sfd w1].
  destruct (sfd =? -1).
  { unfold bind, ret. rewrite sys_write_stderr, write_name_stderr, sys_write_stderr.
    by rewrite !put_stderr_app, <- ?app_assoc. }
  unfold bind at 1. fold DEST_FLAGS. destruct (sys_open dst DEST_FLAGS 420 w1) as [dfd w2].
  destruct (dfd =? -1).
  { unfold bind, ret. rewrite sys_write_stderr, write_name_stderr, sys_write_stderr.
    rewrite !put_stderr_app, <- ?app_assoc. by destruct (sys_close sfd _). }
  unfold bind at 1. destruct (copy_loop fuel sfd dfd buf w2) as [[[n|s]|] wl]; try reflexivity.
  unfold finish. destruct (n =? -1).
  { unfold bind, ret. rewrite sys_write_stderr.
    destruct (sys_close sfd _). by destruct (sys_close dfd _). }
  unfold bind at 1. destruct (sys_close sfd wl) as [c w3]. destruct (c =? -1).
  { unfold bind, ret. rewrite sys_write_stderr. by destruct (sys_close dfd _). }
  unfold bind at 1. destruct (sys_close dfd w3) as [c' w4]. destruct (c' =? -1).
  { unfold bind, ret. by rewrite sys_write_stderr. }
  unfold bind, ret.
  rewrite sys_write_stdout, write_name_stdout, sys_write_stdout, write_name_stdout, sys_write_stdout.
  rewrite !put_stdout_app. unfold success_msg. by rewrite <- ?app_assoc.
Qed.

Lemma finish_spec sfd dfd src dst r wl res w' :
  finish sfd dfd src dst r wl = (res, w') ->
  w_fs w' = w_fs wl /\ w_stdin w' = w_stdin wl /\
  match r with
  | None => res = None /\ w' = wl
  | Some (Return s) => res = Some s /\ w' = wl
  | Some (Next n) =>
      exists c1 c2,
        w_trace w' = w_trace wl ++ [EvClose sfd c1; EvClose dfd c2] /\
        fd_lookup sfd w' = None /\ fd_lookup dfd w' = None /\
        ((res = Some 1 /\ w_stdout w' = w_stdout wl /\
          exists msg, w_stderr w' = w_stderr wl ++ msg /\
            (msg = read_error \/ msg = close_source_error \/ msg = close_dest_error)) \/
         (res = Some 0 /\ n <> -1 /\ c1 = 0 /\ c2 = 0 /\
          w_stdout w' = w_stdout wl ++ success_msg src dst /\ w_stderr w' = w_stderr wl)) /\
        (n <> -1 -> w_faults wl = [] -> fd_lookup sfd wl <> None -> fd_lookup dfd wl <> None ->
         sfd <> dfd -> res = Some 0)
  end.
Proof.
  unfold finish. destruct r as [[n|s]|]; [|by intros [= <- <-]..].
  destruct (Z.eqb_spec n (-1)) as [Hn|Hn].
  { destruct (bail_out_spec sfd dfd read_error wl) as (c1 & c2 & w4 & E4 & F4 & I4 & O4 & R4 & T4 & L4 & L4').
    unfold bail_out in E4.
    destruct (sys_close sfd _) as [? w3]. destruct (sys_close dfd _) as [? w5].
    injection E4 as ->. intros [= <- <-]. split_and!; auto.
    exists c1, c2. split_and!; auto; [|done]. left. split_and!; auto. exists read_error. auto. }
  destruct (sys_close_spec sfd wl) as (c1 & w3 & E3 & Hc1 & F3 & I3 & O3 & R3 & T3 & L3 & N3 & Q3 & Z3).
  rewrite E3.
  assert (Hboth : forall w4 c2 w5, sys_close dfd w4 = (c2, w5) ->
     w_fs w4 = w_fs wl -> w_stdin w4 = w_stdin wl -> w_trace w4 = w_trace wl ++ [EvClose sfd c1] ->
     fd_lookup sfd w4 = None ->
     w_fs w5 = w_fs wl /\ w_stdin w5 = w_stdin wl /\
     w_trace w5 = w_trace wl ++ [EvClose sfd c1; EvClose dfd c2] /\
     fd_lookup sfd w5 = None /\ fd_lookup dfd w5 = None /\
     w_stdout w5 = w_stdout w4 /\ w_stderr w5 = w_stderr w4).
  { intros w4 c2 w5 E5 F I T L.
    destruct (sys_close_spec dfd w4) as (c2' & w5' & E5' & _ & F5 & I5 & O5 & R5 & T5 & L5 & N5 & _).
    rewrite E5 in E5'. injection E5' as <- <-.
    rewrite F5, I5, T5, T. split_and!; auto.
    - by rewrite <- app_assoc.
    - destruct (decide (sfd = dfd)) as [->|Hne]; [done|]. by rewrite N5. }
  destruct (Z.eqb_spec c1 (-1)) as [Hc|Hc].
  { destruct (sys_close dfd _) as [c2 w5] eqn:E5. intros [= <- <-].
    apply Hboth in E5 as (F5 & I5 & T5 & L5 & L5' & O5 & R5); auto.
    split_and!; auto. exists c1, c2. split_and!; auto.
    - left. split_and!; auto. { by rewrite O5. } exists close_source_error. rewrite R5. cbn. rewrite R3. auto.
    - intros _ Hq H1 _ _. specialize (Z3 H1 Hq). lia. }
  destruct (sys_close dfd w3) as [c2 w5] eqn:E5.
  destruct (sys_close_spec dfd w3) as (c2' & w5' & E5' & Hc2 & _ & _ & _ & _ & _ & _ & _ & Q5 & Z5).
  rewrite E5 in E5'. injection E5' as <- <-.
  apply Hboth in E5 as (F5 & I5 & T5 & L5 & L5' & O5 & R5); auto.
  destruct (Z.eqb_spec c2 (-1)) as [Hc'|Hc']; intros [= <- <-]; cbn; (split_and!; auto).
  - exists c1, c2. split_and!; auto.
    + left. split_and!; auto. { by rewrite O5. } exists close_dest_error. rewrite R5, R3. auto.
    + intros _ Hq H1 H2 Hne. rewrite <- (N3 dfd) in H2 by done.
      specialize (Z5 H2 (Q3 Hq)). lia.
  - exists c1, c2. split_and!; auto.
    right. split_and!; auto; try lia. { by rewrite O5, O3. } by rewrite R5, R3.
Qed.

Lemma transfer_cases fuel buf src dst w res w' :
  transfer fuel buf src dst w = (res, w') ->
  (res = Some 1 /\
   w' = put_stderr (source_error src) (log (EvOpen src O_RDONLY (-1)) (drop_fault w)) /\
   (next_fault w = Fail \/ w_fs w !! src = None)) \/
  (exists sfd c, 3 <= sfd /\ res = Some 1 /\ w_fs w' = w_fs w /\
     w_stdin w' = w_stdin w /\ w_stdout w' = w_stdout w /\
     w_stderr w' = w_stderr w ++ dest_error dst /\
     w_trace w' = w_trace w ++ [EvOpen src O_RDONLY sfd; EvOpen dst DEST_FLAGS (-1); EvClose sfd c] /\
     fd_lookup sfd w' = None /\ w_faults w <> []) \/
  transfer_started fuel buf src dst w res w'.
Proof.
  rewrite transfer_unfold.
  destruct (sys_open_spec src O_RDONLY 0 w) as (sfd & w1 & E1 & I1 & O1 & R1 & Q1 & T1 & H1).
  rewrite E1. destruct H1 as [(-> & F1 & D1 & Hwhy)|(Hsfd & Hf1 & _ & F1 & L1 & N1)].
  { rewrite Z.eqb_refl. intros [= <- <-]. left. split_and!; auto.
    - f_equal. by apply sys_open_failed in E1.
    - tauto. }
  destruct (Z.eqb_spec sfd (-1)) as [?|_]; [lia|].
  rewrite open_fs_source in F1.
  destruct (w_fs w !! src) as [content|] eqn:Hsrc.
  2: { exfalso. clear - E1 Hsrc Hsfd. unfold sys_open in E1. cbn [w_fs drop_fault] in E1.
       rewrite Hsrc in E1. cbn in E1. destruct (next_fault w); injection E1 as <- _; lia. }
  destruct (sys_open_spec dst DEST_FLAGS 420 w1) as (dfd & w2 & E2 & I2 & O2 & R2 & Q2 & T2 & H2).
  rewrite E2. destruct H2 as [(-> & F2 & D2 & Hwhy)|(Hdfd & Hf2 & _ & F2 & L2 & N2)].
  { rewrite Z.eqb_refl. destruct (sys_close_spec sfd (put_stderr (dest_error dst) w2))
      as (c & w3 & E3 & _ & F3 & I3 & O3 & R3 & T3 & L3 & _).
    rewrite E3. intros [= <- <-]. right. left. exists sfd, c. split_and!; auto.
    - by rewrite F3; cbn; rewrite F2, F1.
    - by rewrite I3; cbn; rewrite I2, I1.
    - by rewrite O3; cbn; rewrite O2, O1.
    - by rewrite R3; cbn; rewrite R2, R1.
    - by rewrite T3; cbn; rewrite T2, T1, <- !app_assoc.
    - intros Hq. destruct Hwhy as [Hwhy|[_ Hwhy]]; [|done].
      unfold next_fault in Hwhy. by rewrite Q1, Hq in Hwhy. }
  destruct (Z.eqb_spec dfd (-1)) as [?|_]; [lia|].
  destruct (copy_loop fuel sfd dfd buf w2) as [r wl] eqn:El. intros Hfin.
  right. right. exists sfd, dfd, content, w2, r, wl.
  assert (Hne : sfd <> dfd).
  { intros <-. rewrite N1, decide_True in L2 by done. done. }
  split_and!; auto.
  - by rewrite T2, T1, <- app_assoc.
  - by rewrite F2, open_fs_dest, F1.
  - by rewrite I2, I1.
  - by rewrite O2, O1.
  - by rewrite R2, R1.
  - by rewrite Q2, Q1.
  - rewrite N2, decide_False by done. by rewrite N1, decide_True.
  - by rewrite N2, decide_True.
Qed.

Lemma transfer_started_data fuel buf src dst w res w' :
  transfer_started fuel buf src dst w res w' ->
  exists sfd dfd w2 r wl,
    3 <= sfd /\ 3 <= dfd /\
    w_trace w2 = w_trace w ++ [EvOpen src O_RDONLY sfd; EvOpen dst DEST_FLAGS dfd] /\
    w_fs w2 = <[dst := []]> (w_fs w) /\
    w_stdin w2 = w_stdin w /\ w_stdout w2 = w_stdout w /\ w_stderr w2 = w_stderr w /\
    w_faults w2 = tail (tail (w_faults w)) /\
    copy_loop fuel sfd dfd buf w2 = (r, wl) /\
    finish sfd dfd src dst r wl = (res, w') /\
    sfd <> dfd /\ w_fs w !! src <> None /\
    data_outcome dst sfd dfd (content_at_start src dst w) fuel 0 w2 wl r.
Proof.
  intros (sfd & dfd & content & w2 & r & wl & Hs & Hd & Hne & Hsrc & T2 & F2 & I2 & O2 & R2 & Q2 & Ls & Ld & El & Hfin).
  exists sfd, dfd, w2, r, wl. split_and!; auto; [congruence|].
  unfold content_at_start. rewrite Hsrc. cbn. case_decide as Hp.
  - subst dst. eapply copy_loop_aliased; eauto.
    + congruence.
    + by rewrite F2, lookup_insert_eq.
  - apply (copy_loop_data src dst sfd dfd content fuel buf w2 0 r wl); [|done].
    unfold copying. split_and!;
      [done|done|by exists O_RDONLY|by exists DEST_FLAGS
      |by rewrite F2, lookup_insert_ne|by rewrite F2, lookup_insert_eq|simpl; lia].
Qed.

Lemma transfer_started_facts fuel buf src dst w res w' :
  transfer_started fuel buf src dst w res w' ->
  exists sfd dfd w2 r wl levs,
    3 <= sfd /\ 3 <= dfd /\ sfd <> dfd /\ w_fs w !! src <> None /\
    w_trace w2 = w_trace w ++ [EvOpen src O_RDONLY sfd; EvOpen dst DEST_FLAGS dfd] /\
    w_stderr w2 = w_stderr w /\ w_stdout w2 = w_stdout w /\
    w_trace wl = w_trace w2 ++ levs /\
    loop_outcome sfd dfd w2 wl r levs /\
    (forall n, r = Some (Next n) -> n = 0 \/ n = -1) /\
    w_stdout wl = w_stdout w2 /\ w_stdin wl = w_stdin w /\
    w_fs wl = <[dst := bytes_written levs]> (w_fs w) /\
    bytes_read levs `prefix_of` content_at_start src dst w /\
    (r = Some (Next 0) -> bytes_read levs = content_at_start src dst w) /\
    ((length (content_at_start src dst w) < fuel)%nat -> r <> None) /\
    (w_faults w = [] ->
       w_faults wl = [] /\ (r = None \/ r = Some (Next 0)) /\
       fd_lookup sfd wl <> None /\ fd_lookup dfd wl <> None) /\
    finish sfd dfd src dst r wl = (res, w').
Proof.
  intros H. apply transfer_started_data in H as
    (sfd & dfd & w2 & r & wl & Hs & Hd & T2 & F2 & I2 & O2 & R2 & Q2 & El & Hfin & Hne & Hsrc & Hdata).
  destruct (copy_loop_trace sfd dfd Hs Hd _ _ _ _ _ El) as (levs & Tl & Il & Ol & Hout & Hnext).
  destruct Hdata as (evs & pos' & Tl' & Fl & Hp & Hrd & Hend & Hfuel & Hnf).
  assert (evs = levs) as -> by (rewrite Tl in Tl'; by apply app_inv_head in Tl').
  rewrite take_0 in Fl, Hrd. cbn [app] in Fl, Hrd.
  exists sfd, dfd, w2, r, wl, levs. split_and!; auto.
  - by rewrite Il, I2.
  - by rewrite Fl, F2, insert_insert_eq.
  - rewrite Hrd. apply prefix_take.
  - intros Hr. rewrite Hrd, (Hend Hr). apply firstn_all.
  - intros Hlt. apply Hfuel. lia.
  - intros Hq. apply Hnf. by rewrite Q2, Hq.
Qed.


Lemma loop_end_bytes sfd dfd src dst w w' res r levs tl :
  loop_end sfd dfd src dst w w' res r levs tl ->
  bytes_read (levs ++ tl) = bytes_read levs /\
  bytes_written (levs ++ tl) = bytes_written levs /\
  bytes_written levs `prefix_of` bytes_read levs /\
  (res = None \/ res = Some 0 -> bytes_written levs = bytes_read levs) /\
  ((forall fd data k, EvWrite fd data k ∈ levs -> k = Z.of_nat (length data)) ->
   bytes_written levs = bytes_read levs).
Proof.
  unfold loop_end. destruct r as [[n|s]|].
  - intros (c1 & c2 & -> & Hc & Hb & _). rewrite bytes_read_app, bytes_written_app. cbn.
    rewrite !app_nil_r, Hb. split_and!; auto.
  - intros (-> & -> & evs0 & data & k & c1 & c2 & -> & Hc & Hk & Hb & _).
    rewrite !app_nil_r, bytes_read_app, bytes_written_app. cbn. rewrite !app_nil_r, Hb.
    split_and!; auto.
    + apply prefix_app, prefix_take.
    + intros [?|?]; done.
    + intros Hall. specialize (Hall dfd data k). rewrite Hall in Hk; [lia|].
      rewrite elem_of_app, elem_of_cons. auto.
  - intros (-> & -> & Hc & Hb). rewrite !app_nil_r, Hb. split_and!; auto.
Qed.

Lemma transfer_run fuel buf src dst w res w' :
  transfer fuel buf src dst w = (res, w') ->
  exists evs, w_trace w' = w_trace w ++ evs /\ transfer_outcome fuel src dst w res w' evs.
Proof.
  intros E. apply transfer_cases in E as [(-> & -> & Hwhy)|[(sfd & c & H)|H]].
  - exists [EvOpen src O_RDONLY (-1)]. split; [done|]. left. fields. split_and!; auto.
    destruct Hwhy as [Hf|?]; [left|by right]. unfold next_fault in Hf. by destruct (w_faults w).
  - destruct H as (Hs & -> & F & I & O & R & T & L & Q).
    eexists. split; [exact T|]. right. left. exists sfd, c. split_and!; auto.
  - apply transfer_started_facts in H as (sfd & dfd & w2 & r & wl & levs & H).
    destruct H as (Hs & Hd & Hne & Hsrc & T2 & R2 & O2 & Tl & Hout & Hnext & Ol & Il & Fl &
                   Hpre & Hend & Hfuel & Hnf & Hfin).
    destruct (finish_spec _ _ _ _ _ _ _ _ Hfin) as (Ff & If & Hf).
    assert (Hshape : exists tl, w_trace w' = w_trace wl ++ tl /\
              loop_end sfd dfd src dst w w' res r levs tl /\
              (w_faults w = [] -> (length (content_at_start src dst w) < fuel)%nat -> res = Some 0)).
    { unfold loop_outcome in Hout. destruct r as [[n|s]|].
      - destruct Hout as (Hc & Hb & Rl). destruct Hf as (c1 & c2 & Tf & L1 & L2 & Hres & Htot).
        exists [EvClose sfd c1; EvClose dfd c2]. split; [done|]. split.
        + exists c1, c2. split_and!; auto.
          destruct Hres as [(-> & _)|(-> & Hn & _ & _ & Of & Rf)]; [by left|right].
          destruct (Hnext n eq_refl) as [->|?]; [|done].
          split_and!; auto; [by rewrite Of, Ol, O2|by rewrite Rf, Rl, R2].
        + intros Hq Hlt. destruct (Hnf Hq) as (Hq' & Hr & L1' & L2').
          destruct Hr as [?|[= ->]]; [done|]. by apply Htot.
      - destruct Hout as (-> & evs0 & data & k & c1 & c2 & -> & Hc & Hk & Hb & Rl & L1 & L2).
        destruct Hf as (-> & ->). exists []. split; [by rewrite app_nil_r|]. split.
        + split_and!; auto. exists evs0, data, k, c1, c2. split_and!; auto. by rewrite Rl, R2.
        + intros Hq Hlt. destruct (Hnf Hq) as (_ & [?|?] & _); done.
      - destruct Hout as (Hc & Hb & Rl). destruct Hf as (-> & ->).
        exists []. split; [by rewrite app_nil_r|]. split; [by split_and!|].
        intros Hq Hlt. by destruct (Hfuel Hlt). }
    destruct Hshape as (tl & Tf & Hle & Htot).
    exists ([EvOpen src O_RDONLY sfd; EvOpen dst DEST_FLAGS dfd] ++ levs ++ tl).
    split; [by rewrite Tf, Tl, T2, <- !app_assoc|]. right. right.
    exists sfd, dfd, levs, tl, r. split_and!; auto.
    + by rewrite Ff.
    + by rewrite If.
Qed.

(** ** Runs of [main] *)

Lemma confirm_overwrite_unfold fuel locals dst w :
  confirm_overwrite fuel locals dst w =
  match w_fs w !! dst with
  | Some _ => confirm_loop fuel (response0 locals) (newline0 locals)
                (put_stdout (prompt dst) (log (EvAccess dst 0) w))
  | None => (Some (Next tt), log (EvAccess dst (-1)) w)
  end.
Proof.
  unfold confirm_overwrite, bind at 1, sys_access.
  destruct (w_fs w !! dst); cbn [Z.eqb F_OK]; [|reflexivity].
  unfold bind. rewrite sys_write_stdout, write_name_stdout, sys_write_stdout.
  by rewrite !put_stdout_app.
Qed.

Lemma confirm_overwrite_spec fuel locals dst w c w1 :
  confirm_overwrite fuel locals dst w = (c, w1) ->
  w_fs w1 = w_fs w /\ w_fds w1 = w_fds w /\ w_faults w1 = w_faults w /\
  (c = Some (Return 1) /\ w_stderr w1 = w_stderr w ++ input_error \/
   (c = None \/ c = Some (Next tt) \/ c = Some (Return 0)) /\ w_stderr w1 = w_stderr w) /\
  ((w_fs w !! dst = None /\ c = Some (Next tt) /\ w1 = log (EvAccess dst (-1)) w) \/
   (w_fs w !! dst <> None /\ w_trace w1 = w_trace w ++ [EvAccess dst 0])).
Proof.
  rewrite confirm_overwrite_unfold. destruct (w_fs w !! dst) as [old|] eqn:Hd.
  - intros E. apply confirm_loop_frame in E as (F & D & Q & T & R). cbn in *.
    split_and!; auto.
  - intros [= <- <-]. cbn. split_and!; auto.
Qed.

Lemma main_unfold fuel locals argv w :
  main fuel locals argv w =
  if decide (length argv = 3%nat) then
    let '(c, w1) := confirm_overwrite fuel locals (dest_of argv) w in
    match c with
    | None => (None, w1)
    | Some (Return status) => (Some status, w1)
    | Some (Next _) => transfer fuel (buffer0 locals) (source_of argv) (dest_of argv) w1
    end
  else (Some 1, put_stderr usage w).
Proof.
  unfold main. case_decide as Hlen.
  - rewrite Hlen. change (Z.of_nat 3 =? 3) with true. cbn [negb].
    unfold bind at 1. fold (dest_of argv) (source_of argv).
    destruct (confirm_overwrite _ _ _ _) as [[[[]|s]|] w1]; reflexivity.
  - destruct (Z.eqb_spec (Z.of_nat (length argv)) 3) as [?|_]; [lia|].
    cbn [negb]. unfold bind, ret. by rewrite sys_write_stderr.
Qed.

Lemma main_prompt fuel locals argv w :
  length argv = 3%nat -> w_fs w !! dest_of argv <> None ->
  main fuel locals argv w =
  let '(c, w1) := confirm_loop fuel (response0 locals) (newline0 locals) (prompted (dest_of argv) w) in
  match c with
  | None => (None, w1)
  | Some (Return status) => (Some status, w1)
  | Some (Next _) => transfer fuel (buffer0 locals) (source_of argv) (dest_of argv) w1
  end.
Proof.
  intros Hlen Hd. rewrite main_unfold, decide_True by done.
  rewrite confirm_overwrite_unfold. by destruct (w_fs w !! dest_of argv).
Qed.

Lemma main_run fuel locals argv w res w' :
  main fuel locals argv w = (res, w') ->
  (new_events w w' = [] /\ res = Some 1) \/
  (exists a, new_events w w' = [EvAccess (dest_of argv) a] /\ w_fs w' = w_fs w /\
     (res = None \/ res = Some 0 \/ res = Some 1)) \/
  (exists a w1 evs,
     new_events w w' = EvAccess (dest_of argv) a :: evs /\
     w_fs w1 = w_fs w /\ w_fds w1 = w_fds w /\ w_faults w1 = w_faults w /\
     w_stderr w1 = w_stderr w /\
     (w_fs w !! dest_of argv = None -> w_stdout w1 = w_stdout w /\ w_stdin w1 = w_stdin w) /\
     transfer_outcome fuel (source_of argv) (dest_of argv) w1 res w' evs).
Proof.
  rewrite main_unfold. case_decide as Hlen.
  2: { intros [= <- <-]. left. split; [|done]. apply new_events_app. cbn. by rewrite app_nil_r. }
  destruct (confirm_overwrite _ _ _ _) as [c w1] eqn:Ec.
  apply confirm_overwrite_spec in Ec as (F & D & Q & R & Hacc).
  assert (Ht : exists a, w_trace w1 = w_trace w ++ [EvAccess (dest_of argv) a]).
  { destruct Hacc as [(_ & _ & ->)|(_ & T)]; eauto. }
  destruct Ht as (a & T).
  destruct R as [(-> & R)|([->|[->| ->]] & R)].
  - intros [= <- <-]. right. left. exists a. split_and!; auto. by apply new_events_app.
  - intros [= <- <-]. right. left. exists a. split_and!; auto. by apply new_events_app.
  - intros E. right. right. apply transfer_run in E as (evs & Te & Hout).
    exists a, w1, evs. split_and!; auto.
    + apply new_events_app. by rewrite Te, T, <- app_assoc.
    + intros Hnone. destruct Hacc as [(_ & _ & ->)|(? & _)]; done.
  - intros [= <- <-]. right. left. exists a. split_and!; auto. by apply new_events_app.
Qed.

Lemma opened_for_writing_copy_run fuel argv a w1 res w' evs :
  opened_for_writing (dest_of argv) (EvAccess (dest_of argv) a :: evs) ->
  transfer_outcome fuel (source_of argv) (dest_of argv) w1 res w' evs ->
  copy_run fuel (source_of argv) (dest_of argv) w1 res w' evs.
Proof.
  intros (fd & Hfd & Hin) [(_ & -> & _)|[(sfd & c & _ & _ & -> & _)|H]]; [exfalso..|done].
  - rewrite !elem_of_cons in Hin. destruct Hin as [?|[[= _ ? _]|Hin]]; try done.
    by apply elem_of_nil in Hin.
  - rewrite !elem_of_cons in Hin. destruct Hin as [?|[[= _ ? _]|[[= ?]|[?|Hin]]]]; try done.
    by apply elem_of_nil in Hin.
Qed.

Lemma content_at_start_lookup src dst w content :
  w_fs w !! src = Some content ->
  <[dst := content_at_start src dst w]> (w_fs w) !! src = Some (content_at_start src dst w) /\
  (src <> dst -> content_at_start src dst w = content).
Proof.
  intros Hsrc. unfold content_at_start. rewrite Hsrc. case_decide as Hp.
  - subst. by rewrite lookup_insert_eq.
  - by rewrite lookup_insert_ne.
Qed.

(** ** Paths as C strings *)

Lemma string_length_nul_free s : nul_free s = true -> string_length s = String.length s.
Proof.
  induction s as [|c s IH]; [done|]. cbn. intros [Hc Hs]%andb_true_iff.
  apply negb_true_iff in Hc. rewrite Hc. f_equal. auto.
Qed.

Lemma length_char_array s : length (char_array s) = String.length s.
Proof.
  unfold char_array, list_byte_of_string. rewrite length_map.
  induction s as [|c s IH]; cbn; [done|]. by rewrite IH.
Qed.

Lemma name_bytes_nul_free s : nul_free s = true -> name_bytes s = char_array s.
Proof.
  intros H. unfold name_bytes. rewrite string_length_nul_free by done.
  rewrite <- length_char_array. apply firstn_all.
Qed.

Lemma string_length_int_spec s tl len :
  nul_free s = true ->
  tl = EmptyString \/ (exists t, tl = String Ascii.zero t) ->
  0 <= len <= INT_MAX ->
  string_length_int len (s +:+ tl) =
    if len + Z.of_nat (String.length s) <=? INT_MAX
    then Some (len + Z.of_nat (String.length s)) else None.
Proof.
  revert len. induction s as [|c s IH]; intros len Hs Htl Hlen.
  - change (EmptyString +:+ tl) with tl. cbn [String.length Z.of_nat]. rewrite Z.add_0_r.
    destruct (Z.leb_spec len INT_MAX); [|lia].
    by destruct Htl as [->|(t & ->)].
  - change (String c s +:+ tl) with (String c (s +:+ tl)).
    cbn [nul_free] in Hs. apply andb_true_iff in Hs as [Hc Hs].
    apply negb_true_iff in Hc. cbn [string_length_int String.length]. rewrite Hc.
    rewrite Nat2Z.inj_succ. destruct (Z.ltb_spec len INT_MAX) as [Hlt|Hge].
    + rewrite IH by (done || lia).
      replace (len + 1 + Z.of_nat (String.length s))
        with (len + Z.succ (Z.of_nat (String.length s))) by lia.
      done.
    + destruct (Z.leb_spec (len + Z.succ (Z.of_nat (String.length s))) INT_MAX); [lia|done].
Qed.

Lemma source_error_nul_free name :
  nul_free name = true -> source_error name = source_error1 ++ char_array name ++ error2.
Proof. intros H. unfold source_error. by rewrite name_bytes_nul_free. Qed.

Lemma dest_error_nul_free name :
  nul_free name = true -> dest_error name = dest_error1 ++ char_array name ++ error2.
Proof. intros H. unfold dest_error. by rewrite name_bytes_nul_free. Qed.

(** * The contract *)

(** C1.  A run that ends with exit status 0 after opening the destination
    leaves in the destination exactly the bytes it read from the source, in
    order; the source file holds the same bytes at that moment, and when the
    two paths differ the source is the file it was before the run.  What the
    destination held before is gone.  (When both paths name one file, the
    bytes read are the empty content left by the truncation.) *)
Theorem successful_copy_reproduces_source fuel locals argv w w' :
  main fuel locals argv w = (Some 0, w') ->
  opened_for_writing (dest_of argv) (new_events w w') ->
  w_fs w' !! dest_of argv = Some (bytes_read (new_events w w')) /\
  w_fs w' !! source_of argv = Some (bytes_read (new_events w w')) /\
  (source_of argv <> dest_of argv -> w_fs w' !! source_of argv = w_fs w !! source_of argv).
Proof.
  intros E Hop.
  apply main_run in E as [(Hev & ?)|[(a & Hev & _)|(a & w1 & evs & Hev & F1 & D1 & Q1 & R1 & _ & H)]];
    [done| |]; rewrite Hev in Hop |- *.
  { exfalso. destruct Hop as (fd & _ & Hin). by apply list_elem_of_singleton in Hin. }
  pose proof (opened_for_writing_copy_run _ _ _ _ _ _ _ Hop H) as Hrun.
  destruct Hrun as (sfd & dfd & levs & tl & r & _ & _ & _ & -> & Hsrc & F & _ & _ & Hle & _).
  destruct (loop_end_bytes _ _ _ _ _ _ _ _ _ _ Hle) as (Hbr & _ & _ & Hbw & _).
  cbn [app bytes_read]. rewrite Hbr, F, Hbw by auto.
  assert (Hall : bytes_read levs = content_at_start (source_of argv) (dest_of argv) w1).
  { unfold loop_end in Hle. destruct r as [[n|s]|].
    - by destruct Hle as (_ & _ & _ & _ & _ & _ & _ & [?|(_ & ? & _)]).
    - by destruct Hle as (? & _).
    - by destruct Hle as (? & _). }
  rewrite Hall. destruct (w_fs w1 !! source_of argv) as [content|] eqn:Hc; [|done].
  destruct (content_at_start_lookup _ (dest_of argv) _ _ Hc) as (H1 & H2).
  split_and!.
  - by rewrite lookup_insert_eq.
  - done.
  - intros Hne. by rewrite lookup_insert_ne, <- F1.
Qed.

Lemma hello_world_is_copied :
  hello_run.1 = Some 0 /\ w_fs hello_run.2 !! "b.txt"%string = Some hello.
Proof.
  destruct (successful_copy_reproduces_source 3 some_stack my_copy_argv
              (fresh only_source [] []) hello_run.2) as (H & _ & _).
  - vm_compute. reflexivity.
  - exists 4. split; [done|]. vm_compute. repeat constructor.
  - split; [vm_compute; reflexivity|]. etransitivity; [exact H|]. vm_compute. reflexivity.
Defined.

(** Such runs exist, whatever the size of the source: with an absent
    destination, an existing source and no fault, enough fuel for the
    transfer loop gives exit status 0, the destination holding the content
    of the source and the success message on the output stream. *)
Theorem copy_to_fresh_destination_succeeds fuel locals argv w content :
  length argv = 3%nat ->
  w_fs w !! source_of argv = Some content ->
  w_fs w !! dest_of argv = None ->
  w_faults w = [] ->
  (length content < fuel)%nat ->
  exists w',
    main fuel locals argv w = (Some 0, w') /\
    w_fs w' = <[dest_of argv := content]> (w_fs w) /\
    w_stdout w' = w_stdout w ++ success_msg (source_of argv) (dest_of argv) /\
    w_stderr w' = w_stderr w /\ w_stdin w' = w_stdin w.
Proof.
  intros Hlen Hsrc Hdst Hq Hfuel.
  assert (Hne : source_of argv <> dest_of argv) by congruence.
  rewrite main_unfold, decide_True, confirm_overwrite_unfold, Hdst by done.
  set (w1 := log (EvAccess (dest_of argv) (-1)) w).
  destruct (transfer fuel (buffer0 locals) (source_of argv) (dest_of argv) w1) as [res w'] eqn:E.
  exists w'. apply transfer_run in E as (evs & _ & [H|[H|H]]).
  - exfalso. destruct H as (_ & _ & _ & _ & _ & _ & [?|?]); [done|]. subst w1. cbn in *. congruence.
  - exfalso. by destruct H as (sfd & c & _ & _ & _ & _ & _ & ?).
  - destruct H as (sfd & dfd & levs & tl & r & _ & _ & _ & _ & _ & F & I & _ & Hle & Htot).
    assert (Hc : content_at_start (source_of argv) (dest_of argv) w1 = content).
    { unfold content_at_start. rewrite decide_False by done. subst w1. fields. by rewrite Hsrc. }
    rewrite Hc in Htot. rewrite (Htot Hq Hfuel) in *.
    unfold loop_end in Hle. destruct r as [[n|s]|].
    + destruct Hle as (c1 & c2 & _ & _ & Hb & _ & _ & [?|(_ & Hall & O & R)]); [done|].
      rewrite F, Hb, Hall, O, R, I. subst w1. fields. rewrite Hc. by split_and!.
    + by destruct Hle as (? & _).
    + by destruct Hle as (? & _).
Qed.

Lemma fresh_copy_witness :
  exists w', main 3 some_stack my_copy_argv (fresh only_source [] []) = (Some 0, w') /\
    w_fs w' = <["b.txt"%string := hello]> only_source.
Proof.
  destruct (copy_to_fresh_destination_succeeds 12 some_stack my_copy_argv (fresh only_source [] []) hello)
    as (w' & E & F & _); try reflexivity.
  - simpl. lia.
  - exists w'. split; [|exact F]. rewrite <- E. vm_compute. reflexivity.
Defined.

(** C2.  With an argument count other than 3 the program writes the usage
    message to the error stream and returns 1; the file system and the
    descriptor table are as before and no file system call was issued. *)
Theorem wrong_argument_count_is_usage_error fuel locals argv w :
  length argv <> 3%nat ->
  main fuel locals argv w = (Some 1, put_stderr usage w) /\
  w_stderr (put_stderr usage w) = w_stderr w ++ usage /\
  w_fs (put_stderr usage w) = w_fs w /\
  w_fds (put_stderr usage w) = w_fds w /\
  new_events w (put_stderr usage w) = [].
Proof.
  intros Hlen. rewrite main_unfold, decide_False by done. split_and!; auto.
  apply new_events_app. cbn. by rewrite app_nil_r.
Qed.

Lemma usage_error_witness :
  main 0 some_stack one_argument (fresh only_source [] []) =
    (Some 1, put_stderr usage (fresh only_source [] [])).
Proof.
  apply (wrong_argument_count_is_usage_error 0 some_stack one_argument (fresh only_source [] [])).
  vm_compute. lia.
Defined.

(** C3.  The destination exists and, after any number of invalid answers,
    the answer is n or N: the program prints the cancellation message after
    the prompts and returns 0.  The file system and the descriptor table are
    untouched and the only file system call is the existence check: neither
    file was opened. *)
Theorem declined_overwrite_changes_nothing fuel locals argv w (cs : list cycle) c rest :
  length argv = 3%nat ->
  w_fs w !! dest_of argv <> None ->
  Forall (fun c => invalid_answer c.1) cs ->
  c = "n"%byte \/ c = "N"%byte ->
  w_stdin w = cycles_input cs ++ In_byte c :: rest ->
  (length cs < fuel)%nat ->
  exists w',
    main fuel locals argv w = (Some 0, w') /\
    w_stdout w' = w_stdout w ++ prompt (dest_of argv) ++ reprompts (length cs) ++ cancel_msg /\
    w_stderr w' = w_stderr w /\
    w_fs w' = w_fs w /\ w_fds w' = w_fds w /\
    new_events w w' = [EvAccess (dest_of argv) 0].
Proof.
  intros Hlen Hd Hcs Hc Hin Hfuel. apply invalid_cycles_spec in Hcs. apply is_no_spec in Hc.
  replace fuel with (length cs + S (fuel - S (length cs)))%nat by lia.
  rewrite main_prompt by done.
  rewrite (confirm_loop_invalid_cycles cs Hcs _ _ _ (prompted (dest_of argv) w) (In_byte c :: rest))
    by exact Hin.
  erewrite confirm_loop_no by (reflexivity || done).
  eexists. split; [reflexivity|]. unfold prompted. fields. rewrite <- !app_assoc.
  split_and!; auto. apply new_events_app. reflexivity.
Qed.

Lemma declined_overwrite_witness :
  exists w', main 2 some_stack my_copy_argv declining = (Some 0, w') /\ w_fs w' = both_files.
Proof.
  destruct (declined_overwrite_changes_nothing 2 some_stack my_copy_argv declining
              [("x"%byte, In_byte LF)] "N" [In_byte LF]) as (w' & E & _ & _ & F & _).
  - reflexivity.
  - vm_compute. discriminate.
  - repeat constructor; discriminate.
  - right. reflexivity.
  - reflexivity.
  - simpl. lia.
  - exists w'. split; [exact E | exact F].
Defined.




(** C5 as stated fails: the answer is y and the read of the line terminator
    fails; the copy is made and the exit status is 0. *)
Lemma stdin_failure_not_always_fatal : ~ stdin_failure_always_fatal.
Proof.
  intros H.
  destruct (H 3%nat some_stack my_copy_argv yes_then_error 0
              (main 3 some_stack my_copy_argv yes_then_error).2) as [Hres _].
  - vm_compute. reflexivity.
  - vm_compute. repeat constructor.
  - apply Hres. reflexivity.
Qed.

(** C5, amended.  When the read of the answer character fails (after any
    number of invalid answers), the program writes the input error message
    to the error stream and returns 1, without touching a file. *)
Theorem failed_answer_read_is_fatal fuel locals argv w (cs : list cycle) rest :
  length argv = 3%nat ->
  w_fs w !! dest_of argv <> None ->
  Forall (fun c => invalid_answer c.1) cs ->
  w_stdin w = cycles_input cs ++ In_err :: rest ->
  (length cs < fuel)%nat ->
  exists w',
    main fuel locals argv w = (Some 1, w') /\
    w_stderr w' = w_stderr w ++ input_error /\
    w_stdin w' = rest /\
    w_fs w' = w_fs w /\ w_fds w' = w_fds w /\
    new_events w w' = [EvAccess (dest_of argv) 0].
Proof.
  intros Hlen Hd Hcs Hin Hfuel. apply invalid_cycles_spec in Hcs.
  replace fuel with (length cs + S (fuel - S (length cs)))%nat by lia.
  rewrite main_prompt by done.
  rewrite (confirm_loop_invalid_cycles cs Hcs _ _ _ (prompted (dest_of argv) w) (In_err :: rest))
    by exact Hin.
  erewrite confirm_loop_err by reflexivity.
  eexists. split; [reflexivity|]. unfold prompted. fields.
  split_and!; auto. apply new_events_app. reflexivity.
Qed.

Lemma failed_answer_read_witness :
  exists w', main 1 some_stack my_copy_argv stdin_broken = (Some 1, w') /\
    w_stderr w' = input_error /\ w_fs w' = both_files.
Proof.
  destruct (failed_answer_read_is_fatal 1 some_stack my_copy_argv stdin_broken [] [])
    as (w' & E & R & _ & F & _).
  - reflexivity.
  - vm_compute. discriminate.
  - constructor.
  - reflexivity.
  - simpl. lia.
  - exists w'. split; [exact E|]. split; [exact R | exact F].
Defined.

(** C6.  In a run where [open] of the source for reading returned -1, the
    program returns 1, the error stream gets the message naming the source
    path, the file system (the destination in particular) and the
    descriptor table are as before, and the existence check and that open
    are the only file system calls.  The message is what the program wrote
    with the length its own [string_length] gave; for a path as the program
    receives it, without NUL inside, that is the whole path between the two
    fixed parts of the message. *)
Theorem failed_source_open_is_fatal fuel locals argv w res w' :
  main fuel locals argv w = (res, w') ->
  EvOpen (source_of argv) O_RDONLY (-1) ∈ new_events w w' ->
  res = Some 1 /\
  w_stderr w' = w_stderr w ++ source_error (source_of argv) /\
  (nul_free (source_of argv) = true ->
   w_stderr w' = w_stderr w ++ source_error1 ++ char_array (source_of argv) ++ error2) /\
  w_fs w' = w_fs w /\ w_fds w' = w_fds w /\
  exists a, new_events w w' = [EvAccess (dest_of argv) a; EvOpen (source_of argv) O_RDONLY (-1)].
Proof.
  intros E Hin.
  apply main_run in E as [(Hev & _)|[(a & Hev & _)|(a & w1 & evs & Hev & F1 & D1 & Q1 & R1 & _ & H)]];
    rewrite Hev in Hin.
  { by apply elem_of_nil in Hin. }
  { by apply list_elem_of_singleton in Hin. }
  apply elem_of_cons in Hin as [?|Hin]; [done|].
  destruct H as [(-> & -> & F & D & _ & R & _)|[(sfd & c & Hs & _ & -> & _)|H]].
  - rewrite R, R1, F, F1, D, D1, Hev. split_and!; eauto.
    intros Hnul. by rewrite source_error_nul_free.
  - exfalso. rewrite !elem_of_cons in Hin.
    destruct Hin as [[= ?]|[[= ? ?]|[?|Hin]]]; try done; try lia. by apply elem_of_nil in Hin.
  - exfalso. destruct H as (sfd & dfd & levs & tl & r & Hs & Hd & _ & -> & _ & _ & _ & _ & Hle & _).
    cbn [app] in Hin. rewrite !elem_of_cons, elem_of_app in Hin.
    destruct Hin as [[= ?]|[[= ? ?]|[Hin|Hin]]]; try done; try lia.
    + unfold loop_end in Hle. destruct r as [[n|s]|].
      * destruct Hle as (_ & _ & _ & Hc & _). by apply clean_not_open in Hin.
      * destruct Hle as (_ & _ & evs0 & data & k & c1 & c2 & -> & Hc & _).
        rewrite elem_of_app, !elem_of_cons in Hin.
        destruct Hin as [Hin|[?|[?|[?|Hin]]]]; try done.
        -- by apply clean_not_open in Hin.
        -- by apply elem_of_nil in Hin.
      * destruct Hle as (_ & _ & Hc & _). by apply clean_not_open in Hin.
    + unfold loop_end in Hle. destruct r as [[n|s]|].
      * destruct Hle as (c1 & c2 & -> & _). rewrite !elem_of_cons in Hin.
        destruct Hin as [?|[?|Hin]]; try done. by apply elem_of_nil in Hin.
      * destruct Hle as (_ & -> & _). by apply elem_of_nil in Hin.
      * destruct Hle as (_ & -> & _). by apply elem_of_nil in Hin.
Qed.

Lemma failed_source_open_witness :
  (main 1 some_stack my_copy_argv no_source).1 = Some 1 /\
  w_fs (main 1 some_stack my_copy_argv no_source).2 = only_dest /\
  w_stderr (main 1 some_stack my_copy_argv no_source).2 =
    source_error1 ++ char_array "a.txt" ++ error2.
Proof.
  destruct (failed_source_open_is_fatal 1 some_stack my_copy_argv no_source
              (main 1 some_stack my_copy_argv no_source).1
              (main 1 some_stack my_copy_argv no_source).2) as (H1 & _ & H3 & H2 & _).
  - vm_compute. reflexivity.
  - vm_compute. repeat constructor.
  - split; [exact H1|]. split; [exact H2|]. apply H3. reflexivity.
Defined.

(** C7.  In a run where a [write] on a file did not report the count it
    was given (fewer bytes, or -1), the program returns 1, the error stream
    gets the incomplete-write message (the write-failure message for -1),
    and that write is followed by the close of the source descriptor and
    the close of the destination descriptor and by nothing else: no second
    write.  Both descriptors are closed. *)
Theorem short_write_is_fatal fuel locals argv w res w' fd data k :
  main fuel locals argv w = (res, w') ->
  EvWrite fd data k ∈ new_events w w' ->
  k <> Z.of_nat (length data) ->
  res = Some 1 /\
  w_stderr w' = w_stderr w ++ (if k =? -1 then write_error else incomplete_error) /\
  exists pre sfd c1 c2,
    new_events w w' = pre ++ [EvWrite fd data k; EvClose sfd c1; EvClose fd c2] /\
    EvOpen (source_of argv) O_RDONLY sfd ∈ pre /\
    EvOpen (dest_of argv) DEST_FLAGS fd ∈ pre /\
    fd_lookup sfd w' = None /\ fd_lookup fd w' = None.
Proof.
  intros E Hin Hk.
  apply main_run in E as [(Hev & _)|[(a & Hev & _)|(a & w1 & evs & Hev & F1 & D1 & Q1 & R1 & _ & H)]];
    rewrite Hev in Hin.
  { by apply elem_of_nil in Hin. }
  { by apply list_elem_of_singleton in Hin. }
  apply elem_of_cons in Hin as [?|Hin]; [done|].
  destruct H as [(_ & -> & _)|[(sfd & c & _ & _ & -> & _)|H]].
  - by apply list_elem_of_singleton in Hin.
  - rewrite !elem_of_cons in Hin. destruct Hin as [?|[?|[?|Hin]]]; try done.
    by apply elem_of_nil in Hin.
  - destruct H as (sfd & dfd & levs & tl & r & Hs & Hd & _ & -> & _ & _ & _ & _ & Hle & _).
    cbn [app] in Hin. rewrite !elem_of_cons, elem_of_app in Hin.
    destruct Hin as [?|[?|[Hin|Hin]]]; try done; unfold loop_end in Hle; destruct r as [[n|s]|].
    + destruct Hle as (_ & _ & _ & Hc & _). apply (clean_write_complete _ _ _ _ Hc) in Hin. lia.
    + destruct Hle as (-> & -> & evs0 & data' & k' & c1 & c2 & -> & Hc & Hk' & _ & R & L1 & L2).
      rewrite elem_of_app, !elem_of_cons in Hin.
      destruct Hin as [Hin|[[= <- <- <-]|[?|[?|Hin]]]]; try done.
      * apply (clean_write_complete _ _ _ _ Hc) in Hin. lia.
      * rewrite R, R1. split_and!; auto.
        exists (EvAccess (dest_of argv) a :: [EvOpen (source_of argv) O_RDONLY sfd;
                  EvOpen (dest_of argv) DEST_FLAGS fd] ++ evs0), sfd, c1, c2.
        split_and!; auto.
        -- rewrite Hev, app_nil_r. reflexivity.
        -- cbn [app]. rewrite !elem_of_cons. auto.
        -- cbn [app]. rewrite !elem_of_cons. auto.
      * by apply elem_of_nil in Hin.
    + destruct Hle as (_ & _ & Hc & _). apply (clean_write_complete _ _ _ _ Hc) in Hin. lia.
    + destruct Hle as (c1 & c2 & -> & _). rewrite !elem_of_cons in Hin.
      destruct Hin as [?|[?|Hin]]; try done. by apply elem_of_nil in Hin.
    + destruct Hle as (_ & -> & _). by apply elem_of_nil in Hin.
    + destruct Hle as (_ & -> & _). by apply elem_of_nil in Hin.
Qed.

Lemma short_write_witness :
  (main 3 some_stack my_copy_argv short_write_world).1 = Some 1 /\
  w_stderr (main 3 some_stack my_copy_argv short_write_world).2 = incomplete_error.
Proof.
  destruct (short_write_is_fatal 3 some_stack my_copy_argv short_write_world
              (main 3 some_stack my_copy_argv short_write_world).1
              (main 3 some_stack my_copy_argv short_write_world).2 4 hello 4) as (H1 & H2 & _).
  - vm_compute. reflexivity.
  - vm_compute. repeat constructor.
  - change (4 <> 11). lia.
  - split; [exact H1 | exact H2].
Defined.




(** C9 as stated fails: after the short write of 4 bytes out of 11 read,
    the totals differ. *)
Lemma written_falls_behind_read : ~ written_equals_read_always.
Proof.
  intros H.
  specialize (H 3%nat some_stack my_copy_argv short_write_world
                (main 3 some_stack my_copy_argv short_write_world).1
                (main 3 some_stack my_copy_argv short_write_world).2).
  vm_compute in H. specialize (H eq_refl). discriminate H.
Qed.

(** C9, amended.  In every run, complete or stopped after any number of
    iterations (fuel), the bytes written to files are a prefix of the bytes
    read from files.  The two are equal when every write was complete, in
    particular when the fuel ran out between iterations and at exit status
    0.  Once the destination is open it holds exactly the bytes written,
    and the bytes read are a prefix of the content the source had before
    the run. *)
Theorem written_is_prefix_of_read fuel locals argv w res w' :
  main fuel locals argv w = (res, w') ->
  bytes_written (new_events w w') `prefix_of` bytes_read (new_events w w') /\
  ((forall fd data k, EvWrite fd data k ∈ new_events w w' -> k = Z.of_nat (length data)) ->
   bytes_written (new_events w w') = bytes_read (new_events w w')) /\
  (res = None \/ res = Some 0 -> bytes_written (new_events w w') = bytes_read (new_events w w')) /\
  (opened_for_writing (dest_of argv) (new_events w w') ->
   w_fs w' !! dest_of argv = Some (bytes_written (new_events w w')) /\
   exists content, w_fs w !! source_of argv = Some content /\
     bytes_read (new_events w w') `prefix_of` content).
Proof.
  intros E.
  apply main_run in E as [(Hev & ?)|[(a & Hev & _)|(a & w1 & evs & Hev & F1 & D1 & Q1 & R1 & _ & H)]];
    rewrite Hev.
  { split_and!; auto. intros (fd & _ & Hin). by apply elem_of_nil in Hin. }
  { split_and!; auto. intros (fd & _ & Hin). by apply list_elem_of_singleton in Hin. }
  assert (Hcase : evs = [EvOpen (source_of argv) O_RDONLY (-1)] \/
     (exists sfd c, evs = [EvOpen (source_of argv) O_RDONLY sfd; EvOpen (dest_of argv) DEST_FLAGS (-1); EvClose sfd c]) \/
     copy_run fuel (source_of argv) (dest_of argv) w1 res w' evs).
  { destruct H as [(_ & -> & _)|[(sfd & c & _ & _ & -> & _)|H]]; eauto. }
  destruct Hcase as [->|[(sfd & c & ->)|Hrun]].
  1,2: split_and!; auto; intros Hop;
       pose proof (opened_for_writing_copy_run _ _ _ _ _ _ _ Hop H) as Hrun;
       destruct Hrun as (? & ? & levs & tl & ? & _ & ? & _ & Hevs & _);
       cbn [app] in Hevs; injection Hevs; intros; try done; lia.
  destruct Hrun as (sfd & dfd & levs & tl & r & _ & _ & _ & -> & Hsrc & F & _ & Hpre & Hle & _).
  destruct (loop_end_bytes _ _ _ _ _ _ _ _ _ _ Hle) as (Hbr & Hbw & Hp & Hres & Hall).
  cbn [app bytes_read bytes_written]. rewrite Hbr, Hbw. split_and!; auto.
  - intros Hw. apply Hall. intros fd data k Hin. apply (Hw fd).
    rewrite !elem_of_cons, elem_of_app. auto.
  - intros _. split; [by rewrite F, lookup_insert_eq|].
    destruct (w_fs w1 !! source_of argv) as [content|] eqn:Hc; [|done].
    exists content. split; [by rewrite <- F1|].
    unfold content_at_start in Hpre. rewrite Hc in Hpre. case_decide; [|done].
    apply prefix_nil_inv in Hpre as ->. apply prefix_nil.
Qed.

Lemma prefix_invariant_witness :
  w_fs (main 3 some_stack my_copy_argv short_write_world).2 !! "b.txt"%string =
    Some (bytes_written (new_events short_write_world (main 3 some_stack my_copy_argv short_write_world).2)).
Proof.
  destruct (written_is_prefix_of_read 3 some_stack my_copy_argv short_write_world
              (main 3 some_stack my_copy_argv short_write_world).1
              (main 3 some_stack my_copy_argv short_write_world).2) as (_ & _ & _ & H).
  - vm_compute. reflexivity.
  - apply H. exists 4. split; [discriminate|]. vm_compute. repeat constructor.
Defined.

(** C10.  A read that returns 0 on the input stream, closed or at an end of
    input, stores nothing and raises no error: the loop tests the value
    [response] already had.  On a closed stream, when that value,
    uninitialised on the first turn, is none of y, Y, n, N, the program
    re-prompts for ever: for every fuel the run is still in the loop,
    having taken no input and written one re-prompt per turn. *)
Theorem closed_stdin_retests_stale_response :
  (forall fuel r nl w, w_stdin w = [] ->
     confirm_loop (S fuel) r nl w =
     if is_yes r then (Some (Next tt), put_stdout proceed_msg w)
     else if is_no r then (Some (Return 0), put_stdout cancel_msg w)
     else confirm_loop fuel r nl (put_stdout invalid_msg w)) /\
  (forall fuel r nl w rest, w_stdin w = In_eof :: rest ->
     confirm_loop (S fuel) r nl w =
     if is_yes r then (Some (Next tt), put_stdout proceed_msg (set_stdin (tail rest) w))
     else if is_no r then (Some (Return 0), put_stdout cancel_msg (set_stdin (tail rest) w))
     else confirm_loop fuel r (stored nl (hd In_eof rest))
            (put_stdout invalid_msg (set_stdin (tail rest) w))) /\
  (forall fuel locals argv w,
     length argv = 3%nat -> w_fs w !! dest_of argv <> None ->
     w_stdin w = [] -> invalid_answer (response0 locals) ->
     main fuel locals argv w =
       (None, put_stdout (reprompts fuel) (prompted (dest_of argv) w))).
Proof.
  split; [apply confirm_loop_closed|]. split; [apply confirm_loop_eof|].
  intros fuel locals argv w Hlen Hd Hin Hr. apply invalid_answer_spec in Hr.
  rewrite main_prompt by done. by rewrite confirm_loop_closed_forever.
Qed.

Lemma closed_stdin_witness :
  main 5 some_stack my_copy_argv stdin_closed =
    (None, put_stdout (reprompts 5) (prompted (dest_of my_copy_argv) stdin_closed)).
Proof.
  destruct closed_stdin_retests_stale_response as (_ & _ & H).
  apply (H 5%nat some_stack my_copy_argv stdin_closed).
  - reflexivity.
  - vm_compute. discriminate.
  - reflexivity.
  - repeat split; discriminate.
Defined.

(** * Beyond the contract *)

(** ** System calls and the other descriptors *)

Lemma sys_read_bounded fd buf count w :
  3 <= fd ->
  exists n data w1,
    sys_read fd buf count w = ((n, fill buf data), w1) /\
    w_trace w1 = w_trace w ++ [EvRead fd count n data] /\
    ((n = -1 /\ data = []) \/ n = Z.of_nat (length data)) /\
    (length data <= count)%nat /\
    forall fd', fd' <> fd -> fd_lookup fd' w1 = fd_lookup fd' w.
Proof.
  intros Hfd. unfold sys_read.
  replace (fd =? STDIN_FILENO) with false by (unfold STDIN_FILENO; lia).
  destruct (fd_lookup fd w) as [o|] eqn:Ho.
  2: { exists (-1), [], (log (EvRead fd count (-1) []) w). split_and!; auto. simpl. lia. }
  destruct (negb (may_read (ofd_flags o))).
  { exists (-1), [], (log (EvRead fd count (-1) []) (drop_fault w)). split_and!; auto. simpl. lia. }
  destruct (next_fault w).
  3: { exists (-1), [], (log (EvRead fd count (-1) []) (drop_fault w)). split_and!; auto. simpl. lia. }
  all: eexists _, _, _; split; [reflexivity|]; cbn [log w_trace]; frame_set_pos;
       split_and!; auto; try (rewrite length_take; lia);
       intros fd' Hne;
       match goal with |- fd_lookup _ (log _ (set_pos _ _ _ ?W)) = _ =>
         etransitivity; [apply (fd_lookup_set_pos fd o _ W fd'); exact Ho|] end;
       by rewrite decide_False.
Qed.

Lemma sys_write_other fd buf count w fd' :
  fd' <> fd -> fd_lookup fd' (sys_write fd buf count w).2 = fd_lookup fd' w.
Proof.
  intros Hne. unfold sys_write.
  destruct (fd =? STDOUT_FILENO); [done|]. destruct (fd =? STDERR_FILENO); [done|].
  destruct (fd_lookup fd w) as [o|] eqn:Ho; [|done].
  destruct (negb (may_write (ofd_flags o))); [done|].
  destruct (next_fault w); [| |done].
  all: cbn [snd];
       match goal with |- fd_lookup _ (log _ (set_pos _ _ _ ?W)) = _ =>
         etransitivity; [apply (fd_lookup_set_pos fd o _ W fd'); exact Ho|] end;
       by rewrite decide_False.
Qed.

Lemma sys_close_other fd w fd' :
  fd' <> fd -> fd_lookup fd' (sys_close fd w).2 = fd_lookup fd' w.
Proof.
  intros Hne. destruct (sys_close_spec fd w) as (r & w' & E & _ & _ & _ & _ & _ & _ & _ & N & _).
  rewrite E. by apply N.
Qed.

Lemma bail_out_other sfd dfd msg w fd' :
  fd' <> sfd -> fd' <> dfd -> fd_lookup fd' (bail_out sfd dfd msg w).2 = fd_lookup fd' w.
Proof.
  intros H1 H2. unfold bail_out.
  destruct (sys_close sfd (put_stderr msg w)) as [c1 w1] eqn:E1.
  destruct (sys_close dfd w1) as [c2 w2] eqn:E2. cbn [snd].
  change w2 with (c2, w2).2. rewrite <- E2, sys_close_other by done.
  change w1 with (c1, w1).2. rewrite <- E1, sys_close_other by done. done.
Qed.

Lemma fd_lookup_fds fd w w1 : w_fds w1 = w_fds w -> fd_lookup fd w1 = fd_lookup fd w.
Proof. intros H. unfold fd_lookup. by rewrite H. Qed.

(** ** The log of the transfer loop *)

Section Loop_shape.
Variables sfd dfd : Z.
Hypothesis Hs : 3 <= sfd.
Hypothesis Hd : 3 <= dfd.

(** The log of the transfer loop: the completed turns, then the last one.
    No descriptor other than the two of the loop is touched. *)
Lemma copy_loop_shape :
  forall fuel buf w r w',
    copy_loop fuel sfd dfd buf w = (r, w') ->
    exists chunks ending,
      w_trace w' = w_trace w ++ flat_map (iteration sfd dfd) chunks ++ ending /\
      Forall chunk chunks /\ loop_ending sfd dfd r ending /\
      (length chunks <= fuel)%nat /\ (r = None -> length chunks = fuel) /\
      forall fd', fd' <> sfd -> fd' <> dfd -> fd_lookup fd' w' = fd_lookup fd' w.
Proof.
  induction fuel as [|fuel IH]; intros buf w r w' E.
  { injection E as <- <-. exists [], []. cbn. rewrite app_nil_r. split_and!; auto. }
  rewrite copy_loop_S in E.
  destruct (sys_read_bounded sfd buf BUFFER_SIZE w Hs) as (n & data & w1 & E1 & T1 & Hn & Hle & N1).
  rewrite E1 in E.
  destruct (Z.gtb_spec n 0) as [Hpos|Hnpos].
  2: { injection E as <- <-. exists [], [EvRead sfd BUFFER_SIZE n data].
       assert (data = [] /\ (n = 0 \/ n = -1)) as [-> Hn0].
       { destruct Hn as [[-> ->]|Hn]; [auto|]. destruct data; [simpl in Hn; auto|simpl in Hn; lia]. }
       cbn. split_and!; auto; try lia; try done. }
  destruct Hn as [[? _]|Hn]; [lia|].
  assert (Hc : chunk data) by (unfold chunk; lia).
  rewrite Hn, Nat2Z.id in E.
  destruct (sys_write dfd (fill buf data) (length data) w1) as [k w2] eqn:E2.
  destruct (sys_write_any dfd (fill buf data) (length data) w1 Hd) as (k' & w2' & E2' & _ & _ & _ & T2 & Hk).
  rewrite E2 in E2'. injection E2' as <- <-. rewrite take_fill in T2, Hk.
  assert (N2 : forall fd', fd' <> dfd -> fd_lookup fd' w2 = fd_lookup fd' w1).
  { intros fd' Hne. change w2 with (k, w2).2. rewrite <- E2. by apply sys_write_other. }
  assert (Hbail : forall msg, k <> Z.of_nat (length data) ->
     bail_out sfd dfd msg w2 = (r, w') ->
     exists chunks ending,
      w_trace w' = w_trace w ++ flat_map (iteration sfd dfd) chunks ++ ending /\
      Forall chunk chunks /\ loop_ending sfd dfd r ending /\
      (length chunks <= S fuel)%nat /\ (r = None -> length chunks = S fuel) /\
      forall fd', fd' <> sfd -> fd' <> dfd -> fd_lookup fd' w' = fd_lookup fd' w).
  { intros msg Hkn Eb.
    destruct (bail_out_spec sfd dfd msg w2) as (c1 & c2 & w4 & E4 & _ & _ & _ & _ & T4 & _).
    assert (N4 : forall fd', fd' <> sfd -> fd' <> dfd -> fd_lookup fd' w4 = fd_lookup fd' w2).
    { intros fd' H1 H2. change w4 with (Some (Return 1) : option (flow Z), w4).2.
      rewrite <- E4. by apply bail_out_other. }
    rewrite E4 in Eb. injection Eb as <- <-.
    exists [], [EvRead sfd BUFFER_SIZE (Z.of_nat (length data)) data; EvWrite dfd data k;
                EvClose sfd c1; EvClose dfd c2].
    cbn [flat_map app length]. split_and!; auto; try lia; try done.
    - by rewrite T4, T2, T1, <- Hn, <- !app_assoc.
    - split; [done|]. exists data, k, c1, c2. split_and!; auto. lia.
    - intros fd' H1 H2. by rewrite N4, N2, N1. }
  destruct (Z.eqb_spec k (-1)) as [Hk1|Hk1]; [apply (Hbail write_error); [lia|exact E]|].
  destruct (Z.eqb_spec k (Z.of_nat (length data))) as [Hkn|Hkn]; cbn [negb] in E;
    [|apply (Hbail incomplete_error); [lia|exact E]].
  apply IH in E as (chunks & ending & T & Hch & Hend & Hlen & Hnone & N).
  exists (data :: chunks), ending. cbn [flat_map length]. split_and!.
  - rewrite T, T2, T1. unfold iteration. rewrite <- !app_assoc. cbn [app].
    by rewrite Hkn, Hn.
  - by constructor.
  - done.
  - lia.
  - intros Hr. f_equal. by apply Hnone.
  - intros fd' H1 H2. by rewrite N, N2, N1.
Qed.

End Loop_shape.

Lemma bytes_of_iterations sfd dfd chunks :
  bytes_read (flat_map (iteration sfd dfd) chunks) = concat chunks /\
  bytes_written (flat_map (iteration sfd dfd) chunks) = concat chunks.
Proof.
  induction chunks as [|d chunks [IH1 IH2]]; [done|]. cbn. rewrite IH1, IH2, Nat2Z.id.
  by rewrite firstn_all.
Qed.

Lemma elem_of_iterations e sfd dfd chunks :
  e ∈ flat_map (iteration sfd dfd) chunks ->
  exists d, d ∈ chunks /\
    (e = EvRead sfd BUFFER_SIZE (Z.of_nat (length d)) d \/
     e = EvWrite dfd d (Z.of_nat (length d))).
Proof.
  induction chunks as [|d chunks IH]; cbn.
  - intros H. by apply elem_of_nil in H.
  - rewrite !elem_of_cons. intros [->|[->|H]].
    + exists d. split; [left|]; auto.
    + exists d. split; [left|]; auto.
    + destruct (IH H) as (d' & Hd & He). exists d'. split; [by right|done].
Qed.

Lemma chunk_of_iterations e sfd dfd chunks :
  Forall chunk chunks ->
  e ∈ flat_map (iteration sfd dfd) chunks ->
  exists d, chunk d /\
    (e = EvRead sfd BUFFER_SIZE (Z.of_nat (length d)) d \/
     e = EvWrite dfd d (Z.of_nat (length d))).
Proof.
  intros Hall He. apply elem_of_iterations in He as (d & Hd & He).
  exists d. split; [|done]. rewrite Forall_forall in Hall. by apply Hall.
Qed.

Lemma chunks_length chunks : Forall chunk chunks -> (length chunks <= length (concat chunks))%nat.
Proof.
  induction 1 as [|d chunks Hd _ IH]; [done|]. cbn. rewrite length_app.
  unfold chunk in Hd. lia.
Qed.

Lemma bytes_of_copy sfd dfd a src dst chunks :
  bytes_read (EvAccess dst a :: EvOpen src O_RDONLY sfd :: EvOpen dst DEST_FLAGS dfd
                :: flat_map (iteration sfd dfd) chunks) = concat chunks /\
  bytes_written (EvAccess dst a :: EvOpen src O_RDONLY sfd :: EvOpen dst DEST_FLAGS dfd
                :: flat_map (iteration sfd dfd) chunks) = concat chunks.
Proof. cbn [bytes_read bytes_written]. apply bytes_of_iterations. Qed.

Lemma content_at_start_fs src dst w w1 :
  w_fs w1 = w_fs w -> content_at_start src dst w1 = content_at_start src dst w.
Proof. intros H. unfold content_at_start. by rewrite H. Qed.

(** ** Runs, exit by exit *)

(** Lines 219-258 once more, with the message of each exit and the
    descriptors left alone. *)
Lemma finish_detail sfd dfd src dst r wl res w' :
  finish sfd dfd src dst r wl = (res, w') ->
  match r with
  | None => res = None /\ w' = wl
  | Some (Return s) => res = Some s /\ w' = wl
  | Some (Next n) =>
      exists c1 c2,
        w_trace w' = w_trace wl ++ [EvClose sfd c1; EvClose dfd c2] /\
        w_fs w' = w_fs wl /\
        fd_lookup sfd w' = None /\ fd_lookup dfd w' = None /\
        (forall fd, fd <> sfd -> fd <> dfd -> fd_lookup fd w' = fd_lookup fd wl) /\
        ((n = -1 /\ res = Some 1 /\ w_stdout w' = w_stdout wl /\
          w_stderr w' = w_stderr wl ++ read_error) \/
         (n <> -1 /\ c1 = -1 /\ res = Some 1 /\ w_stdout w' = w_stdout wl /\
          w_stderr w' = w_stderr wl ++ close_source_error) \/
         (n <> -1 /\ c1 = 0 /\ c2 = -1 /\ res = Some 1 /\ w_stdout w' = w_stdout wl /\
          w_stderr w' = w_stderr wl ++ close_dest_error) \/
         (n <> -1 /\ c1 = 0 /\ c2 = 0 /\ res = Some 0 /\ w_stderr w' = w_stderr wl /\
          w_stdout w' = w_stdout wl ++ success_msg src dst))
  end.
Proof.
  unfold finish. destruct r as [[n|s]|]; [|by intros [= <- <-]..].
  assert (Htwo : forall w0 c1 w3 w4 c2 w5,
     sys_close sfd w0 = (c1, w3) -> sys_close dfd w4 = (c2, w5) ->
     w_fds w4 = w_fds w3 -> w_trace w4 = w_trace w3 -> w_fs w4 = w_fs w3 ->
     w_trace w0 = w_trace wl -> w_fs w0 = w_fs wl -> w_fds w0 = w_fds wl ->
     (c1 = 0 \/ c1 = -1) /\ (c2 = 0 \/ c2 = -1) /\
     w_trace w5 = w_trace wl ++ [EvClose sfd c1; EvClose dfd c2] /\
     w_fs w5 = w_fs wl /\ fd_lookup sfd w5 = None /\ fd_lookup dfd w5 = None /\
     (forall fd, fd <> sfd -> fd <> dfd -> fd_lookup fd w5 = fd_lookup fd wl) /\
     w_stdout w5 = w_stdout w4 /\ w_stderr w5 = w_stderr w4 /\
     w_stdout w3 = w_stdout w0 /\ w_stderr w3 = w_stderr w0).
  { intros w0 c1 w3 w4 c2 w5 E3 E5 D4 T4 F4 T0 F0 D0.
    destruct (sys_close_spec sfd w0) as (c1' & w3' & E3' & Hc1 & F3 & _ & O3 & R3 & T3 & L3 & N3 & _).
    rewrite E3 in E3'. injection E3' as <- <-.
    destruct (sys_close_spec dfd w4) as (c2' & w5' & E5' & Hc2 & F5 & _ & O5 & R5 & T5 & L5 & N5 & _).
    rewrite E5 in E5'. injection E5' as <- <-.
    assert (L4 : forall fd, fd_lookup fd w4 = fd_lookup fd w3) by (intros; unfold fd_lookup; by rewrite D4).
    assert (L0 : forall fd, fd_lookup fd w0 = fd_lookup fd wl) by (intros; unfold fd_lookup; by rewrite D0).
    split_and!; auto.
    - by rewrite T5, T4, T3, T0, <- app_assoc.
    - by rewrite F5, F4, F3, F0.
    - destruct (decide (sfd = dfd)) as [->|Hne]; [done|]. by rewrite N5, L4.
    - intros fd H1 H2. by rewrite N5, L4, N3, L0. }
  destruct (Z.eqb_spec n (-1)) as [Hn|Hn].
  { destruct (sys_close sfd _) as [c1 w3] eqn:E3. destruct (sys_close dfd w3) as [c2 w5] eqn:E5.
    intros [= <- <-].
    destruct (Htwo _ _ _ _ _ _ E3 E5) as (_ & _ & T & F & L1 & L2 & N & O & R & O' & R'); auto.
    exists c1, c2. split_and!; auto. left. split_and!; auto.
    - by rewrite O, O'.
    - by rewrite R, R'. }
  destruct (sys_close sfd wl) as [c1 w3] eqn:E3.
  destruct (Z.eqb_spec c1 (-1)) as [Hc|Hc].
  { destruct (sys_close dfd _) as [c2 w5] eqn:E5. intros [= <- <-].
    destruct (Htwo _ _ _ _ _ _ E3 E5) as (_ & _ & T & F & L1 & L2 & N & O & R & O' & R'); auto.
    exists c1, c2. split_and!; auto. right. left. split_and!; auto.
    - by rewrite O; cbn; rewrite O'.
    - by rewrite R; cbn; rewrite R'. }
  destruct (sys_close dfd w3) as [c2 w5] eqn:E5.
  destruct (Htwo _ _ _ _ _ _ E3 E5) as (Hc1 & Hc2 & T & F & L1 & L2 & N & O & R & O' & R'); auto.
  destruct (Z.eqb_spec c2 (-1)) as [Hc'|Hc']; intros [= <- <-].
  - exists c1, c2. cbn. split_and!; auto. right. right. left. split_and!; auto; try lia.
    + by rewrite O, O'.
    + by rewrite R, R'.
  - exists c1, c2. cbn. split_and!; auto. right. right. right. split_and!; auto; try lia.
    + by rewrite R, R'.
    + by rewrite O, O'.
Qed.

(** Lines 137-258 as a whole. *)
Lemma transfer_detail fuel buf src dst w res w' :
  transfer fuel buf src dst w = (res, w') ->
  exists evs, w_trace w' = w_trace w ++ evs /\ transfer_report fuel src dst w res w' evs.
Proof.
  rewrite transfer_unfold.
  destruct (sys_open_spec src O_RDONLY 0 w) as (sfd & w1 & E1 & I1 & O1 & R1 & Q1 & T1 & H1).
  rewrite E1. destruct H1 as [(-> & F1 & D1 & Hwhy)|(Hsfd & Hf1 & _ & F1 & L1 & N1)].
  { rewrite Z.eqb_refl. intros [= <- <-]. exists [EvOpen src O_RDONLY (-1)]. fields.
    split; [done|]. left. split_and!; auto; [by cbn; rewrite R1|tauto]. }
  destruct (Z.eqb_spec sfd (-1)) as [?|_]; [lia|].
  rewrite open_fs_source in F1.
  destruct (w_fs w !! src) as [content|] eqn:Hsrc.
  2: { exfalso. clear - E1 Hsrc Hsfd. unfold sys_open in E1. cbn [w_fs drop_fault] in E1.
       rewrite Hsrc in E1. cbn in E1. destruct (next_fault w); injection E1 as <- _; lia. }
  destruct (sys_open_spec dst DEST_FLAGS 420 w1) as (dfd & w2 & E2 & I2 & O2 & R2 & Q2 & T2 & H2).
  rewrite E2. destruct H2 as [(-> & F2 & D2 & Hwhy)|(Hdfd & Hf2 & _ & F2 & L2 & N2)].
  { rewrite Z.eqb_refl. destruct (sys_close_spec sfd (put_stderr (dest_error dst) w2))
      as (c & w3 & E3 & _ & F3 & I3 & O3 & R3 & T3 & L3 & N3 & _).
    rewrite E3. intros [= <- <-].
    exists [EvOpen src O_RDONLY sfd; EvOpen dst DEST_FLAGS (-1); EvClose sfd c].
    split; [by rewrite T3; cbn; rewrite T2, T1, <- !app_assoc|].
    right. left. exists sfd, c. split_and!; auto.
    - by rewrite Hsrc.
    - destruct Hwhy as [Hwhy|[_ Hwhy]]; [|done].
      unfold next_fault in Hwhy. rewrite Q1 in Hwhy.
      destruct (w_faults w) as [|f [|f' q]]; cbn in *; congruence.
    - by rewrite F3; cbn; rewrite F2, F1.
    - by rewrite I3; cbn; rewrite I2, I1.
    - by rewrite O3; cbn; rewrite O2, O1.
    - by rewrite R3; cbn; rewrite R2, R1.
    - intros fd. destruct (decide (fd = sfd)) as [->|Hne]; [by rewrite L3|].
      rewrite N3 by done. unfold fd_lookup. cbn [w_fds put_stderr]. rewrite D2.
      fold (fd_lookup fd w1). by rewrite N1, decide_False. }
  destruct (Z.eqb_spec dfd (-1)) as [?|_]; [lia|].
  destruct (copy_loop fuel sfd dfd buf w2) as [r wl] eqn:El. intros Hfin.
  assert (Hne : sfd <> dfd).
  { intros <-. rewrite N1, decide_True in L2 by done. done. }
  assert (Ls : fd_lookup sfd w2 = Some (Ofd src 0 O_RDONLY)).
  { rewrite N2, decide_False by done. by rewrite N1, decide_True. }
  assert (Ld : fd_lookup dfd w2 = Some (Ofd dst 0 DEST_FLAGS)) by (by rewrite N2, decide_True).
  assert (F2' : w_fs w2 = <[dst := []]> (w_fs w)) by (by rewrite F2, open_fs_dest, F1).
  assert (Hdata : data_outcome dst sfd dfd (content_at_start src dst w) fuel 0 w2 wl r).
  { unfold content_at_start. rewrite Hsrc. cbn [default from_option id]. case_decide as Hp.
    - subst dst. eapply copy_loop_aliased; eauto.
      + congruence.
      + by rewrite F2', lookup_insert_eq.
    - apply (copy_loop_data src dst sfd dfd content fuel buf w2 0 r wl); [|done].
      unfold copying. split_and!;
        [done|done|by exists O_RDONLY|by exists DEST_FLAGS
        |by rewrite F2', lookup_insert_ne|by rewrite F2', lookup_insert_eq|simpl; lia]. }
  destruct (copy_loop_trace sfd dfd Hsfd Hdfd _ _ _ _ _ El) as (levs & Tl & Il & Ol & Hout & Hnext).
  destruct (copy_loop_shape sfd dfd Hsfd Hdfd _ _ _ _ _ El)
    as (chunks & ending & Tl'' & Hch & Hend & Hlen & Hnone & Nl).
  destruct Hdata as (evs & pos' & Tl' & Fl & Hp & Hrd & Hstop & Hfuel & Hnf).
  assert (evs = levs) as -> by (rewrite Tl in Tl'; by apply app_inv_head in Tl').
  assert (levs = flat_map (iteration sfd dfd) chunks ++ ending) as Hlevs
    by (rewrite Tl in Tl''; by apply app_inv_head in Tl'').
  rewrite take_0 in Fl, Hrd. cbn [app] in Fl, Hrd.
  assert (Nw : forall fd, fd <> sfd -> fd <> dfd -> fd_lookup fd w2 = fd_lookup fd w).
  { intros fd H1 H2. rewrite N2, decide_False by done. by rewrite N1, decide_False. }
  assert (Ldw : fd_lookup dfd w = None).
  { rewrite N1, decide_False in L2 by done. done. }
  pose proof (finish_detail _ _ _ _ _ _ _ _ Hfin) as Hf.
  assert (Hshape : exists tl, w_trace w' = w_trace wl ++ tl /\ w_fs w' = w_fs wl /\
            (forall fd, fd <> sfd -> fd <> dfd -> fd_lookup fd w' = fd_lookup fd wl) /\
            (res <> None -> fd_lookup sfd w' = None /\ fd_lookup dfd w' = None) /\
            w_stdin w' = w_stdin wl /\
            ((length (content_at_start src dst w) < fuel)%nat -> res <> None) /\
            (w_faults w = [] -> (length (content_at_start src dst w) < fuel)%nat -> res = Some 0) /\
            copy_ending sfd dfd src dst fuel w w' res chunks ending tl).
  { destruct (finish_spec _ _ _ _ _ _ _ _ Hfin) as (_ & If & Hf').
    unfold loop_outcome in Hout. unfold loop_ending in Hend. destruct r as [[n|s]|].
    - destruct Hout as (Hc & Hb & Rl). destruct Hend as (Hn & ->).
      destruct Hf as (c1 & c2 & Tf & Ff & L1' & L2' & Nf & Hres).
      destruct Hf' as (c1' & c2' & _ & _ & _ & _ & Htot).
      exists [EvClose sfd c1; EvClose dfd c2]. split_and!; auto.
      + intros _ Hr. destruct Hres as [(_ & -> & _)|[(_ & _ & -> & _)|[(_ & _ & _ & -> & _)|(_ & _ & _ & -> & _)]]]; done.
      + intros Hq Hlt. destruct (Hnf ltac:(by rewrite Q2, Q1, Hq)) as (Hq' & Hr & L1'' & L2'').
        destruct Hr as [?|[= ->]]; [done|]. by apply Htot.
      + destruct Hn as [->| ->].
        * right. right. right. exists c1, c2. split_and!; auto.
          { rewrite Hlevs, bytes_read_app in Hrd. cbn in Hrd. rewrite app_nil_r in Hrd.
            rewrite (proj1 (bytes_of_iterations _ _ _)) in Hrd.
            rewrite Hrd, (Hstop eq_refl). apply firstn_all. }
          destruct Hres as [(? & _)|[H|[H|H]]]; [done| | |].
          -- left. destruct H as (_ & -> & -> & Of & Rf). split_and!; auto.
             ++ by rewrite Of, Ol, O2, O1.
             ++ by rewrite Rf, Rl, R2, R1.
          -- right. left. destruct H as (_ & -> & -> & -> & Of & Rf). split_and!; auto.
             ++ by rewrite Of, Ol, O2, O1.
             ++ by rewrite Rf, Rl, R2, R1.
          -- right. right. destruct H as (_ & -> & -> & -> & Rf & Of). split_and!; auto.
             ++ by rewrite Rf, Rl, R2, R1.
             ++ by rewrite Of, Ol, O2, O1.
        * right. right. left.
          destruct Hres as [(_ & -> & Of & Rf)|[(? & _)|[(? & _)|(? & _)]]]; try done.
          split_and!; auto; [by rewrite Of, Ol, O2, O1|].
          exists c1, c2. split_and!; auto. by rewrite Rf, Rl, R2, R1.
    - destruct Hf as (-> & ->).
      destruct Hout as (-> & evs0 & data & k & c1 & c2 & Hev & Hc & Hk & Hb & Rl & L1' & L2').
      destruct Hend as (_ & d & k' & c1' & c2' & Hd & Hk' & ->).
      exists []. rewrite app_nil_r. split_and!; auto; try done.
      + intros Hq Hlt. destruct (Hnf ltac:(by rewrite Q2, Q1, Hq)) as (_ & [?|?] & _); done.
      + right. left. split_and!; auto; [by rewrite Ol, O2, O1|].
        exists d, k', c1', c2'. split_and!; auto.
        rewrite Hev in Hlevs.
        change [EvRead sfd BUFFER_SIZE (Z.of_nat (length d)) d; EvWrite dfd d k';
                EvClose sfd c1'; EvClose dfd c2']
          with ([EvRead sfd BUFFER_SIZE (Z.of_nat (length d)) d] ++
                [EvWrite dfd d k'; EvClose sfd c1'; EvClose dfd c2']) in Hlevs.
        rewrite app_assoc in Hlevs. apply app_inj_2 in Hlevs as [_ [= _ <- _ _]]; [|done].
        by rewrite Rl, R2, R1.
    - destruct Hf as (-> & ->). destruct Hout as (Hc & Hb & Rl). rewrite Hend.
      exists []. rewrite app_nil_r. split_and!; auto; try done.
      + intros Hlt. exfalso. apply Hfuel; [lia|done].
      + intros Hq Hlt. exfalso. apply Hfuel; [lia|done].
      + left. split_and!; auto; [by rewrite Rl, R2, R1|by rewrite Ol, O2, O1]. }
  destruct Hshape as (tl & Tf & Ff & Nf & Lf & If & Hnn & Htot & Hce).
  exists ([EvOpen src O_RDONLY sfd; EvOpen dst DEST_FLAGS dfd]
            ++ (flat_map (iteration sfd dfd) chunks ++ ending) ++ tl).
  split; [by rewrite Tf, Tl, Hlevs, T2, T1, <- !app_assoc|]. right. right.
  exists sfd, dfd, chunks, ending, tl. split_and!; auto.
  - by rewrite Hsrc.
  - by rewrite Ff, Fl, F2', insert_insert_eq, Hlevs.
  - rewrite <- Hlevs, Hrd. apply prefix_take.
  - intros fd H1 H2. by rewrite Nf, Nl, Nw.
  - by rewrite If, Il, I2, I1.
Qed.

Lemma is_yes_spec c : c = "y"%byte \/ c = "Y"%byte -> is_yes c = true.
Proof. by intros [-> | ->]. Qed.

Lemma confirm_loop_yes fuel r nl w c rest :
  w_stdin w = In_byte c :: rest -> is_yes c = true ->
  confirm_loop (S fuel) r nl w =
  (Some (Next tt), put_stdout proceed_msg (set_stdin (tail rest) w)).
Proof.
  intros Hin Hc. rewrite confirm_loop_S, read_char_stdin, Hin. cbn [Z.eqb stored].
  rewrite read_char_stdin. cbn [w_stdin set_stdin].
  rewrite Hc. destruct rest as [|e rest]; reflexivity.
Qed.

(** [main] as a whole. *)
Lemma main_detail fuel locals argv w res w' :
  main fuel locals argv w = (res, w') -> main_report fuel argv w res w'.
Proof.
  rewrite main_unfold. unfold main_report. case_decide as Hlen.
  2: { intros [= <- <-]. left. done. }
  destruct (confirm_overwrite _ _ _ _) as [c w1] eqn:Ec.
  apply confirm_overwrite_spec in Ec as (F & D & Q & R & Hacc).
  assert (Ht : exists a, w_trace w1 = w_trace w ++ [EvAccess (dest_of argv) a]).
  { destruct Hacc as [(_ & _ & ->)|(_ & T)]; eauto. }
  destruct Ht as (a & T).
  assert (Hex : c <> Some (Next tt) -> a = 0 /\ w_fs w !! dest_of argv <> None).
  { intros Hc. destruct Hacc as [(_ & ? & _)|(? & T')]; [done|]. split; [|done].
    rewrite T in T'. by apply app_inv_head in T' as [= ->]. }
  destruct R as [(-> & R)|([->|[->| ->]] & R)].
  - intros [= <- <-]. right. left. split; [done|]. exists a.
    split_and!; auto; try (by apply Hex); by apply new_events_app.
  - intros [= <- <-]. right. left. split; [done|]. exists a.
    split_and!; auto; try (by apply Hex); by apply new_events_app.
  - intros E. right. right. split; [done|]. apply transfer_detail in E as (evs & Te & Hout).
    exists a, w1, evs. split_and!; auto.
    + apply new_events_app. by rewrite Te, T, <- app_assoc.
    + intros Hnone. destruct Hacc as [(_ & _ & ->)|(? & _)]; done.
  - intros [= <- <-]. right. left. split; [done|]. exists a.
    split_and!; auto; try (by apply Hex); by apply new_events_app.
Qed.

(** Case analysis on the membership of an event in a log given by its
    elements. *)
Ltac in_log H :=
  repeat (rewrite ?elem_of_app, ?elem_of_cons, ?elem_of_nil in H);
  repeat match type of H with
         | _ \/ _ => destruct H as [H|H]
         | False => destruct H
         end.

(** An event of a shape that a computed log does not hold. *)
Ltac absent H :=
  vm_compute in H;
  repeat (apply elem_of_cons in H as [H|H]; [discriminate H|]);
  by apply elem_of_nil in H.

(** ** Properties of [string_length] *)

(** X1.  [string_length] returns the number of characters before the
    first NUL.  The source counts them in an [int]: for a string whose
    terminator comes within [INT_MAX] characters the count never overflows
    and is the length of the text before the terminator, whatever follows
    it; the count in [nat] that [main] is embedded with gives the same
    number. *)
Theorem string_length_stops_at_terminator s :
  nul_free s = true ->
  Z.of_nat (String.length s) <= INT_MAX ->
  string_length s = String.length s /\
  string_length_int 0 s = Some (Z.of_nat (string_length s)) /\
  forall t,
    string_length (s +:+ String Ascii.zero t) = String.length s /\
    string_length_int 0 (s +:+ String Ascii.zero t) = Some (Z.of_nat (String.length s)).
Proof.
  intros H Hmax.
  assert (Hint : forall tl, tl = EmptyString \/ (exists t, tl = String Ascii.zero t) ->
            string_length_int 0 (s +:+ tl) = Some (Z.of_nat (String.length s))).
  { intros tl Htl. rewrite string_length_int_spec by (done || (unfold INT_MAX; lia)).
    rewrite Z.add_0_l. by destruct (Z.leb_spec (Z.of_nat (String.length s)) INT_MAX); [|lia]. }
  split; [by apply string_length_nul_free|]. split.
  { rewrite string_length_nul_free by done.
    replace s with (s +:+ EmptyString) at 1; [apply Hint; auto|].
    clear. induction s as [|c s IH]; [done|].
    change (String c s +:+ EmptyString) with (String c (s +:+ EmptyString)). by rewrite IH. }
  intros t. split; [|apply Hint; eauto]. clear Hmax Hint.
  induction s as [|c s IH]; [done|].
  change (String c s +:+ String zero t) with (String c (s +:+ String zero t)).
  cbn [nul_free] in H. apply andb_true_iff in H as [Hc Hs].
  apply negb_true_iff in Hc. cbn [string_length String.length]. rewrite Hc. f_equal. auto.
Qed.

Lemma string_length_witness :
  string_length ("a.txt" +:+ String Ascii.zero "junk") = 5%nat /\
  string_length_int 0 ("a.txt" +:+ String Ascii.zero "junk") = Some 5.
Proof.
  destruct (string_length_stops_at_terminator "a.txt") as (_ & _ & H).
  - reflexivity.
  - vm_compute. discriminate.
  - exact (H "junk"%string).
Defined.

(** X2.  [write(fd, name, string_length(name))]: a path without NUL inside
    is written to the output or error stream in full, and the call reports
    the length of the path. *)
Theorem path_is_written_in_full name w :
  nul_free name = true ->
  (write_name STDOUT_FILENO name w).2 = put_stdout (char_array name) w /\
  (write_name STDERR_FILENO name w).2 = put_stderr (char_array name) w /\
  (write_name STDOUT_FILENO name w).1 = Z.of_nat (String.length name).
Proof.
  intros H. rewrite write_name_stdout, write_name_stderr. cbn [fst snd].
  rewrite name_bytes_nul_free by done. by rewrite length_char_array.
Qed.

Lemma path_written_witness :
  (write_name STDOUT_FILENO "b.txt" (fresh only_source [] [])).2 =
    put_stdout (char_array "b.txt") (fresh only_source [] []).
Proof.
  destruct (path_is_written_in_full "b.txt" (fresh only_source [] [])) as [H _]; [reflexivity|].
  exact H.
Defined.

(** ** Properties of [main] *)

(** X3.  The destination exists and, after any number of invalid answers,
    the answer is y or Y.  With an existing source, no fault and enough
    fuel for both loops the program returns 0; the destination holds the
    content of the source (nothing, when both paths name one file); the
    output stream got the prompt, one re-prompt per invalid answer, the
    "proceeding" message and the success message, in this order; the error
    stream got nothing, the byte after the answer was taken from the input,
    and the descriptor table is as before. *)
Theorem accepted_overwrite_replaces_destination fuel locals argv w (cs : list cycle) c rest :
  length argv = 3%nat ->
  w_fs w !! source_of argv <> None ->
  w_fs w !! dest_of argv <> None ->
  Forall (fun c => invalid_answer c.1) cs ->
  c = "y"%byte \/ c = "Y"%byte ->
  w_stdin w = cycles_input cs ++ In_byte c :: rest ->
  w_faults w = [] ->
  (length cs < fuel)%nat ->
  (length (content_at_start (source_of argv) (dest_of argv) w) < fuel)%nat ->
  exists w',
    main fuel locals argv w = (Some 0, w') /\
    w_fs w' = <[dest_of argv := content_at_start (source_of argv) (dest_of argv) w]> (w_fs w) /\
    w_stdout w' = w_stdout w ++ prompt (dest_of argv) ++ reprompts (length cs) ++ proceed_msg
                    ++ success_msg (source_of argv) (dest_of argv) /\
    w_stderr w' = w_stderr w /\ w_stdin w' = tail rest /\
    forall fd, fd_lookup fd w' = fd_lookup fd w.
Proof.
  intros Hlen Hsrc Hd Hcs Hc Hin Hq Hfuel Hfuel'.
  apply invalid_cycles_spec in Hcs. apply is_yes_spec in Hc.
  rewrite main_prompt by done.
  set (wc := put_stdout proceed_msg (set_stdin (tail rest)
               (set_stdin (In_byte c :: rest)
                  (put_stdout (reprompts (length cs)) (prompted (dest_of argv) w))))).
  assert (Ec : confirm_loop fuel (response0 locals) (newline0 locals) (prompted (dest_of argv) w)
               = (Some (Next tt), wc)).
  { replace fuel with (length cs + S (fuel - S (length cs)))%nat by lia.
    rewrite (confirm_loop_invalid_cycles cs Hcs _ _ _ (prompted (dest_of argv) w) (In_byte c :: rest))
      by exact Hin.
    by erewrite confirm_loop_yes by (reflexivity || done). }
  rewrite Ec.
  destruct (transfer fuel (buffer0 locals) (source_of argv) (dest_of argv) wc) as [res w'] eqn:E.
  exists w'.
  assert (Fc : w_fs wc = w_fs w) by done.
  assert (Qc : w_faults wc = []) by done.
  assert (Dc : w_fds wc = w_fds w) by done.
  apply transfer_detail in E as (evs & _ & [H|[H|H]]).
  - exfalso. destruct H as (_ & _ & _ & _ & _ & _ & _ & [Hf|Hn]).
    + unfold next_fault in Hf. by rewrite Qc in Hf.
    + by rewrite Fc in Hn.
  - exfalso. destruct H as (sfd & c0 & _ & _ & _ & _ & Hf & _). by rewrite Qc in Hf.
  - destruct H as (sfd & dfd & chunks & ending & tl & Hs & Hdf & Hne & Ls & Ld & Hch & Hl & _ & _ &
                   F & _ & N & L & I & _ & Htot & Hce).
    unfold copy_ending in Hce. rewrite (content_at_start_fs _ _ w wc Fc) in Htot, Hce.
    rewrite (Htot Qc Hfuel') in *.
    destruct Hce as [(? & _)|[(? & _)|[(? & _)|(c1 & c2 & -> & -> & Hall & Hres)]]]; try done.
    destruct Hres as [(_ & ? & _)|[(_ & _ & ? & _)|(_ & _ & _ & R & O)]]; try done.
    split_and!; auto.
    + rewrite F, Fc, bytes_written_app, (proj2 (bytes_of_iterations _ _ _)). cbn.
      by rewrite app_nil_r, Hall.
    + rewrite O. subst wc. unfold prompted. fields. by rewrite <- !app_assoc.
    + intros fd. rewrite <- (fd_lookup_fds fd w wc Dc).
      destruct (L ltac:(done)) as [L1 L2].
      destruct (decide (fd = sfd)) as [->|H1]; [by rewrite L1, Ls|].
      destruct (decide (fd = dfd)) as [->|H2]; [by rewrite L2, Ld|].
      by apply N.
Qed.

Lemma accepted_overwrite_witness :
  exists w', main 12 some_stack my_copy_argv overwriting = (Some 0, w') /\
    w_fs w' = <["b.txt"%string := hello]> both_files.
Proof.
  destruct (accepted_overwrite_replaces_destination 12 some_stack my_copy_argv overwriting
              [("x"%byte, In_byte LF)] "y" [In_byte LF]) as (w' & E & F & _).
  - reflexivity.
  - vm_compute. discriminate.
  - vm_compute. discriminate.
  - repeat constructor; discriminate.
  - left. reflexivity.
  - reflexivity.
  - reflexivity.
  - simpl. lia.
  - vm_compute. lia.
  - exists w'. split; [exact E | exact F].
Defined.

(** X4.  In a run where [open] of the destination returned -1, the program
    returns 1 and the error stream gets the message naming the destination
    path: for a path without NUL inside, the whole path between the two
    fixed parts of the message.  The source had been opened before and is
    closed again: these two calls, the existence check and the failed open
    are the whole log, the file system is unchanged and every descriptor is
    as it was. *)
Theorem failed_destination_open_is_fatal fuel locals argv w res w' :
  main fuel locals argv w = (res, w') ->
  EvOpen (dest_of argv) DEST_FLAGS (-1) ∈ new_events w w' ->
  res = Some 1 /\
  w_stderr w' = w_stderr w ++ dest_error (dest_of argv) /\
  (nul_free (dest_of argv) = true ->
   w_stderr w' = w_stderr w ++ dest_error1 ++ char_array (dest_of argv) ++ error2) /\
  w_fs w' = w_fs w /\
  (forall fd, fd_lookup fd w' = fd_lookup fd w) /\
  exists a sfd c,
    3 <= sfd /\ fd_lookup sfd w = None /\
    new_events w w' = [EvAccess (dest_of argv) a; EvOpen (source_of argv) O_RDONLY sfd;
                       EvOpen (dest_of argv) DEST_FLAGS (-1); EvClose sfd c].
Proof.
  intros E Hin.
  apply main_detail in E as [(_ & _ & ->)|[(_ & a & Hev & _)|(_ & a & w1 & evs & Hev & F1 & D1 & Q1 & R1 & _ & H)]].
  { unfold new_events in Hin. cbn in Hin. rewrite drop_all in Hin. by apply elem_of_nil in Hin. }
  { rewrite Hev in Hin. by apply list_elem_of_singleton in Hin. }
  rewrite Hev in Hin. apply elem_of_cons in Hin as [?|Hin]; [done|].
  destruct H as [(_ & -> & _)|[(sfd & c0 & Hs & -> & -> & Hsrc & Hq & F & I & O & R & L & N)|H]].
  - apply list_elem_of_singleton in Hin. done.
  - split_and!; auto.
    + by rewrite R, R1.
    + intros Hnul. by rewrite R, R1, dest_error_nul_free.
    + by rewrite F, F1.
    + intros fd. rewrite N. by apply fd_lookup_fds.
    + exists a, sfd, c0. split_and!; auto. by rewrite <- (fd_lookup_fds sfd w w1).
  - exfalso.
    destruct H as (sfd & dfd & chunks & ending & tl & Hs & Hd & Hne & Ls & Ld & Hch & Hlen & -> & Hsrc &
                   F & Hpre & N & L & I & Hnn & Htot & Hce).
    assert (Hit : EvOpen (dest_of argv) DEST_FLAGS (-1) ∉ flat_map (iteration sfd dfd) chunks).
    { intros H. by apply (chunk_of_iterations _ _ _ _ Hch) in H as (d' & _ & [?|?]). }
    destruct Hce as [(_ & -> & -> & _)|[(_ & -> & _ & d' & k & c1 & c2 & _ & _ & -> & _)|
      [(-> & O & c1 & c2 & -> & -> & R)|(c1 & c2 & -> & -> & _)]]].
    all: in_log Hin; try done; injection Hin; intros; lia.
Qed.

Lemma failed_destination_open_witness :
  (main 1 some_stack my_copy_argv dest_refused).1 = Some 1 /\
  w_fs (main 1 some_stack my_copy_argv dest_refused).2 = only_source /\
  w_stderr (main 1 some_stack my_copy_argv dest_refused).2 =
    dest_error1 ++ char_array "b.txt" ++ error2.
Proof.
  destruct (failed_destination_open_is_fatal 1 some_stack my_copy_argv dest_refused
              (main 1 some_stack my_copy_argv dest_refused).1
              (main 1 some_stack my_copy_argv dest_refused).2) as (H1 & _ & H3 & H2 & _).
  - vm_compute. reflexivity.
  - vm_compute. repeat constructor.
  - split; [exact H1|]. split; [exact H2|]. apply H3. reflexivity.
Defined.

(** X5.  In a run where a [read] on a file returned -1, the program returns
    1 and the error stream gets the read-failure message.  The failed read
    was issued on the source descriptor with the size of the buffer; it is
    followed by the close of the source and of the destination and by
    nothing else.  Everything read before it had been written: the
    destination holds exactly those bytes. *)
Theorem failed_read_is_fatal fuel locals argv w res w' fd c d :
  main fuel locals argv w = (res, w') ->
  EvRead fd c (-1) d ∈ new_events w w' ->
  res = Some 1 /\
  w_stderr w' = w_stderr w ++ read_error /\
  exists pre dfd c1 c2,
    new_events w w' = pre ++ [EvRead fd BUFFER_SIZE (-1) []; EvClose fd c1; EvClose dfd c2] /\
    EvOpen (source_of argv) O_RDONLY fd ∈ pre /\
    EvOpen (dest_of argv) DEST_FLAGS dfd ∈ pre /\
    fd_lookup fd w' = None /\ fd_lookup dfd w' = None /\
    bytes_written pre = bytes_read pre /\
    w_fs w' = <[dest_of argv := bytes_read pre]> (w_fs w).
Proof.
  intros E Hin.
  apply main_detail in E as [(_ & _ & ->)|[(_ & a & Hev & _)|(_ & a & w1 & evs & Hev & F1 & D1 & Q1 & R1 & _ & H)]].
  { unfold new_events in Hin. cbn in Hin. rewrite drop_all in Hin. by apply elem_of_nil in Hin. }
  { rewrite Hev in Hin. by apply list_elem_of_singleton in Hin. }
  rewrite Hev in Hin. apply elem_of_cons in Hin as [?|Hin]; [done|].
  destruct H as [(_ & -> & _)|[(sfd & c0 & _ & _ & -> & _)|H]].
  - by apply list_elem_of_singleton in Hin.
  - in_log Hin; done.
  - destruct H as (sfd & dfd & chunks & ending & tl & Hs & Hd & Hne & Ls & Ld & Hch & Hlen & -> & Hsrc &
                   F & Hpre & N & L & I & Hnn & Htot & Hce).
    assert (Hit : EvRead fd c (-1) d ∉ flat_map (iteration sfd dfd) chunks).
    { intros H. apply (chunk_of_iterations _ _ _ _ Hch) in H as (d' & _ & [[= _ _ ? _]|?]); [lia|done]. }
    destruct Hce as [(_ & -> & -> & _)|[(_ & -> & _ & d' & k & c1 & c2 & _ & _ & -> & _)|
      [(-> & O & c1 & c2 & -> & -> & R)|(c1 & c2 & -> & -> & _)]]].
    + in_log Hin; done.
    + in_log Hin; try done. injection Hin as _ _ ? _. lia.
    + in_log Hin; try done. injection Hin as -> -> ->.
      destruct (L ltac:(done)) as [L1 L2].
      destruct (bytes_of_copy sfd dfd a (source_of argv) (dest_of argv) chunks) as [Hr Hw].
      split_and!; auto; [by rewrite R, R1|].
      exists (EvAccess (dest_of argv) a :: EvOpen (source_of argv) O_RDONLY sfd
              :: EvOpen (dest_of argv) DEST_FLAGS dfd :: flat_map (iteration sfd dfd) chunks), dfd, c1, c2.
      split_and!; auto.
      * rewrite Hev. cbn [app]. by rewrite <- !app_assoc.
      * rewrite !elem_of_cons. auto.
      * rewrite !elem_of_cons. auto.
      * by rewrite Hw, Hr.
      * rewrite F, F1, Hr, bytes_written_app, (proj2 (bytes_of_iterations _ _ _)). cbn.
        by rewrite app_nil_r.
    + in_log Hin; done.
Qed.

Lemma failed_read_witness :
  (main 1 some_stack my_copy_argv read_fails).1 = Some 1 /\
  w_stderr (main 1 some_stack my_copy_argv read_fails).2 = read_error.
Proof.
  destruct (failed_read_is_fatal 1 some_stack my_copy_argv read_fails
              (main 1 some_stack my_copy_argv read_fails).1
              (main 1 some_stack my_copy_argv read_fails).2 3 BUFFER_SIZE []) as (H1 & H2 & _).
  - vm_compute. reflexivity.
  - vm_compute. repeat constructor.
  - split; [exact H1 | exact H2].
Defined.

(** X6.  In a run where a [read] on a file returned 0, the whole source had
    been read and written: the destination holds the content the source had
    when the transfer began.  That read is followed by the close of the
    source and the close of the destination, in this order, and by no other
    call; both descriptors are released.  The exit status is 0 exactly when
    both calls returned 0; a failed close of the source is reported by its
    own message, a failed close of the destination by another. *)
Theorem end_of_file_is_followed_by_both_closes fuel locals argv w res w' fd c d :
  main fuel locals argv w = (res, w') ->
  EvRead fd c 0 d ∈ new_events w w' ->
  exists pre dfd c1 c2,
    new_events w w' = pre ++ [EvRead fd BUFFER_SIZE 0 []; EvClose fd c1; EvClose dfd c2] /\
    EvOpen (source_of argv) O_RDONLY fd ∈ pre /\
    EvOpen (dest_of argv) DEST_FLAGS dfd ∈ pre /\
    bytes_read pre = content_at_start (source_of argv) (dest_of argv) w /\
    w_fs w' = <[dest_of argv := content_at_start (source_of argv) (dest_of argv) w]> (w_fs w) /\
    fd_lookup fd w' = None /\ fd_lookup dfd w' = None /\
    ((c1 = -1 /\ res = Some 1 /\ w_stderr w' = w_stderr w ++ close_source_error) \/
     (c1 = 0 /\ c2 = -1 /\ res = Some 1 /\ w_stderr w' = w_stderr w ++ close_dest_error) \/
     (c1 = 0 /\ c2 = 0 /\ res = Some 0 /\ w_stderr w' = w_stderr w /\
      exists out, w_stdout w' = out ++ success_msg (source_of argv) (dest_of argv))).
Proof.
  intros E Hin.
  apply main_detail in E as [(_ & _ & ->)|[(_ & a & Hev & _)|(_ & a & w1 & evs & Hev & F1 & D1 & Q1 & R1 & _ & H)]].
  { unfold new_events in Hin. cbn in Hin. rewrite drop_all in Hin. by apply elem_of_nil in Hin. }
  { rewrite Hev in Hin. by apply list_elem_of_singleton in Hin. }
  rewrite Hev in Hin. apply elem_of_cons in Hin as [?|Hin]; [done|].
  destruct H as [(_ & -> & _)|[(sfd & c0 & _ & _ & -> & _)|H]].
  - by apply list_elem_of_singleton in Hin.
  - in_log Hin; done.
  - destruct H as (sfd & dfd & chunks & ending & tl & Hs & Hd & Hne & Ls & Ld & Hch & Hlen & -> & Hsrc &
                   F & Hpre & N & L & I & Hnn & Htot & Hce).
    assert (Hit : EvRead fd c 0 d ∉ flat_map (iteration sfd dfd) chunks).
    { intros H. apply (chunk_of_iterations _ _ _ _ Hch) in H as (d' & Hd' & [[= _ _ ? _]|?]); [|done].
      unfold chunk in Hd'. lia. }
    destruct Hce as [(_ & -> & -> & _)|[(_ & -> & _ & d' & k & c1 & c2 & Hd' & _ & -> & _)|
      [(-> & O & c1 & c2 & -> & -> & R)|(c1 & c2 & -> & -> & Hall & Hres)]]].
    + in_log Hin; done.
    + in_log Hin; try done. injection Hin as _ _ ? _. unfold chunk in Hd'. lia.
    + in_log Hin; done.
    + in_log Hin; try done. injection Hin as -> -> ->.
      assert (Hr : res <> None).
      { destruct Hres as [(_ & -> & _)|[(_ & _ & -> & _)|(_ & _ & -> & _)]]; done. }
      destruct (L Hr) as [L1 L2].
      destruct (bytes_of_copy sfd dfd a (source_of argv) (dest_of argv) chunks) as [Hrd Hw].
      rewrite (content_at_start_fs _ _ w w1 F1) in Hall.
      exists (EvAccess (dest_of argv) a :: EvOpen (source_of argv) O_RDONLY sfd
              :: EvOpen (dest_of argv) DEST_FLAGS dfd :: flat_map (iteration sfd dfd) chunks), dfd, c1, c2.
      split_and!; auto.
      * rewrite Hev. cbn [app]. by rewrite <- !app_assoc.
      * rewrite !elem_of_cons. auto.
      * rewrite !elem_of_cons. auto.
      * by rewrite Hrd.
      * rewrite F, F1, bytes_written_app, (proj2 (bytes_of_iterations _ _ _)). cbn.
        by rewrite app_nil_r, Hall.
      * destruct Hres as [(-> & -> & _ & R)|[(-> & -> & -> & _ & R)|(-> & -> & -> & R & O)]].
        -- left. by rewrite R, R1.
        -- right. left. by rewrite R, R1.
        -- right. right. split_and!; auto; [by rewrite R, R1|eauto].
Qed.

Lemma failed_close_witness :
  w_fs (main 2 some_stack my_copy_argv close_fails).2 = <["b.txt"%string := hello]> only_source.
Proof.
  destruct (end_of_file_is_followed_by_both_closes 2 some_stack my_copy_argv close_fails
              (main 2 some_stack my_copy_argv close_fails).1
              (main 2 some_stack my_copy_argv close_fails).2 3 BUFFER_SIZE [])
    as (pre & dfd & c1 & c2 & _ & _ & _ & _ & F & _).
  - vm_compute. reflexivity.
  - vm_compute. repeat constructor.
  - exact F.
Defined.

(** X7.  A terminated run that opened the destination and whose log shows
    no failed read, no failed or short write and no failed close returns 0,
    writes nothing to the error stream and leaves in the destination the
    content of the source, however the reads were cut into chunks. *)
Theorem run_without_failed_call_succeeds fuel locals argv w s w' :
  main fuel locals argv w = (Some s, w') ->
  opened_for_writing (dest_of argv) (new_events w w') ->
  (forall fd c d, EvRead fd c (-1) d ∉ new_events w w') ->
  (forall fd data k, EvWrite fd data k ∈ new_events w w' -> k = Z.of_nat (length data)) ->
  (forall fd, EvClose fd (-1) ∉ new_events w w') ->
  s = 0 /\
  w_fs w' = <[dest_of argv := content_at_start (source_of argv) (dest_of argv) w]> (w_fs w) /\
  w_stderr w' = w_stderr w.
Proof.
  intros E (dfd0 & Hdfd0 & Hin) Hreads Hwrites Hcloses.
  apply main_detail in E as [(_ & _ & ->)|[(_ & a & Hev & _)|(_ & a & w1 & evs & Hev & F1 & D1 & Q1 & R1 & _ & H)]].
  { unfold new_events in Hin. cbn in Hin. rewrite drop_all in Hin. by apply elem_of_nil in Hin. }
  { rewrite Hev in Hin. by apply list_elem_of_singleton in Hin. }
  rewrite Hev in Hin, Hreads, Hwrites, Hcloses. apply elem_of_cons in Hin as [?|Hin]; [done|].
  destruct H as [(_ & -> & _)|[(sfd & c0 & _ & _ & -> & _)|H]].
  - apply list_elem_of_singleton in Hin. done.
  - in_log Hin; try done. injection Hin; intros; lia.
  - destruct H as (sfd & dfd & chunks & ending & tl & Hs & Hd & Hne & Ls & Ld & Hch & Hlen & -> & Hsrc &
                   F & Hpre & N & L & I & Hnn & Htot & Hce).
    destruct Hce as [(? & _)|[(_ & -> & _ & d' & k & c1 & c2 & Hd' & Hk & -> & _)|
      [(_ & O & c1 & c2 & -> & -> & R)|(c1 & c2 & -> & -> & Hall & Hres)]]]; [done|exfalso..|].
    + specialize (Hwrites dfd d' k). rewrite Hwrites in Hk; [lia|].
      rewrite !elem_of_cons, !elem_of_app, !elem_of_cons. auto 10.
    + apply (Hreads sfd BUFFER_SIZE []).
      rewrite !elem_of_cons, !elem_of_app, !elem_of_cons. auto 10.
    + rewrite (content_at_start_fs _ _ w w1 F1) in Hall.
      assert (Hf : w_fs w' = <[dest_of argv:=content_at_start (source_of argv) (dest_of argv) w]> (w_fs w)).
      { rewrite F, F1, bytes_written_app, (proj2 (bytes_of_iterations _ _ _)). cbn.
        by rewrite app_nil_r, Hall. }
      destruct Hres as [(-> & _)|[(_ & -> & _)|(_ & _ & [= <-] & R & _)]].
      * exfalso. apply (Hcloses sfd).
        rewrite !elem_of_cons, !elem_of_app, !elem_of_cons. auto 10.
      * exfalso. apply (Hcloses dfd).
        rewrite !elem_of_cons, !elem_of_app, !elem_of_cons. auto 10.
      * split_and!; auto. by rewrite R, R1.
Qed.

Lemma clean_run_witness :
  hello_run.1 = Some 0 /\ w_stderr hello_run.2 = [].
Proof.
  destruct (run_without_failed_call_succeeds 3 some_stack my_copy_argv (fresh only_source [] [])
              0 hello_run.2) as (_ & _ & R).
  - vm_compute. reflexivity.
  - exists 4. split; [done|]. vm_compute. repeat constructor.
  - intros fd c d H. absent H.
  - intros fd data k H. vm_compute in H.
    repeat (apply elem_of_cons in H as [H|H]; [try discriminate H|]).
    + by injection H as -> -> ->.
    + by apply elem_of_nil in H.
  - intros fd H. absent H.
  - split; [vm_compute; reflexivity | exact R].
Defined.

(** X8.  The system calls of a run that opened the destination, in order:
    the existence check; [open] of the source; [open] of the destination,
    on two different descriptors that were free before; then for each
    completed turn of the loop a read of [BUFFER_SIZE] bytes on the source
    and a write, on the destination, of exactly the bytes that read
    delivered, between 1 and [BUFFER_SIZE] of them; then one of the four
    endings.  The chunks are consecutive parts of the source content, so
    there are at most as many turns as the source has bytes. *)
Theorem copy_log_grammar fuel locals argv w res w' :
  main fuel locals argv w = (res, w') ->
  opened_for_writing (dest_of argv) (new_events w w') ->
  exists a sfd dfd chunks ending,
    new_events w w' =
      EvAccess (dest_of argv) a :: EvOpen (source_of argv) O_RDONLY sfd
        :: EvOpen (dest_of argv) DEST_FLAGS dfd
        :: flat_map (iteration sfd dfd) chunks ++ ending /\
    3 <= sfd /\ 3 <= dfd /\ sfd <> dfd /\
    fd_lookup sfd w = None /\ fd_lookup dfd w = None /\
    Forall chunk chunks /\ (length chunks <= fuel)%nat /\
    concat chunks `prefix_of` content_at_start (source_of argv) (dest_of argv) w /\
    (length chunks <= length (content_at_start (source_of argv) (dest_of argv) w))%nat /\
    run_ending sfd dfd res ending.
Proof.
  intros E (dfd0 & Hdfd0 & Hin).
  apply main_detail in E as [(_ & _ & ->)|[(_ & a & Hev & _)|(_ & a & w1 & evs & Hev & F1 & D1 & Q1 & R1 & _ & H)]].
  { unfold new_events in Hin. cbn in Hin. rewrite drop_all in Hin. by apply elem_of_nil in Hin. }
  { rewrite Hev in Hin. by apply list_elem_of_singleton in Hin. }
  rewrite Hev in Hin. apply elem_of_cons in Hin as [?|Hin]; [done|].
  destruct H as [(_ & -> & _)|[(sfd & c0 & _ & _ & -> & _)|H]].
  - apply list_elem_of_singleton in Hin. done.
  - exfalso. repeat (rewrite ?elem_of_cons, ?elem_of_nil in Hin).
    destruct Hin as [?|[Hin|[?|?]]]; try done. injection Hin; intros; lia.
  - destruct H as (sfd & dfd & chunks & ending & tl & Hs & Hd & Hne & Ls & Ld & Hch & Hlen & -> & Hsrc &
                   F & Hpre & N & L & I & Hnn & Htot & Hce).
    exists a, sfd, dfd, chunks, (ending ++ tl).
    rewrite (fd_lookup_fds _ w w1 D1) in Ls. rewrite (fd_lookup_fds _ w w1 D1) in Ld.
    rewrite (content_at_start_fs _ _ w w1 F1) in Hpre.
    assert (Hcc : concat chunks `prefix_of` content_at_start (source_of argv) (dest_of argv) w).
    { etransitivity; [|exact Hpre].
      rewrite bytes_read_app, (proj1 (bytes_of_iterations _ _ _)). by apply prefix_app_r. }
    split_and!; auto.
    + rewrite Hev. cbn [app]. by rewrite <- !app_assoc.
    + apply prefix_length in Hcc. pose proof (chunks_length _ Hch). lia.
    + destruct Hce as [(-> & -> & -> & _)|[(-> & -> & _ & d' & k & c1 & c2 & Hd' & Hk & -> & _)|
        [(-> & O & c1 & c2 & -> & -> & R)|(c1 & c2 & -> & -> & _ & Hres)]]].
      * by left.
      * right. left. split; [done|]. exists d', k, c1, c2. by rewrite app_nil_r.
      * right. right. left. split; [done|]. by exists c1, c2.
      * right. right. right. exists c1, c2. cbn [app]. split; [done|].
        destruct Hres as [(-> & -> & _)|[(-> & -> & -> & _)|(-> & -> & -> & _)]]; done.
Qed.

Lemma copy_log_witness :
  exists chunks ending,
    new_events slow_reads (main 5 some_stack my_copy_argv slow_reads).2 =
      EvAccess "b.txt" (-1) :: EvOpen "a.txt" O_RDONLY 3 :: EvOpen "b.txt" DEST_FLAGS 4
        :: flat_map (iteration 3 4) chunks ++ ending /\
    Forall chunk chunks.
Proof.
  destruct (copy_log_grammar 5 some_stack my_copy_argv slow_reads
              (main 5 some_stack my_copy_argv slow_reads).1
              (main 5 some_stack my_copy_argv slow_reads).2)
    as (a & sfd & dfd & chunks & ending & Hev & _ & _ & _ & _ & _ & Hch & _).
  - vm_compute. reflexivity.
  - exists 4. split; [done|]. vm_compute. repeat constructor.
  - exists chunks, ending. split; [|exact Hch].
    rewrite Hev. assert (new_events slow_reads (main 5 some_stack my_copy_argv slow_reads).2 =
      EvAccess "b.txt" (-1) :: EvOpen "a.txt" O_RDONLY 3 :: EvOpen "b.txt" DEST_FLAGS 4 ::
      drop 3 (new_events slow_reads (main 5 some_stack my_copy_argv slow_reads).2)) as Hc
      by (vm_compute; reflexivity).
    rewrite Hev in Hc. cbn [drop] in Hc. by injection Hc as -> -> ->.
Defined.

(** X9.  When both arguments name one path and the run gets as far as
    opening the destination, the file is left empty: it is truncated by the
    second [open] before the first [read], which finds nothing, so no
    [write] is ever issued.  One turn of the loop is enough to leave it. *)
Theorem copy_onto_itself_empties_the_file fuel locals argv w res w' :
  main fuel locals argv w = (res, w') ->
  source_of argv = dest_of argv ->
  opened_for_writing (dest_of argv) (new_events w w') ->
  w_fs w' = <[dest_of argv := []]> (w_fs w) /\
  w_fs w !! dest_of argv <> None /\
  bytes_read (new_events w w') = [] /\
  (forall fd data k, EvWrite fd data k ∉ new_events w w') /\
  ((0 < fuel)%nat -> res <> None).
Proof.
  intros E Hsame (dfd0 & Hdfd0 & Hin).
  apply main_detail in E as [(_ & _ & ->)|[(_ & a & Hev & _)|(_ & a & w1 & evs & Hev & F1 & D1 & Q1 & R1 & _ & H)]].
  { unfold new_events in Hin. cbn in Hin. rewrite drop_all in Hin. by apply elem_of_nil in Hin. }
  { rewrite Hev in Hin. by apply list_elem_of_singleton in Hin. }
  rewrite Hev in Hin. apply elem_of_cons in Hin as [?|Hin]; [done|].
  destruct H as [(_ & -> & _)|[(sfd & c0 & _ & _ & -> & _)|H]].
  - apply list_elem_of_singleton in Hin. done.
  - in_log Hin; try done. injection Hin; intros; lia.
  - destruct H as (sfd & dfd & chunks & ending & tl & Hs & Hd & Hne & Ls & Ld & Hch & Hlen & -> & Hsrc &
                   F & Hpre & N & L & I & Hnn & Htot & Hce).
    assert (Hc0 : content_at_start (source_of argv) (dest_of argv) w1 = []).
    { unfold content_at_start. by rewrite decide_True. }
    rewrite Hc0 in Hpre, Hnn. apply prefix_nil_inv in Hpre.
    rewrite bytes_read_app, (proj1 (bytes_of_iterations _ _ _)) in Hpre.
    apply app_eq_nil in Hpre as [Hchunks Hend].
    assert (chunks = []) as ->.
    { destruct Hch as [|d chunks Hd' _]; [done|]. cbn in Hchunks.
      apply app_eq_nil in Hchunks as [-> _]. unfold chunk in Hd'. simpl in Hd'. lia. }
    cbn [flat_map app] in *.
    assert (Hshape : (ending = [] \/ exists n, ending = [EvRead sfd BUFFER_SIZE n []]) /\
                     (tl = [] \/ exists c1 c2, tl = [EvClose sfd c1; EvClose dfd c2])).
    { destruct Hce as [(_ & -> & -> & _)|[(_ & -> & _ & d' & k & c1 & c2 & Hd' & _ & -> & _)|
        [(_ & O & c1 & c2 & -> & -> & R)|(c1 & c2 & -> & -> & _)]]]; eauto 10.
      cbn in Hend. apply app_eq_nil in Hend as [-> _]. unfold chunk in Hd'. simpl in Hd'. lia. }
    destruct Hshape as [He Ht]. split_and!.
    + rewrite F, F1. f_equal. by destruct He as [->|(n & ->)].
    + by rewrite <- Hsame, <- F1.
    + rewrite Hev. cbn. destruct He as [->|(n & ->)], Ht as [->|(c1 & c2 & ->)]; done.
    + intros fd data k Hw. rewrite Hev in Hw.
      destruct He as [->|(n & ->)], Ht as [->|(c1 & c2 & ->)]; in_log Hw; done.
    + intros Hf. apply Hnn. simpl. lia.
Qed.

Lemma self_copy_witness :
  w_fs (main 2 some_stack same_file_argv self_copy).2 = <["a.txt"%string := []]> only_source.
Proof.
  destruct (copy_onto_itself_empties_the_file 2 some_stack same_file_argv self_copy
              (main 2 some_stack same_file_argv self_copy).1
              (main 2 some_stack same_file_argv self_copy).2) as (F & _).
  - vm_compute. reflexivity.
  - reflexivity.
  - exists 4. split; [done|]. vm_compute. repeat constructor.
  - exact F.
Defined.

(** X10.  Whatever exit a terminated run takes, every descriptor it opened
    has been closed: the descriptor table is as it was before the run. *)
Theorem terminated_run_leaks_no_descriptor fuel locals argv w s w' :
  main fuel locals argv w = (Some s, w') ->
  forall fd, fd_lookup fd w' = fd_lookup fd w.
Proof.
  intros E fd.
  apply main_detail in E as [(_ & _ & ->)|[(_ & a & Hev & _ & D & _)|(_ & a & w1 & evs & Hev & F1 & D1 & Q1 & R1 & _ & H)]].
  { done. }
  { by apply fd_lookup_fds. }
  rewrite <- (fd_lookup_fds fd w w1 D1).
  destruct H as [(_ & _ & _ & D & _)|[(sfd & c0 & _ & _ & _ & _ & _ & _ & _ & _ & _ & _ & N)|H]].
  - by apply fd_lookup_fds.
  - apply N.
  - destruct H as (sfd & dfd & chunks & ending & tl & Hs & Hd & Hne & Ls & Ld & Hch & Hlen & -> & Hsrc &
                   F & Hpre & N & L & _).
    destruct (L ltac:(done)) as [L1 L2].
    destruct (decide (fd = sfd)) as [->|H1]; [by rewrite L1, Ls|].
    destruct (decide (fd = dfd)) as [->|H2]; [by rewrite L2, Ld|].
    by apply N.
Qed.

Lemma no_leak_witness :
  fd_lookup 3 (main 2 some_stack my_copy_argv close_fails).2 = None.
Proof.
  apply (terminated_run_leaks_no_descriptor 2 some_stack my_copy_argv close_fails 1
           (main 2 some_stack my_copy_argv close_fails).2).
  vm_compute. reflexivity.
Defined.

(** X11.  No file other than the destination is changed by a run, and the
    file system changes only in runs that opened the destination. *)
Theorem only_the_destination_can_change fuel locals argv w res w' :
  main fuel locals argv w = (res, w') ->
  (forall p, p <> dest_of argv -> w_fs w' !! p = w_fs w !! p) /\
  (w_fs w' = w_fs w \/ opened_for_writing (dest_of argv) (new_events w w')).
Proof.
  intros E.
  apply main_detail in E as [(_ & _ & ->)|[(_ & a & Hev & F & _)|(_ & a & w1 & evs & Hev & F1 & D1 & Q1 & R1 & _ & H)]].
  { split; [done|by left]. }
  { rewrite F. split; [done|by left]. }
  destruct H as [(_ & _ & F & _)|[(sfd & c0 & _ & _ & _ & _ & _ & F & _)|H]].
  - rewrite F, F1. split; [done|by left].
  - rewrite F, F1. split; [done|by left].
  - destruct H as (sfd & dfd & chunks & ending & tl & Hs & Hd & Hne & Ls & Ld & Hch & Hlen & -> & Hsrc &
                   F & _).
    rewrite F, F1. split.
    + intros p Hp. by rewrite lookup_insert_ne.
    + right. exists dfd. split; [lia|]. rewrite Hev. cbn [app]. rewrite !elem_of_cons. auto.
Qed.

Lemma source_untouched_witness :
  w_fs (main 3 some_stack my_copy_argv short_write_world).2 !! "a.txt"%string = Some hello.
Proof.
  destruct (only_the_destination_can_change 3 some_stack my_copy_argv short_write_world
              (main 3 some_stack my_copy_argv short_write_world).1
              (main 3 some_stack my_copy_argv short_write_world).2) as (H & _).
  - vm_compute. reflexivity.
  - apply (H "a.txt"%string). discriminate.
Defined.

(** X12.  A run that returns 0 writes nothing to the error stream; a run
    that returns 1 writes exactly one of the program's error messages; a
    terminated run returns nothing else.  A run still in one of its loops
    has written nothing to the error stream. *)
Theorem error_stream_matches_exit_status fuel locals argv w res w' :
  main fuel locals argv w = (res, w') ->
  match res with
  | None => w_stderr w' = w_stderr w
  | Some s =>
      (s = 0 /\ w_stderr w' = w_stderr w) \/
      (s = 1 /\ exists msg, msg ∈ error_messages (source_of argv) (dest_of argv) /\
         w_stderr w' = w_stderr w ++ msg)
  end.
Proof.
  intros E. unfold error_messages.
  assert (Hmsg : forall msg, msg ∈ error_messages (source_of argv) (dest_of argv) ->
            w_stderr w' = w_stderr w ++ msg ->
            (1 = 0 /\ w_stderr w' = w_stderr w) \/
            (1 = 1 /\ exists msg, msg ∈ error_messages (source_of argv) (dest_of argv) /\
               w_stderr w' = w_stderr w ++ msg)).
  { intros msg Hin R. right. eauto. }
  unfold error_messages in Hmsg.
  apply main_detail in E as [(_ & -> & ->)|[(_ & a & Hev & _ & _ & _ & Hres)|(_ & a & w1 & evs & Hev & F1 & D1 & Q1 & R1 & _ & H)]].
  { apply (Hmsg usage); [|done]. rewrite !elem_of_cons. auto. }
  { destruct Hres as [(-> & R)|[(-> & R)|(-> & R)]]; auto.
    apply (Hmsg input_error); [|done]. rewrite !elem_of_cons. auto. }
  destruct H as [(-> & _ & _ & _ & _ & _ & R & _)|[(sfd & c0 & _ & -> & _ & _ & _ & _ & _ & _ & R & _)|H]].
  - apply (Hmsg (source_error (source_of argv))); [|by rewrite R, R1]. rewrite !elem_of_cons. auto.
  - apply (Hmsg (dest_error (dest_of argv))); [|by rewrite R, R1]. rewrite !elem_of_cons. auto 10.
  - destruct H as (sfd & dfd & chunks & ending & tl & Hs & Hd & Hne & Ls & Ld & Hch & Hlen & -> & Hsrc &
                   F & Hpre & N & L & I & Hnn & Htot & Hce).
    destruct Hce as [(-> & _ & _ & _ & R & _)|[(-> & _ & _ & d' & k & c1 & c2 & _ & _ & _ & R)|
      [(-> & O & c1 & c2 & _ & _ & R)|(c1 & c2 & _ & _ & _ & Hres)]]].
    + by rewrite R, R1.
    + destruct (k =? -1).
      * apply (Hmsg write_error); [|by rewrite R, R1]. rewrite !elem_of_cons. auto 10.
      * apply (Hmsg incomplete_error); [|by rewrite R, R1]. rewrite !elem_of_cons. auto 10.
    + apply (Hmsg read_error); [|by rewrite R, R1]. rewrite !elem_of_cons. auto 10.
    + destruct Hres as [(_ & -> & _ & R)|[(_ & _ & -> & _ & R)|(_ & _ & -> & R & _)]].
      * apply (Hmsg close_source_error); [|by rewrite R, R1]. rewrite !elem_of_cons. auto 10.
      * apply (Hmsg close_dest_error); [|by rewrite R, R1]. rewrite !elem_of_cons. auto 12.
      * left. by rewrite R, R1.
Qed.

Lemma error_stream_witness :
  exists msg, msg ∈ error_messages "a.txt" "b.txt" /\
    w_stderr (main 3 some_stack my_copy_argv short_write_world).2 = msg.
Proof.
  destruct (error_stream_matches_exit_status 3 some_stack my_copy_argv short_write_world
              (Some 1) (main 3 some_stack my_copy_argv short_write_world).2)
    as [(H & _)|(_ & msg & Hin & R)].
  - vm_compute. reflexivity.
  - discriminate H.
  - exists msg. split; [exact Hin | exact R].
Defined.

(** X13.  Exit status 0 is returned in two situations only: the
    destination existed and the user declined, the existence check being
    the only call and the file system and the descriptor table untouched;
    or both files were opened and the destination holds the content of the
    source. *)
Theorem exit_status_0_means_declined_or_copied fuel locals argv w w' :
  main fuel locals argv w = (Some 0, w') ->
  w_stderr w' = w_stderr w /\
  ((new_events w w' = [EvAccess (dest_of argv) 0] /\ w_fs w !! dest_of argv <> None /\
    w_fs w' = w_fs w /\ w_fds w' = w_fds w) \/
   (opened_for_writing (dest_of argv) (new_events w w') /\
    w_fs w !! source_of argv <> None /\
    w_fs w' = <[dest_of argv := content_at_start (source_of argv) (dest_of argv) w]> (w_fs w))).
Proof.
  intros E.
  apply main_detail in E as [(_ & ? & _)|[(_ & a & Hev & F & D & (-> & Hd) & Hres)|(_ & a & w1 & evs & Hev & F1 & D1 & Q1 & R1 & _ & H)]].
  { done. }
  { split; [|by left]. by destruct Hres as [(? & _)|[(_ & R)|(? & _)]]. }
  destruct H as [(? & _)|[(sfd & c0 & _ & ? & _)|H]]; [done..|].
  destruct H as (sfd & dfd & chunks & ending & tl & Hs & Hd & Hne & Ls & Ld & Hch & Hlen & -> & Hsrc &
                 F & Hpre & N & L & I & Hnn & Htot & Hce).
  destruct Hce as [(? & _)|[(? & _)|[(? & _)|(c1 & c2 & -> & -> & Hall & Hres)]]]; try done.
  destruct Hres as [(_ & ? & _)|[(_ & _ & ? & _)|(_ & _ & _ & R & O)]]; try done.
  split; [by rewrite R, R1|]. right. split_and!.
  - exists dfd. split; [lia|]. rewrite Hev. cbn [app]. rewrite !elem_of_cons. auto.
  - by rewrite <- F1.
  - rewrite F, F1, bytes_written_app, (proj2 (bytes_of_iterations _ _ _)). cbn.
    by rewrite app_nil_r, Hall, (content_at_start_fs _ _ w w1 F1).
Qed.

Lemma exit_status_0_witness :
  w_fs (main 2 some_stack my_copy_argv declining).2 = both_files \/
  w_fs (main 2 some_stack my_copy_argv declining).2 =
    <["b.txt"%string := content_at_start "a.txt" "b.txt" declining]> both_files.
Proof.
  destruct (exit_status_0_means_declined_or_copied 2 some_stack my_copy_argv declining
              (main 2 some_stack my_copy_argv declining).2) as (_ & [(_ & _ & F & _)|(_ & _ & F)]).
  - vm_compute. reflexivity.
  - left. exact F.
  - right. exact F.
Defined.

(** X14.  With an absent destination no input is needed: whatever faults
    the environment schedules, the run takes no byte from the input stream
    and terminates with status 0 or 1 within as many turns of the transfer
    loop as the source has bytes, plus one. *)
Theorem run_without_prompt_terminates fuel locals argv w :
  length argv = 3%nat ->
  w_fs w !! dest_of argv = None ->
  (length (default [] (w_fs w !! source_of argv)) < fuel)%nat ->
  exists s w',
    main fuel locals argv w = (Some s, w') /\ (s = 0 \/ s = 1) /\
    w_stdin w' = w_stdin w.
Proof.
  intros Hlen Hdst Hfuel.
  rewrite main_unfold, decide_True, confirm_overwrite_unfold, Hdst by done.
  set (w1 := log (EvAccess (dest_of argv) (-1)) w).
  destruct (transfer fuel (buffer0 locals) (source_of argv) (dest_of argv) w1) as [res w'] eqn:E.
  apply transfer_detail in E as (evs & _ & [H|[H|H]]).
  - destruct H as (-> & _ & _ & _ & I & _). exists 1, w'. auto.
  - destruct H as (sfd & c & _ & -> & _ & _ & _ & _ & I & _). exists 1, w'. auto.
  - destruct H as (sfd & dfd & chunks & ending & tl & _ & _ & _ & _ & _ & _ & _ & _ & _ &
                   _ & _ & _ & _ & I & Hnn & _ & Hce).
    assert (Hr : res <> None).
    { apply Hnn. unfold content_at_start. case_decide; [simpl; lia|]. exact Hfuel. }
    destruct Hce as [(-> & _)|[(-> & _)|[(-> & _)|(c1 & c2 & _ & _ & _ & Hres)]]];
      [done|exists 1, w'; auto..|].
    destruct Hres as [(_ & -> & _)|[(_ & _ & -> & _)|(_ & _ & -> & _)]]; eauto 10.
Qed.

Lemma termination_witness :
  exists s w', main 12 some_stack my_copy_argv slow_reads = (Some s, w').
Proof.
  destruct (run_without_prompt_terminates 12 some_stack my_copy_argv slow_reads)
    as (s & w' & E & _).
  - reflexivity.
  - reflexivity.
  - vm_compute. lia.
  - exists s, w'. exact E.
Defined.
